(** * Onboarding workflow: supervisor routing, validation, retry and state store

    A shallow embedding of the Python sources of the onboarding system
    (supervised_onboarding_with_llm.py, validation_subgraph.py,
    api_subgraph.py, signup_agent.py, graph_state.py, state_manager.py)
    together with the properties the specification states about them.

    Conventions.
    - Python [str] values are modelled as [string], the encoding of the
      text; [in] on strings is [str_contains].  The supervisor and the
      validation nodes work on ASCII text: [len] is [String.length],
      [.lower()] and [.strip()] are the ASCII versions below.  The stage
      agents and the conversational signup take [len], [strip], [split],
      [isdigit], [isalnum] and the class [\d] by characters (module
      [Unicode]).
    - A Python dict decoded from JSON is a [gmap string pyval].
    - A node of a LangGraph graph returns a partial dict that the engine
      merges into the state; the partial dicts are records of options. *)

From Stdlib Require Import String Ascii List ZArith Lia Bool.
From stdpp Require Import base option list gmap strings.
Import ListNotations.

Local Open Scope string_scope.
Local Open Scope list_scope.

(** ** Python values and string primitives *)

Inductive pyval : Type :=
| PNone
| PBool (b : bool)
| PNum (z : Z)
| PStr (s : string)
| PJson (text : string).   (* a nested list or dict, kept serialised *)

#[global] Instance pyval_eq_dec : EqDecision pyval.
Proof. solve_decision. Defined.

Module Py.

(** [needle in hay] on Python strings. *)
Fixpoint str_contains (needle hay : string) : bool :=
  match hay with
  | EmptyString => String.prefix needle hay
  | String _ rest => String.prefix needle hay || str_contains needle rest
  end.

Definition is_upper (c : ascii) : bool :=
  (65 <=? nat_of_ascii c)%nat && (nat_of_ascii c <=? 90)%nat.

Definition ascii_lower (c : ascii) : ascii :=
  if is_upper c then ascii_of_nat (nat_of_ascii c + 32) else c.

(** [s.lower()] *)
Fixpoint lower (s : string) : string :=
  match s with
  | EmptyString => EmptyString
  | String c rest => String (ascii_lower c) (lower rest)
  end.

(** The characters [str.strip()] removes: TAB, LF, VT, FF, CR, the
    separators 0x1c-0x1f and the space. *)
Definition is_space (c : ascii) : bool :=
  let n := nat_of_ascii c in
  ((9 <=? n)%nat && (n <=? 13)%nat) || ((28 <=? n)%nat && (n <=? 32)%nat).

Fixpoint lstrip (s : string) : string :=
  match s with
  | EmptyString => EmptyString
  | String c rest => if is_space c then lstrip rest else s
  end.

Fixpoint rstrip (s : string) : string :=
  match s with
  | EmptyString => EmptyString
  | String c rest =>
      match rstrip rest with
      | EmptyString => if is_space c then EmptyString else String c EmptyString
      | r => String c r
      end
  end.

(** [s.strip()] *)
Definition strip (s : string) : string := rstrip (lstrip s).

Definition is_digit (c : ascii) : bool :=
  (48 <=? nat_of_ascii c)%nat && (nat_of_ascii c <=? 57)%nat.

Definition is_alpha (c : ascii) : bool :=
  let n := nat_of_ascii c in
  ((65 <=? n)%nat && (n <=? 90)%nat) || ((97 <=? n)%nat && (n <=? 122)%nat).

Fixpoint str_filter (p : ascii -> bool) (s : string) : string :=
  match s with
  | EmptyString => EmptyString
  | String c rest => if p c then String c (str_filter p rest) else str_filter p rest
  end.

(** Python truthiness of a value ([not v] is its negation). *)
Definition truthy (v : pyval) : bool :=
  match v with
  | PNone => false
  | PBool b => b
  | PNum z => negb (z =? 0)%Z
  | PStr s => negb (String.eqb s "")
  | PJson t => negb (String.eqb t "[]" || String.eqb t "{}")
  end.

(** [d.get(k)]: the value, or None when the key is absent. *)
Definition dict_get (d : gmap string pyval) (k : string) : pyval :=
  default PNone (d !! k).

End Py.

(** ** constants.py *)

Definition AGENT_SUPERVISOR : string := "supervisor".
Definition AGENT_SIGNUP : string := "signup".
Definition AGENT_COMPANY : string := "company".
Definition AGENT_KYC : string := "kyc".
Definition AGENT_BANK : string := "bank".
Definition AGENT_COMPLETE : string := "complete".
Definition AGENT_END : string := "end".

Definition STATUS_IN_PROGRESS : string := "in_progress".
Definition STATUS_COMPLETED : string := "completed".
Definition STATUS_ERROR : string := "error".
Definition MSG_ERROR : string := "An error occurred during processing".

(** langgraph.graph.END *)
Definition END : string := "__end__".

(** ** Regular expressions ([re.match] with an anchored pattern)

    The patterns of the sources are anchored with [^] and [$] and applied
    to stripped text, so [re.match] succeeds exactly on full matches; the
    matcher below decides language membership by derivatives. *)

Module Re.

Inductive re : Type :=
| Void
| Eps
| Class (p : ascii -> bool)
| Seq (r1 r2 : re)
| Alt (r1 r2 : re)
| Star (r : re).

Fixpoint nullable (r : re) : bool :=
  match r with
  | Void => false
  | Eps => true
  | Class _ => false
  | Seq r1 r2 => nullable r1 && nullable r2
  | Alt r1 r2 => nullable r1 || nullable r2
  | Star _ => true
  end.

Fixpoint deriv (c : ascii) (r : re) : re :=
  match r with
  | Void => Void
  | Eps => Void
  | Class p => if p c then Eps else Void
  | Seq r1 r2 =>
      if nullable r1
      then Alt (Seq (deriv c r1) r2) (deriv c r2)
      else Seq (deriv c r1) r2
  | Alt r1 r2 => Alt (deriv c r1) (deriv c r2)
  | Star r0 => Seq (deriv c r0) (Star r0)
  end.

Fixpoint fullmatch (r : re) (s : string) : bool :=
  match s with
  | EmptyString => nullable r
  | String c rest => fullmatch (deriv c r) rest
  end.

(** [r+] and [r{2,}] *)
Definition plus (r : re) : re := Seq r (Star r).
Definition at_least_two (r : re) : re := Seq r (Seq r (Star r)).

Definition one_of (chars : string) (c : ascii) : bool :=
  existsb (Ascii.eqb c) (list_ascii_of_string chars).

End Re.

(** ** The graph engine

    Modelled from the spec: the graph engine that runs the compiled
    graphs (LangGraph's [StateGraph.compile().invoke]), a library that is
    not among the sources.  Following section 4.4 of the specification
    (routing loops are bounded by an explicit step ceiling; exceeding it
    is a fatal abort of the run) the engine executes one node per
    transition, merges the node's partial update into the state, asks the
    edge function where to go, and raises its recursion error when
    [recursion_limit] transitions have been executed without reaching
    END.  A conditional edge whose result is not a key of its mapping is
    an error of the engine as well. *)

Module Graph.

Inductive Route (Node : Type) : Type :=
| ToNode (n : Node)
| ToEnd
| NoRoute (key : string).
Arguments ToNode {Node} n.
Arguments ToEnd {Node}.
Arguments NoRoute {Node} key.

Inductive Outcome (State : Type) : Type :=
| Finished (st : State) (steps : nat)
| GraphRecursionError (st : State) (steps : nat)
| RouteError (key : string) (steps : nat).
Arguments Finished {State} st steps.
Arguments GraphRecursionError {State} st steps.
Arguments RouteError {State} key steps.

Definition steps_of {State} (o : Outcome State) : nat :=
  match o with
  | Finished _ n | GraphRecursionError _ n | RouteError _ n => n
  end.

(** LangGraph's default [recursion_limit]. *)
Definition default_recursion_limit : nat := 25.

Section Engine.
Context {Node State : Type}.
(** [exec k n st]: the state after node [n] ran as transition number
    [k] (0-based) on [st], its update merged. *)
Variable exec : nat -> Node -> State -> State.
Variable edge : Node -> State -> Route Node.

Fixpoint run (fuel k : nat) (n : Node) (st : State) : Outcome State :=
  match fuel with
  | O => GraphRecursionError st k
  | S fuel' =>
      let st' := exec k n st in
      match edge n st' with
      | ToEnd => Finished st' (S k)
      | ToNode n' => run fuel' (S k) n' st'
      | NoRoute key => RouteError key (S k)
      end
  end.

Definition invoke (recursion_limit : nat) (entry : Node) (st : State)
  : Outcome State :=
  run recursion_limit 0 entry st.
End Engine.

End Graph.

(** ** validation_subgraph.py *)

Module Validation.

(** ValidationState (graph_state.py); a key that was never written is
    [None], which [state.get(key, False)] reads as False. *)
Record ValidationState : Type := mkValidationState {
  name : pyval;
  email : pyval;
  phone : pyval;
  name_valid : option bool;
  email_valid : option bool;
  phone_valid : option bool;
  validation_complete : option bool;
  errors : list string
}.

(** The partial dict a validation node returns. *)
Record Update : Type := mkUpdate {
  u_name_valid : option bool;
  u_email_valid : option bool;
  u_phone_valid : option bool;
  u_validation_complete : option bool;
  u_errors : option (list string)
}.

Definition overwrite {A} (new : option A) (old : option A) : option A :=
  match new with Some _ => new | None => old end.

Definition merge (st : ValidationState) (u : Update) : ValidationState :=
  {| name := name st; email := email st; phone := phone st;
     name_valid := overwrite (u_name_valid u) (name_valid st);
     email_valid := overwrite (u_email_valid u) (email_valid st);
     phone_valid := overwrite (u_phone_valid u) (phone_valid st);
     validation_complete :=
       overwrite (u_validation_complete u) (validation_complete st);
     errors := default (errors st) (u_errors u) |}.

Definition validate_name (state : ValidationState) : Update :=
  match name state with
  | PStr s =>
      if negb (Py.truthy (PStr s)) then
        mkUpdate (Some false) None None None
          (Some (errors state ++ ["Name is required"]))
      else
        let nm := Py.strip s in
        if (String.length nm <? 2)%nat then
          mkUpdate (Some false) None None None
            (Some (errors state ++ ["Name must be at least 2 characters"]))
        else if (100 <? String.length nm)%nat then
          mkUpdate (Some false) None None None
            (Some (errors state ++ ["Name must be less than 100 characters"]))
        else mkUpdate (Some true) None None None None
  | _ =>
      mkUpdate (Some false) None None None
        (Some (errors state ++ ["Name is required"]))
  end.

(** [^[a-zA-Z0-9._%+-]+@[a-zA-Z0-9.-]+\.[a-zA-Z]{2,}$] *)
Definition email_pattern : Re.re :=
  let local := fun c => Py.is_alpha c || Py.is_digit c || Re.one_of "._%+-" c in
  let domain := fun c => Py.is_alpha c || Py.is_digit c || Re.one_of ".-" c in
  Re.Seq (Re.plus (Re.Class local))
    (Re.Seq (Re.Class (Re.one_of "@"))
       (Re.Seq (Re.plus (Re.Class domain))
          (Re.Seq (Re.Class (Re.one_of "."))
             (Re.at_least_two (Re.Class Py.is_alpha))))).

Definition validate_email (state : ValidationState) : Update :=
  match email state with
  | PStr s =>
      if negb (Py.truthy (PStr s)) then
        mkUpdate None (Some false) None None
          (Some (errors state ++ ["Email is required"]))
      else
        let em := Py.lower (Py.strip s) in
        if negb (Re.fullmatch email_pattern em) then
          mkUpdate None (Some false) None None
            (Some (errors state ++ ["Invalid email format"]))
        else mkUpdate None (Some true) None None None
  | _ =>
      mkUpdate None (Some false) None None
        (Some (errors state ++ ["Email is required"]))
  end.

Definition validate_phone (state : ValidationState) : Update :=
  match phone state with
  | PStr s =>
      if negb (Py.truthy (PStr s)) then
        mkUpdate None None (Some false) None
          (Some (errors state ++ ["Phone is required"]))
      else
        let ph := Py.strip s in
        (* re.sub(r'[^0-9]', '', phone) *)
        let phone_digits := Py.str_filter Py.is_digit ph in
        if (String.length phone_digits <? 10)%nat
           || (15 <? String.length phone_digits)%nat then
          mkUpdate None None (Some false) None
            (Some (errors state ++ ["Phone must be between 10 and 15 digits"]))
        else mkUpdate None None (Some true) None None
  | _ =>
      mkUpdate None None (Some false) None
        (Some (errors state ++ ["Phone is required"]))
  end.

Definition check_validation_complete (state : ValidationState) : Update :=
  let nv := default false (name_valid state) in
  let ev := default false (email_valid state) in
  let pv := default false (phone_valid state) in
  mkUpdate None None None (Some (nv && ev && pv)) None.

(** create_validation_subgraph: four nodes on a line. *)
Inductive Node : Type :=
| n_validate_name | n_validate_email | n_validate_phone | n_check_complete.

Definition node_fun (n : Node) : ValidationState -> Update :=
  match n with
  | n_validate_name => validate_name
  | n_validate_email => validate_email
  | n_validate_phone => validate_phone
  | n_check_complete => check_validation_complete
  end.

Definition exec (_ : nat) (n : Node) (st : ValidationState) : ValidationState :=
  merge st (node_fun n st).

Definition edge (n : Node) (_ : ValidationState) : Graph.Route Node :=
  match n with
  | n_validate_name => Graph.ToNode n_validate_email
  | n_validate_email => Graph.ToNode n_validate_phone
  | n_validate_phone => Graph.ToNode n_check_complete
  | n_check_complete => Graph.ToEnd
  end.

(** [validation_graph.invoke(validation_input)] *)
Definition validation_graph (input : ValidationState)
  : Graph.Outcome ValidationState :=
  Graph.invoke exec edge Graph.default_recursion_limit n_validate_name input.

End Validation.

(** ** api_subgraph.py *)

Module Api.

(** What [requests.post] followed by [raise_for_status] and
    [response.json()] does on one attempt. *)
Inductive HttpOutcome : Type :=
| Responded (entity_id : pyval)        (* 2xx; the body's 'entity_id', None when absent *)
| HttpStatusError (status : Z) (msg : string)   (* HTTPError, a RequestException *)
| Timeout
| ConnectionError (msg : string)
| OtherError (msg : string).

(** The failure kinds the specification calls transient. *)
Definition transient (o : HttpOutcome) : bool :=
  match o with
  | Timeout | ConnectionError _ => true
  | _ => false
  end.

Definition is_failure (o : HttpOutcome) : bool :=
  match o with
  | Responded eid => negb (Py.truthy eid)
  | _ => true
  end.

Inductive Event : Type :=
| EvPost (o : HttpOutcome)
| EvSleep (seconds : nat).

(** The outside world of one run of the graph: how many requests were
    sent, and the log of requests and sleeps in order. *)
Record World : Type := mkWorld {
  posts : nat;
  log : list Event
}.

Definition world0 : World := mkWorld 0 [].

Record APIState : Type := mkAPIState {
  api_url : option string;
  endpoint : option string;
  method : option string;
  user_data : gmap string pyval;
  request_payload : option (gmap string pyval);
  entity_id : pyval;
  success : option bool;
  retry_count : option nat;
  error_message : option string
}.

Record Update : Type := mkUpdate {
  u_endpoint : option string;
  u_method : option string;
  u_request_payload : option (gmap string pyval);
  u_entity_id : option pyval;
  u_success : option bool;
  u_retry_count : option nat;
  u_error_message : option (option string)
}.

Definition merge (st : APIState) (u : Update) : APIState :=
  {| api_url := api_url st;
     endpoint := Validation.overwrite (u_endpoint u) (endpoint st);
     method := Validation.overwrite (u_method u) (method st);
     user_data := user_data st;
     request_payload := Validation.overwrite (u_request_payload u) (request_payload st);
     entity_id := default (entity_id st) (u_entity_id u);
     success := Validation.overwrite (u_success u) (success st);
     retry_count := Validation.overwrite (u_retry_count u) (retry_count st);
     error_message := default (error_message st) (u_error_message u) |}.

Definition prepare_api_request (now : Z) (state : APIState) : Update :=
  let ud := user_data state in
  let request_payload : gmap string pyval :=
    <["name" := Py.dict_get ud "name"]>
      (<["email" := Py.dict_get ud "email"]>
         (<["phone" := Py.dict_get ud "phone"]>
            (<["timestamp" := PNum now]> ∅))) in
  mkUpdate (Some "/api/entity/create") (Some "POST") (Some request_payload)
    None None None None.

(** [call_external_api]; [o] is what the HTTP request of this call did. *)
Definition call_external_api (o : HttpOutcome) (state : APIState) : Update :=
  let failed (msg : string) :=
    mkUpdate None None None (Some PNone) (Some false) None (Some (Some msg)) in
  match o with
  | Responded eid =>
      if negb (Py.truthy eid)
      then failed "No entity_id in API response"   (* ValueError, except Exception *)
      else mkUpdate None None None (Some eid) (Some true) None (Some None)
  | Timeout => failed "API request timeout - please try again"
  | HttpStatusError _ msg => failed ("API connection error: " +:+ msg)
  | ConnectionError msg => failed ("API connection error: " +:+ msg)
  | OtherError msg => failed msg
  end.

Definition max_retries : nat := 3.

(** [handle_api_retry]: the update, and the [time.sleep] it performed. *)
Definition handle_api_retry (state : APIState) : Update * option nat :=
  let success := default false (success state) in
  let retry_count := default 0 (retry_count state) in
  let keep := mkUpdate None None None None None (Some retry_count) None in
  if success then (keep, None)
  else if (retry_count <? max_retries)%nat then
    (mkUpdate None None None None None (Some (retry_count + 1)) None,
     Some (2 ^ retry_count))
  else (keep, None).

Inductive Node : Type := n_prepare_request | n_call_api | n_handle_retry.

(** [router]: END, or the key "call_api". *)
Definition router (state : APIState) : string :=
  let success := default false (success state) in
  let retry_count := default 0 (retry_count state) in
  if success then END
  else if (retry_count <? max_retries)%nat then "call_api"
  else END.

Definition path_map (key : string) : Graph.Route Node :=
  if String.eqb key "call_api" then Graph.ToNode n_call_api
  else if String.eqb key END then Graph.ToEnd
  else Graph.NoRoute key.

(** The number of requests sent from request number [i] on when
    [budget] attempts remain and every failed attempt, whatever its
    kind, is followed by another one. *)
Fixpoint attempts_from (http : nat -> HttpOutcome) (i budget : nat) : nat :=
  match budget with
  | O => O
  | S b => if is_failure (http i) then S (attempts_from http (S i) b) else 1
  end.

(** What a call whose request did [o] leaves in the state. *)
Definition call_result (o : HttpOutcome) (st : APIState)
  : option bool * pyval * option string :=
  let st' := merge st (call_external_api o st) in
  (success st', entity_id st', error_message st').

Definition result_fields (st : APIState) : option bool * pyval * option string :=
  (success st, entity_id st, error_message st).

Section Run.
(** [http i]: what the [i]-th request (0-based) of the run does. *)
Variable http : nat -> HttpOutcome.
Variable now : Z.

Definition exec (_ : nat) (n : Node) (c : APIState * World) : APIState * World :=
  let '(st, w) := c in
  match n with
  | n_prepare_request => (merge st (prepare_api_request now st), w)
  | n_call_api =>
      let o := http (posts w) in
      (merge st (call_external_api o st),
       mkWorld (S (posts w)) (log w ++ [EvPost o]))
  | n_handle_retry =>
      let '(u, slept) := handle_api_retry st in
      (merge st u,
       mkWorld (posts w)
         (log w ++ match slept with Some t => [EvSleep t] | None => [] end))
  end.

Definition edge (n : Node) (c : APIState * World) : Graph.Route Node :=
  match n with
  | n_prepare_request => Graph.ToNode n_call_api
  | n_call_api => Graph.ToNode n_handle_retry
  | n_handle_retry => path_map (router (fst c))
  end.

(** [api_graph.invoke(api_input)] *)
Definition api_graph (input : APIState) : Graph.Outcome (APIState * World) :=
  Graph.invoke exec edge Graph.default_recursion_limit n_prepare_request
    (input, world0).

(** The configuration after call_api and handle_retry ran from
    [(st, w)] as transitions [k] and [k + 1]. *)
Definition after_attempt (k : nat) (st : APIState) (w : World) : APIState * World :=
  exec (S k) n_handle_retry (exec k n_call_api (st, w)).
End Run.

(** The number of requests a run of the graph sent. *)
Definition requests_sent (o : Graph.Outcome (APIState * World)) : nat :=
  match o with
  | Graph.Finished (_, w) _ | Graph.GraphRecursionError (_, w) _ => posts w
  | Graph.RouteError _ _ => 0
  end.

End Api.

(** ** signup_agent.py *)

Module SignupAgent.

Record ValidationResult : Type := mkValidationResult {
  v_success : bool;
  v_name_valid : bool;
  v_email_valid : bool;
  v_phone_valid : bool;
  v_errors : list string
}.

Definition _validate_user_data (user_data : gmap string pyval) : ValidationResult :=
  let validation_input :=
    Validation.mkValidationState
      (Py.dict_get user_data "name") (Py.dict_get user_data "email")
      (Py.dict_get user_data "phone") None None None None [] in
  match Validation.validation_graph validation_input with
  | Graph.Finished result _ =>
      mkValidationResult
        (default false (Validation.validation_complete result))
        (default false (Validation.name_valid result))
        (default false (Validation.email_valid result))
        (default false (Validation.phone_valid result))
        (Validation.errors result)
  | Graph.GraphRecursionError _ _ =>
      mkValidationResult false false false false
        ["Validation error: Recursion limit reached"]
  | Graph.RouteError key _ =>
      mkValidationResult false false false false
        ["Validation error: " +:+ key]
  end.

Record ApiResult : Type := mkApiResult {
  a_success : bool;
  a_entity_id : pyval;
  a_error : option string
}.

(** The [api_input] dict of [_generate_entity_id]. *)
Definition api_input (user_data : gmap string pyval) : Api.APIState :=
  Api.mkAPIState (Some "http://localhost:8000") None None user_data None
    PNone None (Some 0) None.

Section Agent.
Variable http : nat -> Api.HttpOutcome.
Variable now : Z.

(** The result, and the requests and sleeps the call performed. *)
Definition _generate_entity_id (user_data : gmap string pyval)
  : ApiResult * list Api.Event :=
  match Api.api_graph http now (api_input user_data) with
  | Graph.Finished (result, w) _ =>
      let ok := default false (Api.success result) in
      (mkApiResult ok (Api.entity_id result)
         (if negb ok then Api.error_message result else None),
       Api.log w)
  | Graph.GraphRecursionError (_, w) _ =>
      (mkApiResult false PNone (Some "Recursion limit reached"), Api.log w)
  | Graph.RouteError key _ =>
      (mkApiResult false PNone (Some key), [])
  end.

Record SignupResult : Type := mkSignupResult {
  success : bool;
  status : string;
  errors : list string;
  error : option string;
  entity_id : pyval;
  session_id : string
}.

(** [process_signup]; [uuid] is the identifier drawn when the caller
    gave no session id.  Returns the result dict and the external
    requests that were made. *)
Definition process_signup (user_data : gmap string pyval)
    (session_id : option string) (uuid : string)
  : SignupResult * list Api.Event :=
  let sid :=
    match session_id with
    | Some s => if String.eqb s "" then uuid else s
    | None => uuid
    end in
  let validation_result := _validate_user_data user_data in
  if negb (v_success validation_result) then
    (mkSignupResult false "validation_failed" (v_errors validation_result)
       None PNone sid, [])
  else
    let '(api_result, evs) := _generate_entity_id user_data in
    if negb (a_success api_result) then
      (mkSignupResult false "api_failed" [] (a_error api_result) PNone sid, evs)
    else
      (mkSignupResult true "completed" [] None (a_entity_id api_result) sid, evs).
End Agent.

End SignupAgent.

(** ** supervised_onboarding_with_llm.py *)

Module Supervisor.

(** OnboardingState.  The flags and [task_complete] are read with
    [state.get(key, False)], so an absent key is [false] here. *)
Record OnboardingState : Type := mkOnboardingState {
  messages : list string;
  next_agent : option string;
  signup_complete : bool;
  company_complete : bool;
  kyc_complete : bool;
  bank_complete : bool;
  signup_data : gmap string pyval;
  company_data : gmap string pyval;
  kyc_data : gmap string pyval;
  bank_data : gmap string pyval;
  task_complete : bool;
  current_task : option string;
  session_id : string;
  onboarding_id : option string
}.

(** The partial dict a node returns. *)
Record Update : Type := mkUpdate {
  u_next_agent : option string;
  u_current_task : option string;
  u_signup_complete : option bool;
  u_company_complete : option bool;
  u_kyc_complete : option bool;
  u_bank_complete : option bool;
  u_signup_data : option (gmap string pyval);
  u_company_data : option (gmap string pyval);
  u_kyc_data : option (gmap string pyval);
  u_bank_data : option (gmap string pyval);
  u_task_complete : option bool;
  u_onboarding_id : option string
}.

Definition routing (next_agent current_task : string) : Update :=
  mkUpdate (Some next_agent) (Some current_task)
    None None None None None None None None None None.

Definition merge (st : OnboardingState) (u : Update) : OnboardingState :=
  {| messages := messages st;
     next_agent := Validation.overwrite (u_next_agent u) (next_agent st);
     signup_complete := default (signup_complete st) (u_signup_complete u);
     company_complete := default (company_complete st) (u_company_complete u);
     kyc_complete := default (kyc_complete st) (u_kyc_complete u);
     bank_complete := default (bank_complete st) (u_bank_complete u);
     signup_data := default (signup_data st) (u_signup_data u);
     company_data := default (company_data st) (u_company_data u);
     kyc_data := default (kyc_data st) (u_kyc_data u);
     bank_data := default (bank_data st) (u_bank_data u);
     task_complete := default (task_complete st) (u_task_complete u);
     current_task := Validation.overwrite (u_current_task u) (current_task st);
     session_id := session_id st;
     onboarding_id := Validation.overwrite (u_onboarding_id u) (onboarding_id st) |}.

(** [_supervisor_agent]; [llm_response] is what [_call_llm] returned
    for this call (the empty string after its retries failed). *)
Definition _supervisor_agent (llm_response : string) (state : OnboardingState)
  : Update :=
  let has_signup := signup_complete state in
  let has_company := company_complete state in
  let has_kyc := kyc_complete state in
  let has_bank := bank_complete state in
  let llm_decision := Py.lower llm_response in
  if Py.str_contains AGENT_SIGNUP llm_decision || negb has_signup then
    routing AGENT_SIGNUP "📋 Supervisor: Starting with signup process..."
  else if Py.str_contains AGENT_COMPANY llm_decision
          || (has_signup && negb has_company) then
    routing AGENT_COMPANY
      "📋 Supervisor: Signup complete. Moving to company details..."
  else if Py.str_contains AGENT_KYC llm_decision
          || (has_company && negb has_kyc) then
    routing AGENT_KYC
      "📋 Supervisor: Company details complete. Starting KYC verification..."
  else if Py.str_contains AGENT_BANK llm_decision
          || (has_kyc && negb has_bank) then
    routing AGENT_BANK "📋 Supervisor: KYC complete. Collecting bank details..."
  else if Py.str_contains AGENT_COMPLETE llm_decision
          || (has_signup && has_company && has_kyc && has_bank) then
    routing AGENT_COMPLETE
      "✅ Supervisor: All steps complete! Finalizing onboarding..."
  else
    routing AGENT_END "✅ Supervisor: Onboarding completed successfully!".

(** What happened inside a stage node's [try]: the stage agent returned
    a result whose 'success' entry is [ok] for the data the LLM
    extracted, or an exception was raised. *)
Inductive StageAttempt : Type :=
| Processed (ok : bool) (extracted_data : gmap string pyval)
| Raised (msg : string).

Definition _signup_node (a : StageAttempt) (state : OnboardingState) : Update :=
  match a with
  | Processed ok extracted_data =>
      mkUpdate (Some "supervisor")
        (Some "Signup processing completed with LLM extraction")
        (Some ok) None None None (Some extracted_data) None None None None None
  | Raised msg =>
      mkUpdate (Some "supervisor") (Some ("Signup error: " +:+ msg))
        (Some false) None None None None None None None None None
  end.

Definition _company_node (a : StageAttempt) (state : OnboardingState) : Update :=
  match a with
  | Processed ok extracted_data =>
      mkUpdate (Some "supervisor")
        (Some "Company details processed with LLM extraction")
        None (Some ok) None None None (Some extracted_data) None None None None
  | Raised msg =>
      mkUpdate (Some "supervisor") (Some ("Company error: " +:+ msg))
        None (Some false) None None None None None None None None
  end.

Definition _kyc_node (a : StageAttempt) (state : OnboardingState) : Update :=
  match a with
  | Processed ok extracted_data =>
      mkUpdate (Some "supervisor") (Some "KYC processed with LLM extraction")
        None None (Some ok) None None None (Some extracted_data) None None None
  | Raised msg =>
      mkUpdate (Some "supervisor") (Some ("KYC error: " +:+ msg))
        None None (Some false) None None None None None None None
  end.

Definition _bank_node (a : StageAttempt) (state : OnboardingState) : Update :=
  match a with
  | Processed ok extracted_data =>
      mkUpdate (Some "supervisor")
        (Some "Bank details processed with LLM extraction")
        None None None (Some ok) None None None (Some extracted_data) None None
  | Raised msg =>
      mkUpdate (Some "supervisor") (Some ("Bank error: " +:+ msg))
        None None None (Some false) None None None None None None
  end.

(** The 'success' a stage node reads from its attempt. *)
Definition attempt_ok (a : StageAttempt) : bool :=
  match a with
  | Processed ok _ => ok
  | Raised _ => false
  end.

(** The attempt of the signup node: [process_signup] of the signup
    agent on the extracted data, with the session id of the state. *)
Definition signup_attempt (http : nat -> Api.HttpOutcome) (now : Z)
    (uuid : string) (extracted_data : gmap string pyval)
    (state : OnboardingState) : StageAttempt :=
  let result :=
    fst (SignupAgent.process_signup http now extracted_data
           (Some (session_id state)) uuid) in
  Processed (SignupAgent.success result) extracted_data.

(** [_complete_node]; [hex8] is [uuid.uuid4().hex[:8].upper()] and
    [stamp] the formatted time. *)
Definition _complete_node (hex8 stamp : string) (state : OnboardingState)
  : Update :=
  let onboarding_id := "ONB_" +:+ hex8 in
  let completion_message :=
    "🎉 ONBOARDING COMPLETED SUCCESSFULLY! Onboarding ID: " +:+ onboarding_id
    +:+ " Session ID: " +:+ session_id state +:+ " Completed: " +:+ stamp in
  mkUpdate (Some "end") (Some completion_message)
    None None None None None None None None (Some true) (Some onboarding_id).

(** [_router] *)
Definition _router (state : OnboardingState) : string :=
  let next_agent := default AGENT_SUPERVISOR (next_agent state) in
  if task_complete state then END else next_agent.

Inductive Node : Type :=
| n_supervisor | n_signup | n_company | n_kyc | n_bank | n_complete.

#[global] Instance Node_eq_dec : EqDecision Node.
Proof. solve_decision. Defined.

(** The mapping given to [add_conditional_edges] in [_build_graph]. *)
Definition path_map (key : string) : Graph.Route Node :=
  if String.eqb key "supervisor" then Graph.ToNode n_supervisor
  else if String.eqb key "signup" then Graph.ToNode n_signup
  else if String.eqb key "company" then Graph.ToNode n_company
  else if String.eqb key "kyc" then Graph.ToNode n_kyc
  else if String.eqb key "bank" then Graph.ToNode n_bank
  else if String.eqb key "complete" then Graph.ToNode n_complete
  else if String.eqb key END then Graph.ToEnd
  else Graph.NoRoute key.

(** What the outside world does at each transition of a run: the LLM's
    answer to the supervisor, the outcome of a stage's attempt, and the
    identifier and time drawn by the completion node. *)
Record Env : Type := mkEnv {
  llm : nat -> string;
  attempt : nat -> StageAttempt;
  hex8 : nat -> string;
  stamp : nat -> string
}.

Section Run.
Variable env : Env.

Definition node_fun (k : nat) (n : Node) : OnboardingState -> Update :=
  match n with
  | n_supervisor => _supervisor_agent (llm env k)
  | n_signup => _signup_node (attempt env k)
  | n_company => _company_node (attempt env k)
  | n_kyc => _kyc_node (attempt env k)
  | n_bank => _bank_node (attempt env k)
  | n_complete => _complete_node (hex8 env k) (stamp env k)
  end.

Definition exec (k : nat) (n : Node) (st : OnboardingState) : OnboardingState :=
  merge st (node_fun k n st).

Definition edge (_ : Node) (st : OnboardingState) : Graph.Route Node :=
  path_map (_router st).

Definition recursion_limit : nat := 50.

Definition initial_state (user_message session_id : string) : OnboardingState :=
  mkOnboardingState [user_message] (Some "supervisor")
    false false false false ∅ ∅ ∅ ∅ false None session_id None.

(** [self.graph.invoke(initial_state, {"recursion_limit": 50})] *)
Definition graph_invoke (st : OnboardingState) : Graph.Outcome OnboardingState :=
  Graph.invoke exec edge recursion_limit n_supervisor st.

(** The dict [process_onboarding] returns: the one of the [try], or
    the one of the [except]. *)
Inductive Response : Type :=
| Reply (message session_id status : string) (onboarding_id : option string)
    (signup_complete company_complete kyc_complete bank_complete : bool)
| Failure (message session_id status error : string).

Definition status_of (r : Response) : string :=
  match r with
  | Reply _ _ s _ _ _ _ _ => s
  | Failure _ _ s _ => s
  end.

Definition error_of (r : Response) : option string :=
  match r with
  | Reply _ _ _ _ _ _ _ _ => None
  | Failure _ _ _ e => Some e
  end.

(** [if not session_id: session_id = str(uuid.uuid4())] *)
Definition effective_session_id (session_id : option string) (uuid : string)
  : string :=
  match session_id with
  | Some s => if String.eqb s "" then uuid else s
  | None => uuid
  end.

(** The body of [process_onboarding] after the graph ran: the dict of
    the [try] when [invoke] returned, the one of the [except] when it
    raised. *)
Definition reply_of_outcome (sid : string) (o : Graph.Outcome OnboardingState)
  : Response :=
  match o with
  | Graph.Finished result _ =>
      Reply (default "Processing..." (current_task result)) sid
        (if task_complete result then STATUS_COMPLETED else STATUS_IN_PROGRESS)
        (onboarding_id result)
        (signup_complete result) (company_complete result)
        (kyc_complete result) (bank_complete result)
  | Graph.GraphRecursionError _ _ =>
      Failure MSG_ERROR sid STATUS_ERROR
        "Recursion limit of 50 reached without hitting a stop condition."
  | Graph.RouteError key _ =>
      Failure MSG_ERROR sid STATUS_ERROR key
  end.

Definition process_onboarding (user_message : string)
    (session_id : option string) (uuid : string) : Response :=
  let sid := effective_session_id session_id uuid in
  reply_of_outcome sid (graph_invoke (initial_state user_message sid)).
End Run.

(** The flag vector of a state. *)
Definition all_complete (st : OnboardingState) : bool :=
  signup_complete st && company_complete st && kyc_complete st && bank_complete st.

(** No configuration among the first [fuel] ones of the run from
    [(n, st)] has its four flags all complete. *)
Fixpoint never_all_complete (env : Env) (fuel k : nat) (n : Node)
    (st : OnboardingState) : bool :=
  match fuel with
  | O => true
  | S fuel' =>
      negb (all_complete st) &&
      let st' := exec env k n st in
      match edge n st' with
      | Graph.ToNode n' => never_all_complete env fuel' (S k) n' st'
      | _ => true
      end
  end.

(** The run of the graph as its nodes and its router define it, with no
    ceiling: a run is about to execute a node, or it has ended because
    the router returned END, or it is stuck on a key that is not in the
    mapping; [steps] counts the transitions made until then. *)
Inductive Config : Type :=
| Running (n : Node) (st : OnboardingState)
| Ended (st : OnboardingState) (steps : nat)
| Stuck (key : string) (steps : nat).

(** Transition number [k] (0-based). *)
Definition step (env : Env) (k : nat) (c : Config) : Config :=
  match c with
  | Running n st =>
      let st' := exec env k n st in
      match edge n st' with
      | Graph.ToNode n' => Running n' st'
      | Graph.ToEnd => Ended st' (S k)
      | Graph.NoRoute key => Stuck key (S k)
      end
  | _ => c
  end.

(** The configuration after [m] transitions of the run from [st0]. *)
Fixpoint config (env : Env) (st0 : OnboardingState) (m : nat) : Config :=
  match m with
  | O => Running n_supervisor st0
  | S m' => step env m' (config env st0 m')
  end.

(** What [invoke] returns or raises for a run that is in configuration
    [c] when [m] transitions have been made and no more are allowed. *)
Definition outcome_of (m : nat) (c : Config) : Graph.Outcome OnboardingState :=
  match c with
  | Running _ st => Graph.GraphRecursionError st m
  | Ended st steps => Graph.Finished st steps
  | Stuck key steps => Graph.RouteError key steps
  end.

(** Two worlds that do the same at the first [limit] transitions. *)
Definition agree (limit : nat) (env env' : Env) : Prop :=
  forall k, k < limit ->
    llm env k = llm env' k /\ attempt env k = attempt env' k
    /\ hex8 env k = hex8 env' k /\ stamp env k = stamp env' k.

(** The dict of the [except] branch of [process_onboarding] for the
    engine's recursion error. *)
Definition ceiling_reply (sid : string) : Response :=
  Failure MSG_ERROR sid STATUS_ERROR
    "Recursion limit of 50 reached without hitting a stop condition.".

(** The dict of the [try] branch for a run that ended in [result]. *)
Definition completed_reply (sid : string) (result : OnboardingState) : Response :=
  Reply (default "Processing..." (current_task result)) sid STATUS_COMPLETED
    (onboarding_id result)
    (signup_complete result) (company_complete result)
    (kyc_complete result) (bank_complete result).

(** The names the supervisor looks for in the LLM's answer. *)
Definition keywords : list string :=
  [AGENT_SIGNUP; AGENT_COMPANY; AGENT_KYC; AGENT_BANK; AGENT_COMPLETE].

(** Two answers mention the same agent names. *)
Definition same_keywords (l1 l2 : string) : bool :=
  forallb (fun kw => Bool.eqb (Py.str_contains kw (Py.lower l1))
                       (Py.str_contains kw (Py.lower l2))) keywords.

(** An answer mentions no agent name. *)
Definition no_keywords (l : string) : bool :=
  forallb (fun kw => negb (Py.str_contains kw (Py.lower l))) keywords.

(** The transition rule as the specification words it (section 4.4),
    up to the four stages and [complete]. *)
Definition spec_transition_rule (st : OnboardingState) : string :=
  if negb (signup_complete st) then "signup"
  else if negb (company_complete st) then "company"
  else if negb (kyc_complete st) then "kyc"
  else if negb (bank_complete st) then "bank"
  else "complete".

(** [first_incomplete st a]: [a] is the first stage of the order
    signup, company, kyc, bank that is not complete in [st] (every
    stage before it is complete, it is not), or [a] is "complete" and
    all four stages are. *)
Inductive first_incomplete (st : OnboardingState) : string -> Prop :=
| fi_signup :
    signup_complete st = false -> first_incomplete st "signup"
| fi_company :
    signup_complete st = true -> company_complete st = false ->
    first_incomplete st "company"
| fi_kyc :
    signup_complete st = true -> company_complete st = true ->
    kyc_complete st = false -> first_incomplete st "kyc"
| fi_bank :
    signup_complete st = true -> company_complete st = true ->
    kyc_complete st = true -> bank_complete st = false ->
    first_incomplete st "bank"
| fi_complete :
    signup_complete st = true -> company_complete st = true ->
    kyc_complete st = true -> bank_complete st = true ->
    first_incomplete st "complete".

Definition with_flags (s c k b : bool) : OnboardingState :=
  mkOnboardingState [] (Some "supervisor") s c k b ∅ ∅ ∅ ∅ false None "s1" None.

(** An environment in which every stage attempt fails and the LLM
    gives no answer. *)
Definition failing_env : Env :=
  mkEnv (fun _ => "") (fun _ => Processed false ∅) (fun _ => "0A1B2C3D")
    (fun _ => "2025-01-01 00:00:00").

End Supervisor.

(** ** graph_state.py *)

Module GraphState.

(** [migrate_state].  The dict is updated in place and returned; the
    value returned is the dict after the call. *)
Definition migrate_state (state_data : gmap string pyval) : gmap string pyval :=
  let version := default (PStr "1.0") (state_data !! "state_version") in
  if decide (version = PStr "1.0") then
    if decide (state_data !! "state_version" = None)
    then <["state_version" := PStr "1.0"]> state_data
    else state_data
  else state_data.

(** The branch [migrate_state] takes for a record of version [version]. *)
Definition migrate_from (version : pyval) (state_data : gmap string pyval)
  : gmap string pyval :=
  if decide (version = PStr "1.0") then
    if decide (state_data !! "state_version" = None)
    then <["state_version" := PStr "1.0"]> state_data
    else state_data
  else state_data.

Definition oldest_version : pyval := PStr "1.0".
Definition current_version : pyval := PStr "1.0".
Definition known_versions : list pyval := [PStr "1.0"].

End GraphState.

(** ** state_manager.py *)

Module StateManager.

(** A call either returns or lets an exception escape. *)
Inductive Result (A : Type) : Type :=
| Return (a : A)
| Raise (msg : string).
Arguments Return {A} a.
Arguments Raise {A} msg.

(** The class attributes [_pool], [_cache_enabled], [_pubsub_enabled]. *)
Record Manager : Type := mkManager {
  pool : bool;               (* _pool is not None *)
  _cache_enabled : bool;
  _pubsub_enabled : bool
}.

Definition uninitialized : Manager := mkManager false false false.

Inductive Probe : Type := Connected | NotConnected | ProbeRaises.

(** [initialize]; [pool_created] tells whether [asyncpg.create_pool]
    succeeded, [probe] what [redis_client.is_connected()] did. *)
Definition initialize (m : Manager) (pool_created enable_cache REDIS_AVAILABLE : bool)
    (probe : Probe) : Result Manager :=
  if pool m then Return m
  else if negb pool_created then Raise "Failed to create asyncpg connection pool"
  else
    let enabled := enable_cache && REDIS_AVAILABLE in
    if enabled then
      match probe with
      | Connected => Return (mkManager true true true)
      | NotConnected | ProbeRaises => Return (mkManager true false false)
      end
    else Return (mkManager true false false).

Definition not_initialized : string :=
  "StateManager not initialized. Call 'await StateManager.initialize()' first.".

(** *** The durable store *)

Record SessionRow : Type := mkSessionRow {
  cs_entity_id : pyval;
  cs_session_type : string;
  cs_updated_at : string
}.

Record StateRow : Type := mkStateRow {
  os_state_data : gmap string pyval;     (* the JSON text of the state *)
  os_current_step : pyval;
  os_status : pyval;
  os_updated_at : string
}.

(** A row of [entity_features].  The DDL is not among the sources: the
    completion columns of a fresh row are taken to be false, as the
    defaults of EntityFeaturesModel (graph_state.py) are. *)
Record EntityRow : Type := mkEntityRow {
  ef_id : string;
  ef_entity_id : option string;
  ef_user_email : option string;
  ef_user_phone : option string;
  ef_organization_name : option string;
  ef_created_at : string;
  ef_updated_at : string;
  signup_completed : bool;
  signup_completed_at : option string;
  kyc_completed : bool;
  kyc_completed_at : option string;
  kyc_data : option (gmap string pyval);
  business_details_completed : bool;
  business_details_completed_at : option string;
  business_data : option (gmap string pyval);
  bank_details_completed : bool;
  bank_details_completed_at : option string;
  bank_data : option (gmap string pyval);
  onboarding_completed : bool;
  onboarding_completed_at : option string
}.

Record Database : Type := mkDatabase {
  chat_sessions : gmap string SessionRow;
  onboarding_state : gmap string StateRow;
  entity_features : gmap string EntityRow
}.

Definition empty_db : Database := mkDatabase ∅ ∅ ∅.

Inductive Event : Type :=
| EvDurableWrite (session_id : string)
| EvCacheWrite (session_id : string) (ok : bool)
| EvPublish (session_id : string) (ok : bool).

(** The durable store, the cache, and the order in which the store's
    side effects happened. *)
Record World : Type := mkWorld {
  db : Database;
  cache : gmap string (gmap string pyval);
  published : list (string * string * pyval);
  trace : list Event
}.

Definition empty_world : World := mkWorld empty_db ∅ [] [].

(** *** Transactions

    A transaction body threads the database and the number of
    operations done so far; [None] is an exception, which rolls the
    transaction back.  [fault = Some i] makes operation [i] (0-based:
    acquiring the connection is operation 0) raise. *)
Section Tx.
Variable fault : option nat.

Definition Tx (A : Type) : Type := Database -> nat -> option (A * Database * nat).

Definition ret {A} (a : A) : Tx A := fun d n => Some (a, d, n).

Definition bind {A B} (m : Tx A) (f : A -> Tx B) : Tx B :=
  fun d n =>
    match m d n with
    | Some (a, d', n') => f a d' n'
    | None => None
    end.

Definition db_op {A} (f : Database -> A * Database) : Tx A :=
  fun d n =>
    if decide (fault = Some n) then None
    else let '(a, d') := f d in Some (a, d', S n).

Definition acquire : Tx unit := db_op (fun d => (tt, d)).
Definition commit : Tx unit := db_op (fun d => (tt, d)).

(** [async with pool.acquire() ... conn.transaction()]: all of the
    body's writes, or none of them. *)
Definition transaction {A} (body : Tx A) (d : Database) : option A * Database :=
  match bind acquire (fun _ => bind body (fun a => bind commit (fun _ => ret a))) d 0 with
  | Some (a, d', _) => (Some a, d')
  | None => (None, d)
  end.
End Tx.

Notation "'do' x <- m ; k" := (bind m (fun x => k))
  (at level 10, x name, m at level 100, k at level 200).
Notation "m ;;; k" := (bind m (fun _ => k))
  (at level 100, k at level 200, right associativity).

(** What can go wrong during one call of the store. *)
Record Faults : Type := mkFaults {
  db_fault : option nat;
  cache_read_fault : bool;
  cache_write_fault : bool;
  pubsub_fault : bool
}.

Definition no_faults : Faults := mkFaults None false false false.

Definition cache_key (session_id : string) : string := "session:" +:+ session_id.

(** *** save_state *)

(** The in-place updates of the state dict before it is written. *)
Definition stamp_state (now_created now_updated : string) (state : gmap string pyval)
  : gmap string pyval :=
  let s1 :=
    if decide (state !! "state_version" = None)
    then <["state_version" := PStr "1.0"]> state else state in
  let s2 :=
    if decide (s1 !! "created_at" = None)
    then <["created_at" := PStr now_created]> s1 else s1 in
  <["updated_at" := PStr now_updated]> s2.

Definition upsert_session (now : string) (session_id : string)
    (state : gmap string pyval) (d : Database) : unit * Database :=
  (tt, mkDatabase
         (<[session_id := mkSessionRow (Py.dict_get state "entity_id") "onboarding" now]>
            (chat_sessions d))
         (onboarding_state d) (entity_features d)).

Definition upsert_state (now : string) (session_id : string)
    (state : gmap string pyval) (d : Database) : unit * Database :=
  (tt, mkDatabase (chat_sessions d)
         (<[session_id :=
              mkStateRow state (Py.dict_get state "current_step")
                (default (PStr "active") (state !! "status")) now]>
            (onboarding_state d))
         (entity_features d)).

Definition best_effort_cache (m : Manager) (f : Faults) (session_id : string)
    (state : gmap string pyval) (w : World) : World :=
  if _cache_enabled m then
    if cache_write_fault f
    then mkWorld (db w) (cache w) (published w)
           (trace w ++ [EvCacheWrite session_id false])
    else mkWorld (db w) (<[cache_key session_id := state]> (cache w)) (published w)
           (trace w ++ [EvCacheWrite session_id true])
  else w.

Definition best_effort_publish (m : Manager) (f : Faults) (session_id : string)
    (state : gmap string pyval) (w : World) : World :=
  if _pubsub_enabled m then
    if pubsub_fault f
    then mkWorld (db w) (cache w) (published w)
           (trace w ++ [EvPublish session_id false])
    else mkWorld (db w) (cache w)
           (published w ++ [(session_id, "state_saved", Py.dict_get state "current_step")])
           (trace w ++ [EvPublish session_id true])
  else w.

(** [save_state]: the value returned (or the exception), the state dict
    after its in-place updates, and the world afterwards. *)
Definition save_state (m : Manager) (f : Faults) (now : string)
    (session_id : string) (state : gmap string pyval) (w : World)
  : Result bool * gmap string pyval * World :=
  if negb (pool m) then (Raise not_initialized, state, w)
  else
    let state' := stamp_state now now state in
    match transaction (db_fault f)
            (db_op (db_fault f) (upsert_session now session_id state') ;;;
             db_op (db_fault f) (upsert_state now session_id state'))
            (db w) with
    | (Some _, d') =>
        let w1 := mkWorld d' (cache w) (published w)
                    (trace w ++ [EvDurableWrite session_id]) in
        let w2 := best_effort_cache m f session_id state' w1 in
        let w3 := best_effort_publish m f session_id state' w2 in
        (Return true, state', w3)
    | (None, _) => (Return false, state', w)
    end.

(** *** load_state *)

Definition default_state (now : string) (session_id : string) : gmap string pyval :=
  <["state_version" := PStr "1.0"]>
    (<["session_id" := PStr session_id]>
       (<["current_step" := PStr "welcome"]>
          (<["status" := PStr "active"]>
             (<["created_at" := PStr now]>
                (<["updated_at" := PStr now]> ∅))))).

Definition fetch_state (session_id : string) (d : Database)
  : option StateRow * Database :=
  (onboarding_state d !! session_id, d).

(** A dict is truthy when it is not empty. *)
Definition dict_truthy (d : gmap string pyval) : bool :=
  negb (bool_decide (d = ∅)).

Definition load_from_db (m : Manager) (f : Faults) (now : string)
    (session_id : string) (w : World) : Result (gmap string pyval) * World :=
  match (acquire (db_fault f) ;;; db_op (db_fault f) (fetch_state session_id))
          (db w) 0 with
  | Some (Some row, _, _) =>
      let state_data := GraphState.migrate_state (os_state_data row) in
      (Return state_data,
       if _cache_enabled m then
         if cache_write_fault f then w
         else mkWorld (db w) (<[cache_key session_id := state_data]> (cache w))
                (published w) (trace w)
       else w)
  | Some (None, _, _) => (Return (default_state now session_id), w)
  | None => (Return (default_state now session_id), w)     (* except Exception *)
  end.

Definition load_state (m : Manager) (f : Faults) (now : string)
    (session_id : string) (w : World) : Result (gmap string pyval) * World :=
  if negb (pool m) then (Raise not_initialized, w)
  else if _cache_enabled m && negb (cache_read_fault f) then
    match cache w !! cache_key session_id with
    | Some cached_state =>
        if dict_truthy cached_state
        then (Return (GraphState.migrate_state cached_state), w)
        else load_from_db m f now session_id w
    | None => load_from_db m f now session_id w
    end
  else load_from_db m f now session_id w.

(** *** save_entity_feature *)

Inductive Feature : Type :=
| f_signup | f_kyc | f_business_details | f_bank_details.

(** The keys of [feature_map]. *)
Definition feature_map (feature : string) : option Feature :=
  if String.eqb feature "signup" then Some f_signup
  else if String.eqb feature "kyc" then Some f_kyc
  else if String.eqb feature "business_details" then Some f_business_details
  else if String.eqb feature "bank_details" then Some f_bank_details
  else None.

(** The third component of a [feature_map] entry is None for signup. *)
Definition has_data_col (ft : Feature) : bool :=
  match ft with f_signup => false | _ => true end.

Definition str_truthy (o : option string) : bool :=
  match o with
  | Some s => negb (String.eqb s "")
  | None => false
  end.

Definition data_truthy (o : option (gmap string pyval)) : bool :=
  match o with
  | Some d => dict_truthy d
  | None => false
  end.

Definition new_row (record_id : string)
    (entity_id user_email user_phone organization_name : option string)
    (now : string) : EntityRow :=
  mkEntityRow record_id entity_id user_email user_phone organization_name now now
    false None false None None false None None false None None false None.

Definition provided (new old : option string) : option string :=
  if str_truthy new then new else old.

(** [UPDATE entity_features SET <the fields provided>, updated_at = now] *)
Definition set_fields (entity_id user_email user_phone organization_name : option string)
    (now : string) (r : EntityRow) : EntityRow :=
  mkEntityRow (ef_id r)
    (provided entity_id (ef_entity_id r)) (provided user_email (ef_user_email r))
    (provided user_phone (ef_user_phone r))
    (provided organization_name (ef_organization_name r))
    (ef_created_at r) now
    (signup_completed r) (signup_completed_at r)
    (kyc_completed r) (kyc_completed_at r) (kyc_data r)
    (business_details_completed r) (business_details_completed_at r) (business_data r)
    (bank_details_completed r) (bank_details_completed_at r) (bank_data r)
    (onboarding_completed r) (onboarding_completed_at r).

(** [UPDATE entity_features SET <completed_col> = TRUE, <timestamp_col>
    = now (, <data_col> = data), updated_at = now] *)
Definition mark_completed (ft : Feature) (data : option (gmap string pyval))
    (now : string) (r : EntityRow) : EntityRow :=
  let keep (old : option (gmap string pyval)) :=
    match data with Some _ => data | None => old end in
  match ft with
  | f_signup =>
      mkEntityRow (ef_id r) (ef_entity_id r) (ef_user_email r) (ef_user_phone r)
        (ef_organization_name r) (ef_created_at r) now
        true (Some now)
        (kyc_completed r) (kyc_completed_at r) (kyc_data r)
        (business_details_completed r) (business_details_completed_at r) (business_data r)
        (bank_details_completed r) (bank_details_completed_at r) (bank_data r)
        (onboarding_completed r) (onboarding_completed_at r)
  | f_kyc =>
      mkEntityRow (ef_id r) (ef_entity_id r) (ef_user_email r) (ef_user_phone r)
        (ef_organization_name r) (ef_created_at r) now
        (signup_completed r) (signup_completed_at r)
        true (Some now) (keep (kyc_data r))
        (business_details_completed r) (business_details_completed_at r) (business_data r)
        (bank_details_completed r) (bank_details_completed_at r) (bank_data r)
        (onboarding_completed r) (onboarding_completed_at r)
  | f_business_details =>
      mkEntityRow (ef_id r) (ef_entity_id r) (ef_user_email r) (ef_user_phone r)
        (ef_organization_name r) (ef_created_at r) now
        (signup_completed r) (signup_completed_at r)
        (kyc_completed r) (kyc_completed_at r) (kyc_data r)
        true (Some now) (keep (business_data r))
        (bank_details_completed r) (bank_details_completed_at r) (bank_data r)
        (onboarding_completed r) (onboarding_completed_at r)
  | f_bank_details =>
      mkEntityRow (ef_id r) (ef_entity_id r) (ef_user_email r) (ef_user_phone r)
        (ef_organization_name r) (ef_created_at r) now
        (signup_completed r) (signup_completed_at r)
        (kyc_completed r) (kyc_completed_at r) (kyc_data r)
        (business_details_completed r) (business_details_completed_at r) (business_data r)
        true (Some now) (keep (bank_data r))
        (onboarding_completed r) (onboarding_completed_at r)
  end.

(** [UPDATE entity_features SET onboarding_completed = TRUE, ...] *)
Definition mark_onboarding (now : string) (r : EntityRow) : EntityRow :=
  mkEntityRow (ef_id r) (ef_entity_id r) (ef_user_email r) (ef_user_phone r)
    (ef_organization_name r) (ef_created_at r) now
    (signup_completed r) (signup_completed_at r)
    (kyc_completed r) (kyc_completed_at r) (kyc_data r)
    (business_details_completed r) (business_details_completed_at r) (business_data r)
    (bank_details_completed r) (bank_details_completed_at r) (bank_data r)
    true (Some now).

Definition all_features_completed (r : EntityRow) : bool :=
  signup_completed r && kyc_completed r
  && business_details_completed r && bank_details_completed r.

Definition fetch_features (session_id : string) (d : Database)
  : option EntityRow * Database :=
  (entity_features d !! session_id, d).

Definition insert_features (session_id : string) (r : EntityRow) (d : Database)
  : unit * Database :=
  (tt, mkDatabase (chat_sessions d) (onboarding_state d)
         (<[session_id := r]> (entity_features d))).

(** [UPDATE entity_features SET ... WHERE session_id = $n] *)
Definition update_features (session_id : string) (upd : EntityRow -> EntityRow)
    (d : Database) : unit * Database :=
  (tt, mkDatabase (chat_sessions d) (onboarding_state d)
         (alter upd session_id (entity_features d))).

(** The body of the transaction of [save_entity_feature]. *)
Definition save_entity_feature_body (fault : option nat) (now uuid : string)
    (session_id : string)
    (entity_id user_email user_phone organization_name feature : option string)
    (feature_data : option (gmap string pyval)) : Tx unit :=
  do existing <- db_op fault (fetch_features session_id);
  (match existing with
   | None =>
       db_op fault
         (insert_features session_id
            (new_row uuid entity_id user_email user_phone organization_name now))
   | Some _ =>
       if str_truthy entity_id || str_truthy user_email
          || str_truthy user_phone || str_truthy organization_name
       then db_op fault
              (update_features session_id
                 (set_fields entity_id user_email user_phone organization_name now))
       else ret tt
   end) ;;;
  (if str_truthy feature then
     match feature_map (default "" feature) with
     | Some ft =>
         if has_data_col ft && data_truthy feature_data
         then db_op fault (update_features session_id (mark_completed ft feature_data now))
         else db_op fault (update_features session_id (mark_completed ft None now))
     | None => ret tt
     end
   else ret tt) ;;;
  do result <- db_op fault (fetch_features session_id);
  match result with
  | Some r =>
      if all_features_completed r
      then db_op fault (update_features session_id (mark_onboarding now))
      else ret tt
  | None => ret tt
  end.

Definition save_entity_feature (m : Manager) (f : Faults) (now uuid : string)
    (session_id : string)
    (entity_id user_email user_phone organization_name feature : option string)
    (feature_data : option (gmap string pyval)) (w : World)
  : Result bool * World :=
  if negb (pool m) then (Raise not_initialized, w)
  else
    match transaction (db_fault f)
            (save_entity_feature_body (db_fault f) now uuid session_id
               entity_id user_email user_phone organization_name feature feature_data)
            (db w) with
    | (Some _, d') => (Return true, mkWorld d' (cache w) (published w) (trace w))
    | (None, _) => (Return false, w)
    end.

(** *** get_entity_features *)

Record StageStatus : Type := mkStageStatus {
  completed : bool;
  completed_at : option string;
  data : option (gmap string pyval)
}.

Record EntityFeatures : Type := mkEntityFeatures {
  gf_entity_id : option string;
  gf_user_email : option string;
  gf_user_phone : option string;
  gf_organization_name : option string;
  gf_signup : StageStatus;
  gf_kyc : StageStatus;
  gf_business_details : StageStatus;
  gf_bank_details : StageStatus;
  gf_onboarding_completed : bool;
  gf_onboarding_completed_at : option string
}.

Definition features_of_row (r : EntityRow) : EntityFeatures :=
  mkEntityFeatures (ef_entity_id r) (ef_user_email r) (ef_user_phone r)
    (ef_organization_name r)
    (mkStageStatus (signup_completed r) (signup_completed_at r) None)
    (mkStageStatus (kyc_completed r) (kyc_completed_at r) (kyc_data r))
    (mkStageStatus (business_details_completed r)
       (business_details_completed_at r) (business_data r))
    (mkStageStatus (bank_details_completed r) (bank_details_completed_at r)
       (bank_data r))
    (onboarding_completed r) (onboarding_completed_at r).

Definition no_features : EntityFeatures :=
  mkEntityFeatures None None None None
    (mkStageStatus false None None) (mkStageStatus false None None)
    (mkStageStatus false None None) (mkStageStatus false None None)
    false None.

(** [get_entity_features]: the dict of features, or [None] for the
    empty dict returned when the read raised. *)
Definition get_entity_features (m : Manager) (f : Faults) (session_id : string)
    (w : World) : Result (option EntityFeatures) :=
  if negb (pool m) then Raise not_initialized
  else
    match (acquire (db_fault f) ;;; db_op (db_fault f) (fetch_features session_id))
            (db w) 0 with
    | Some (Some r, _, _) => Return (Some (features_of_row r))
    | Some (None, _, _) => Return (Some no_features)
    | None => Return None
    end.

(** The worlds the store can be in: it starts empty, and every call of
    [save_state], [load_state] and [save_entity_feature] moves it on,
    whatever the arguments and whatever fails. *)
Inductive reachable : World -> Prop :=
| reach_start : reachable empty_world
| reach_save_state m f now sid state w :
    reachable w -> reachable (snd (save_state m f now sid state w))
| reach_load_state m f now sid w :
    reachable w -> reachable (snd (load_state m f now sid w))
| reach_save_entity_feature m f now uuid sid eid email phone org feature fdata w :
    reachable w ->
    reachable (snd (save_entity_feature m f now uuid sid eid email phone org
                      feature fdata w)).

(** *** Vocabulary of the store's properties *)

(** [save_state] performs four operations on the durable store
    (acquire, two upserts, commit); the durable write fails when the
    fault hits one of them. *)
Definition durable_write_fails (f : Faults) : bool :=
  match db_fault f with
  | Some i => (i <? 4)%nat
  | None => false
  end.

(** [load_state] performs two (acquire, fetch). *)
Definition durable_read_fails (f : Faults) : bool :=
  match db_fault f with
  | Some i => (i <? 2)%nat
  | None => false
  end.

(** [load_state] answers from the cache. *)
Definition cache_hit (m : Manager) (f : Faults) (session_id : string) (w : World)
  : bool :=
  _cache_enabled m && negb (cache_read_fault f)
  && match cache w !! cache_key session_id with
     | Some cached_state => dict_truthy cached_state
     | None => false
     end.

Definition best_effort (e : Event) : bool :=
  match e with
  | EvDurableWrite _ => false
  | EvCacheWrite _ _ | EvPublish _ _ => true
  end.

(** No completion flag that is set in [r] is cleared in [r']. *)
Definition flags_kept (r r' : EntityRow) : Prop :=
  (signup_completed r = true -> signup_completed r' = true)
  /\ (kyc_completed r = true -> kyc_completed r' = true)
  /\ (business_details_completed r = true -> business_details_completed r' = true)
  /\ (bank_details_completed r = true -> bank_details_completed r' = true)
  /\ (onboarding_completed r = true -> onboarding_completed r' = true).

(** [onboarding_completed] is exactly the conjunction of the four
    stage flags, in every row. *)
Definition features_consistent (d : Database) : Prop :=
  forall sid r, entity_features d !! sid = Some r ->
    onboarding_completed r = all_features_completed r.

(** Every row of [d0] is still there in [d], with no flag cleared. *)
Definition flags_monotone (d0 d : Database) : Prop :=
  forall sid r, entity_features d0 !! sid = Some r ->
    exists r', entity_features d !! sid = Some r' /\ flags_kept r r'.

(** All rows but the one of [sid] are consistent, and in that one
    [onboarding_completed] is set only when the four flags are. *)
Definition consistent_but (sid : string) (d : Database) : Prop :=
  (forall sid' r, sid' <> sid -> entity_features d !! sid' = Some r ->
     onboarding_completed r = all_features_completed r)
  /\ (forall r, entity_features d !! sid = Some r ->
        onboarding_completed r = true -> all_features_completed r = true).

(** Partial correctness of a transaction body: when it runs to its end
    from a database satisfying [P], result and database satisfy [Q]. *)
Definition triple {A} (P : Database -> Prop) (m : Tx A)
    (Q : A -> Database -> Prop) : Prop :=
  forall d n a d' n', P d -> m d n = Some (a, d', n') -> Q a d'.

End StateManager.

(** ** Inputs used in the scenarios *)

Module Examples.

Definition signup_form (name email phone : string) : gmap string pyval :=
  <["name" := PStr name]> (<["email" := PStr email]> (<["phone" := PStr phone]> ∅)).

(** The signup input of the specification's validation scenario. *)
Definition bad_signup : gmap string pyval := signup_form "A" "bad-email" "123".

Definition valid_signup : gmap string pyval :=
  signup_form "Jane Doe" "jane@example.com" "1234567890".

Definition other_valid_signup : gmap string pyval :=
  signup_form "John Roe" "john@example.org" "+1 (555) 010-9999".

(** External services that always fail in one way. *)
Definition always_404 (_ : nat) : Api.HttpOutcome :=
  Api.HttpStatusError 404 "404 Client Error: Not Found".
Definition never_entity_id (_ : nat) : Api.HttpOutcome := Api.Responded PNone.
Definition always_timeout (_ : nat) : Api.HttpOutcome := Api.Timeout.
Definition always_ok (_ : nat) : Api.HttpOutcome := Api.Responded (PStr "ENT123456").

(** A session in the middle of onboarding. *)
Definition kyc_state : gmap string pyval :=
  <["session_id" := PStr "s1"]>
    (<["current_step" := PStr "kyc"]> (<["status" := PStr "active"]> ∅)).

Definition ready : StateManager.Manager := StateManager.mkManager true false false.
Definition ready_with_cache : StateManager.Manager :=
  StateManager.mkManager true true true.

(** The durable store fails on the fetch. *)
Definition db_down : StateManager.Faults :=
  StateManager.mkFaults (Some 1) false false false.

(** The four features saved one after the other for session "s1". *)
Definition save_feature (feature : string) (w : StateManager.World)
  : StateManager.World :=
  snd (StateManager.save_entity_feature ready StateManager.no_faults "t1" "row-1"
         "s1" (Some "ENT123456") None None None (Some feature) None w).

Definition three_features : StateManager.World :=
  save_feature "business_details"
    (save_feature "kyc" (save_feature "signup" StateManager.empty_world)).

Definition four_features : StateManager.World :=
  save_feature "bank_details" three_features.

(** A graph state in which signup is complete. *)
Definition signed_up : Supervisor.OnboardingState :=
  Supervisor.with_flags true false false false.

(** Records at the current version, and at a version the code does
    not know. *)
Definition current_record : gmap string pyval :=
  <["state_version" := PStr "1.0"]> kyc_state.
Definition unknown_record : gmap string pyval :=
  <["state_version" := PStr "7.3"]> kyc_state.

End Examples.

(** ** More string primitives and regular-expression semantics *)

Module PyStr.

(** Every character of [s] satisfies [p]. *)
Fixpoint all_chars (p : ascii -> bool) (s : string) : bool :=
  match s with
  | EmptyString => true
  | String c rest => p c && all_chars p rest
  end.

(** [s.replace(c, '')] for a one-character [c]. *)
Definition remove_char (c : ascii) (s : string) : string :=
  Py.str_filter (fun x => negb (Ascii.eqb x c)) s.

Definition newline : ascii := ascii_of_nat 10.

(** [s] without its last character, when that is a newline. *)
Fixpoint chomp (s : string) : option string :=
  match s with
  | EmptyString => None
  | String c EmptyString => if Ascii.eqb c newline then Some EmptyString else None
  | String c rest =>
      match chomp rest with
      | Some r => Some (String c r)
      | None => None
      end
  end.

(** [bool(re.match('^' r '$', s))]: without MULTILINE, [$] matches at the
    end of the text and also just before a newline that ends it. *)
Definition match_anchored (r : Re.re) (s : string) : bool :=
  Re.fullmatch r s
  || match chomp s with
     | Some t => Re.fullmatch r t
     | None => false
     end.

(** [r{n}] *)
Fixpoint rep (n : nat) (r : Re.re) : Re.re :=
  match n with
  | O => Re.Eps
  | S n' => Re.Seq r (rep n' r)
  end.

End PyStr.

Module ReSem.

(** The language of a regular expression. *)
Inductive matches : Re.re -> string -> Prop :=
| m_eps : matches Re.Eps ""
| m_class p c : p c = true -> matches (Re.Class p) (String c "")
| m_seq r1 r2 s1 s2 :
    matches r1 s1 -> matches r2 s2 -> matches (Re.Seq r1 r2) (s1 +:+ s2)
| m_alt_l r1 r2 s : matches r1 s -> matches (Re.Alt r1 r2) s
| m_alt_r r1 r2 s : matches r2 s -> matches (Re.Alt r1 r2) s
| m_star_nil r : matches (Re.Star r) ""
| m_star_cons r s1 s2 :
    matches r s1 -> matches (Re.Star r) s2 -> matches (Re.Star r) (s1 +:+ s2).

End ReSem.

(** ** The character classes of the email pattern *)

Module EmailChars.

(** [[a-zA-Z0-9._%+-]] *)
Definition local_char (c : ascii) : bool :=
  Py.is_alpha c || Py.is_digit c || Re.one_of "._%+-" c.

(** [[a-zA-Z0-9.-]] *)
Definition domain_char (c : ascii) : bool :=
  Py.is_alpha c || Py.is_digit c || Re.one_of ".-" c.

(** local@domain.tld *)
Definition address (local domain tld : string) : string :=
  local +:+ "@" +:+ domain +:+ "." +:+ tld.

Definition bool_to_nat (b : bool) : nat := if b then 0 else 1.

End EmailChars.

(** ** What a run of the API graph does to the outside world *)

Module ApiLog.

(** The requests and sleeps of the loop call_api / handle_retry entered
    with request number [i], retry count [r] and [budget] attempts
    left. *)
Fixpoint events_from (http : nat -> Api.HttpOutcome) (i r budget : nat)
  : list Api.Event :=
  match budget with
  | O => []
  | S b =>
      Api.EvPost (http i)
      :: (if Api.is_failure (http i)
          then Api.EvSleep (2 ^ r) :: events_from http (S i) (S r) b
          else [])
  end.

(** Seconds slept, and requests that failed. *)
Fixpoint sleep_total (l : list Api.Event) : nat :=
  match l with
  | [] => 0
  | Api.EvSleep t :: rest => t + sleep_total rest
  | Api.EvPost _ :: rest => sleep_total rest
  end.

Fixpoint failed_posts (l : list Api.Event) : nat :=
  match l with
  | [] => 0
  | Api.EvPost o :: rest =>
      (if Api.is_failure o then 1 else 0) + failed_posts rest
  | Api.EvSleep _ :: rest => failed_posts rest
  end.

Fixpoint posts_of (l : list Api.Event) : list Api.HttpOutcome :=
  match l with
  | [] => []
  | Api.EvPost o :: rest => o :: posts_of rest
  | Api.EvSleep _ :: rest => posts_of rest
  end.

End ApiLog.

(** ** _call_llm (supervised_onboarding_with_llm.py) *)

Module Llm.

(** What [self.model.generate_content(...)] followed by
    [response.text.strip()] does on one attempt: a text, or an
    exception. *)
Inductive Outcome : Type :=
| Text (text : string)
| Failed (msg : string).

Definition is_failed (o : Outcome) : bool :=
  match o with Text _ => false | Failed _ => true end.

Inductive Event : Type :=
| EvGenerate (o : Outcome)
| EvBackoff (seconds : nat).

Definition LLM_MAX_RETRIES : nat := 3.

(** The iterations [attempt], [attempt + 1], ... of the [for] loop, of
    which [remaining] are left.  The value is None when the loop runs
    out (the function then falls off its end). *)
Fixpoint call_llm_from (model : nat -> Outcome) (max_retries attempt remaining : nat)
  : option string * list Event :=
  match remaining with
  | O => (None, [])
  | S rem =>
      match model attempt with
      | Text t => (Some (Py.strip t), [EvGenerate (Text t)])
      | Failed msg =>
          if (attempt <? max_retries - 1)%nat then
            let '(r, evs) := call_llm_from model max_retries (S attempt) rem in
            (r, EvGenerate (Failed msg) :: EvBackoff (2 ^ attempt) :: evs)
          else (Some "", [EvGenerate (Failed msg)])
      end
  end.

(** [_call_llm]; [model i] is what the [i]-th call of the model does. *)
Definition _call_llm (model : nat -> Outcome) (max_retries : nat)
  : option string * list Event :=
  call_llm_from model max_retries 0 max_retries.

Fixpoint generations (l : list Event) : nat :=
  match l with
  | [] => 0
  | EvGenerate _ :: rest => S (generations rest)
  | EvBackoff _ :: rest => generations rest
  end.

Fixpoint backoff_total (l : list Event) : nat :=
  match l with
  | [] => 0
  | EvGenerate _ :: rest => backoff_total rest
  | EvBackoff t :: rest => t + backoff_total rest
  end.

End Llm.

(** ** Vocabulary for whole runs of the onboarding graph *)

Module RunSpec.
Import Supervisor.

(** The node the flag-derived rule leads to. *)
Definition next_node (st : OnboardingState) : Node :=
  if negb (signup_complete st) then n_signup
  else if negb (company_complete st) then n_company
  else if negb (kyc_complete st) then n_kyc
  else if negb (bank_complete st) then n_bank
  else n_complete.

Definition flags (st : OnboardingState) : bool * bool * bool * bool :=
  (signup_complete st, company_complete st, kyc_complete st, bank_complete st).

(** The number of stages that are complete. *)
Definition stages_done (st : OnboardingState) : nat :=
  Nat.b2n (signup_complete st) + Nat.b2n (company_complete st)
  + Nat.b2n (kyc_complete st) + Nat.b2n (bank_complete st).

(** The number of successful attempts among the [m] stage attempts made
    at the transitions [k + 1], [k + 3], ..., [k + 2 * m - 1]. *)
Fixpoint oks (env : Env) (k m : nat) : nat :=
  match m with
  | O => 0
  | S m' => Nat.b2n (attempt_ok (attempt env (S k))) + oks env (S (S k)) m'
  end.

(** What a caller can read off a reply. *)
Definition reply_well_formed (r : Response) : Prop :=
  match r with
  | Reply _ _ status oid s c k b =>
      status = STATUS_COMPLETED /\ is_Some oid
      /\ s = true /\ c = true /\ k = true /\ b = true
  | Failure _ _ status _ => status = STATUS_ERROR
  end.

End RunSpec.

(** ** Text outside ASCII

    A Python [str] is a sequence of code points; a [string] here is its
    UTF-8 encoding.  [in], [replace] of an ASCII character and the
    patterns whose classes are written out work on the encoding as they
    do on the text.  [len], [strip], [split], [isdigit], [isalnum] and
    the class [\d] of a pattern go by characters, and by what the
    Unicode character database of the interpreter says of them. *)

Module Unicode.

(** A continuation byte, 10xxxxxx. *)
Definition is_continuation (c : ascii) : bool :=
  let n := nat_of_ascii c in (128 <=? n)%nat && (n <? 192)%nat.

Definition continues (s : string) : bool :=
  match s with
  | String c _ => is_continuation c
  | EmptyString => false
  end.

(** The characters of a text, each in its encoding: a byte and the
    continuation bytes that follow it. *)
Fixpoint chars (s : string) : list string :=
  match s with
  | EmptyString => []
  | String c rest =>
      if continues rest
      then match chars rest with
           | ch :: more => String c ch :: more
           | [] => [String c ""]
           end
      else String c "" :: chars rest
  end.

(** The bits of the code point that the first byte carries: all seven
    of 0xxxxxxx, and the low five, four and three of 110xxxxx, 1110xxxx
    and 11110xxx. *)
Definition lead_bits (c : ascii) : N :=
  let n := N_of_ascii c in
  if (n <? 128)%N then n
  else if (n <? 224)%N then (n mod 32)%N
  else if (n <? 240)%N then (n mod 16)%N
  else (n mod 8)%N.

(** Six more bits from each continuation byte. *)
Fixpoint shift_in (acc : N) (s : string) : N :=
  match s with
  | EmptyString => acc
  | String c rest => shift_in (acc * 64 + N_of_ascii c mod 64)%N rest
  end.

(** The code point a character encodes. *)
Definition codepoint (ch : string) : N :=
  match ch with
  | EmptyString => 0%N
  | String c rest => shift_in (lead_bits c) rest
  end.

Definition codepoints (s : string) : list N := map codepoint (chars s).

(** [len(s)] *)
Definition len (s : string) : nat := length (chars s).

(** What Python takes from the Unicode character database about a code
    point: [str.isspace] (the characters that [strip] and [split]
    remove), [str.isdecimal] (category Nd, the class [\d] of a [str]
    pattern), [str.isdigit] and [str.isalnum]. *)
Class Database : Type := {
  space : N -> bool;
  decimal : N -> bool;
  digit : N -> bool;
  alnum : N -> bool
}.

Section Text.
Context {U : Database}.

Definition is_space (ch : string) : bool := space (codepoint ch).

(** [s.isdigit()] and [s.isalnum()]: not empty, and every character of
    the class. *)
Definition isdigit (s : string) : bool :=
  negb (String.eqb s "") && forallb digit (codepoints s).

Definition isalnum (s : string) : bool :=
  negb (String.eqb s "") && forallb alnum (codepoints s).

Fixpoint lstrip (cs : list string) : list string :=
  match cs with
  | [] => []
  | ch :: rest => if is_space ch then lstrip rest else cs
  end.

Definition rstrip (cs : list string) : list string := rev (lstrip (rev cs)).

(** [s.strip()] *)
Definition strip (s : string) : string :=
  String.concat "" (rstrip (lstrip (chars s))).

(** [s.split()]: the maximal runs of characters that are not white
    space; [word] is the run being read. *)
Fixpoint split_from (word : string) (cs : list string) : list string :=
  match cs with
  | [] => if String.eqb word "" then [] else [word]
  | ch :: rest =>
      if is_space ch
      then if String.eqb word "" then split_from "" rest
           else word :: split_from "" rest
      else split_from (word +:+ ch) rest
  end.

Definition split (s : string) : list string := split_from "" (chars s).
End Text.

Definition between (lo hi c : N) : bool := (lo <=? c)%N && (c <=? hi)%N.

(** An excerpt of the database, for the examples: Basic Latin and
    Latin-1, the Arabic-Indic and the Devanagari digits, the CJK
    ideographs U+4E00 to U+9FA5, and all of the white space characters.
    A code point outside these ranges is in no class here. *)
Definition excerpt_space (c : N) : bool :=
  between 9 13 c || between 28 32 c || N.eqb c 0x85 || N.eqb c 0xA0
  || N.eqb c 0x1680 || between 0x2000 0x200A c || between 0x2028 0x2029 c
  || N.eqb c 0x202F || N.eqb c 0x205F || N.eqb c 0x3000.

Definition excerpt_decimal (c : N) : bool :=
  between 48 57 c || between 0x660 0x669 c || between 0x966 0x96F c.

Definition excerpt_digit (c : N) : bool :=
  excerpt_decimal c || between 0xB2 0xB3 c || N.eqb c 0xB9.

Definition excerpt_alnum (c : N) : bool :=
  excerpt_digit c || between 65 90 c || between 97 122 c
  || N.eqb c 0xAA || N.eqb c 0xB5 || N.eqb c 0xBA || between 0xBC 0xBE c
  || between 0xC0 0xD6 c || between 0xD8 0xF6 c || between 0xF8 0xFF c
  || between 0x4E00 0x9FA5 c.

Definition excerpt : Database :=
  {| space := excerpt_space; decimal := excerpt_decimal;
     digit := excerpt_digit; alnum := excerpt_alnum |}.

End Unicode.

(** ** Patterns on characters

    A [str] pattern that uses [\d] matches code points: its classes are
    sets of code points and the text is taken by characters. *)

Module URe.

Inductive re : Type :=
| Void
| Eps
| Class (p : N -> bool)
| Seq (r1 r2 : re)
| Alt (r1 r2 : re)
| Star (r : re).

Fixpoint nullable (r : re) : bool :=
  match r with
  | Void => false
  | Eps => true
  | Class _ => false
  | Seq r1 r2 => nullable r1 && nullable r2
  | Alt r1 r2 => nullable r1 || nullable r2
  | Star _ => true
  end.

Fixpoint deriv (c : N) (r : re) : re :=
  match r with
  | Void => Void
  | Eps => Void
  | Class p => if p c then Eps else Void
  | Seq r1 r2 =>
      if nullable r1
      then Alt (Seq (deriv c r1) r2) (deriv c r2)
      else Seq (deriv c r1) r2
  | Alt r1 r2 => Alt (deriv c r1) (deriv c r2)
  | Star r0 => Seq (deriv c r0) (Star r0)
  end.

Fixpoint fullmatch (r : re) (l : list N) : bool :=
  match l with
  | [] => nullable r
  | c :: rest => fullmatch (deriv c r) rest
  end.

(** [r{n}] *)
Fixpoint rep (n : nat) (r : re) : re :=
  match n with
  | O => Eps
  | S n' => Seq r (rep n' r)
  end.

Definition newline : N := 10%N.

(** [l] without its last character, when that is a newline. *)
Fixpoint chomp (l : list N) : option (list N) :=
  match l with
  | [] => None
  | [c] => if N.eqb c newline then Some [] else None
  | c :: rest =>
      match chomp rest with
      | Some r => Some (c :: r)
      | None => None
      end
  end.

(** [bool(re.match('^' r '$', s))] on the characters of [s]: without
    MULTILINE, [$] matches at the end of the text and also just before a
    newline that ends it. *)
Definition match_anchored (r : re) (l : list N) : bool :=
  fullmatch r l
  || match chomp l with
     | Some t => fullmatch r t
     | None => false
     end.

(** The classes [[A-Z]], [[0-9]] and a single character. *)
Definition upper (c : N) : bool := Unicode.between 65 90 c.
Definition ascii_digit (c : N) : bool := Unicode.between 48 57 c.
Definition char (x : N) (c : N) : bool := N.eqb c x.

(** The language of a pattern. *)
Inductive matches : re -> list N -> Prop :=
| m_eps : matches Eps []
| m_class p c : p c = true -> matches (Class p) [c]
| m_seq r1 r2 l1 l2 :
    matches r1 l1 -> matches r2 l2 -> matches (Seq r1 r2) (l1 ++ l2)
| m_alt_l r1 r2 l : matches r1 l -> matches (Alt r1 r2) l
| m_alt_r r1 r2 l : matches r2 l -> matches (Alt r1 r2) l
| m_star_nil r : matches (Star r) []
| m_star_cons r l1 l2 :
    matches r l1 -> matches (Star r) l2 -> matches (Star r) (l1 ++ l2).

(** [l] has the shape [P], possibly followed by one newline. *)
Definition up_to_newline (P : list N -> Prop) (l : list N) : Prop :=
  P l \/ exists body, l = body ++ [newline] /\ P body.

End URe.

(** ** JSON values

    The data the stage agents receive is what [json.loads] made of the
    LLM's answer: any JSON value may stand where a string is expected. *)

Module Json.

#[warnings="-register-all"]
Inductive json : Type :=
| JNull
| JBool (b : bool)
| JNum (z : Z)          (* a number; the code only tests it for zero *)
| JStr (s : string)
| JArr (items : list json)
| JObj (fields : gmap string json).

(** Python truthiness. *)
Definition truthy (v : json) : bool :=
  match v with
  | JNull => false
  | JBool b => b
  | JNum z => negb (z =? 0)%Z
  | JStr s => negb (String.eqb s "")
  | JArr items => negb (Nat.eqb (length items) 0)
  | JObj fields => negb (Nat.eqb (size fields) 0)
  end.

(** The exceptions the agents' code can raise on such a value. *)
Inductive exn : Type :=
| AttributeError    (* a [str] or [dict] method called on another type *)
| TypeError.        (* [re.match] or [len] applied to another type *)

Inductive result (A : Type) : Type :=
| Ok (a : A)
| Raised (e : exn).
Arguments Ok {A} a.
Arguments Raised {A} e.

#[global] Instance result_ret : MRet result := fun A a => Ok a.
#[global] Instance result_bind : MBind result := fun A B f m =>
  match m with
  | Ok a => f a
  | Raised e => Raised e
  end.

(** [d.get(k)] and [d.get(k, dflt)] on a dict. *)
Definition get (d : gmap string json) (k : string) : json :=
  default JNull (d !! k).

Definition get_or (dflt : json) (d : gmap string json) (k : string) : json :=
  default dflt (d !! k).

(** The receiver of a [str] method ([lower], [strip], [isdigit],
    [replace]). *)
Definition as_str (v : json) : result string :=
  match v with
  | JStr s => Ok s
  | _ => Raised AttributeError
  end.

(** The receiver of [get]. *)
Definition as_dict (v : json) : result (gmap string json) :=
  match v with
  | JObj fields => Ok fields
  | _ => Raised AttributeError
  end.

(** [bool(re.match(pattern, v))] for an anchored pattern. *)
Definition re_match (pattern : Re.re) (v : json) : result bool :=
  match v with
  | JStr s => Ok (PyStr.match_anchored pattern s)
  | _ => Raised TypeError
  end.

(** [bool(re.match(pattern, v))] for an anchored pattern that matches by
    characters. *)
Definition re_match_chars (pattern : URe.re) (v : json) : result bool :=
  match v with
  | JStr s => Ok (URe.match_anchored pattern (Unicode.codepoints s))
  | _ => Raised TypeError
  end.

(** [len(v)] *)
Definition len (v : json) : result nat :=
  match v with
  | JStr s => Ok (Unicode.len s)
  | JArr items => Ok (length items)
  | JObj fields => Ok (size fields)
  | _ => Raised TypeError
  end.

(** The loop over [required_fields]. *)
Definition missing_fields (required_fields : list string)
    (d : gmap string json) : list string :=
  flat_map (fun field =>
              if truthy (get d field) then []
              else ["Missing required field: " +:+ field])
    required_fields.

(** What [_validate_*_data] returns. *)
Record Validation : Type := mkValidation {
  success : bool;
  errors : list string
}.

Definition validation_of (errors : list string) : Validation :=
  mkValidation (Nat.eqb (length errors) 0) errors.

Definition upper_or_digit (c : ascii) : bool := Py.is_upper c || Py.is_digit c.

End Json.

(** ** bank_details_agent.py *)

Module BankAgent.
Import Json.

Definition required_fields : list string :=
  ["account_holder_name"; "account_number"; "ifsc_code"; "bank_name"].

(** [^[A-Z]{4}0[A-Z0-9]{6}$] *)
Definition ifsc_pattern : Re.re :=
  Re.Seq (PyStr.rep 4 (Re.Class Py.is_upper))
    (Re.Seq (Re.Class (Re.one_of "0"))
       (PyStr.rep 6 (Re.Class upper_or_digit))).

Definition _validate_ifsc_format (ifsc_code : json) : result bool :=
  re_match ifsc_pattern ifsc_code.

Section Agent.
Context {U : Unicode.Database}.

(** The three checks that follow the loop; each gives the errors it
    appends. *)
Definition check_account_number (account_number : json) : result (list string) :=
  if truthy account_number then
    s ← as_str account_number;
    mret (if negb (Unicode.isdigit s)
          then ["Account number must contain only digits"] else [])
  else mret [].

Definition check_ifsc_code (ifsc_code : json) : result (list string) :=
  if truthy ifsc_code then
    ok ← _validate_ifsc_format ifsc_code;
    mret (if negb ok then ["Invalid IFSC code format"] else [])
  else mret [].

Definition check_account_holder (account_holder : json) : result (list string) :=
  if truthy account_holder then
    s ← as_str account_holder;
    mret (if (Unicode.len (Unicode.strip s) <? 2)%nat
          then ["Account holder name must be at least 2 characters"] else [])
  else mret [].

Definition _validate_bank_data (bank_data : gmap string json)
  : result Validation :=
  let errors := missing_fields required_fields bank_data in
  e1 ← check_account_number (get_or (JStr "") bank_data "account_number");
  e2 ← check_ifsc_code (get_or (JStr "") bank_data "ifsc_code");
  e3 ← check_account_holder (get_or (JStr "") bank_data "account_holder_name");
  mret (validation_of (errors ++ e1 ++ e2 ++ e3)).
End Agent.

(** The three dicts [process_bank_details] can return. *)
Inductive Response : Type :=
| Completed (bank_data : gmap string json)
    (session_id bank_id completion_timestamp : string)
| ValidationFailed (errors : list string) (session_id : string)
| Error (e : exn) (session_id : string).

Definition status (r : Response) : string :=
  match r with
  | Completed _ _ _ _ => "completed"
  | ValidationFailed _ _ => "validation_failed"
  | Error _ _ => "error"
  end.

Definition succeeded (r : Response) : bool :=
  match r with
  | Completed _ _ _ _ => true
  | _ => false
  end.

(** [process_bank_details]; [uuid] is the session id drawn when none is
    given, [hex8] and [now] what [_complete_bank_details] draws. *)
Definition process_bank_details {U : Unicode.Database}
    (bank_data : gmap string json)
    (session_id : option string) (uuid hex8 now : string) : Response :=
  let sid := Supervisor.effective_session_id session_id uuid in
  match _validate_bank_data bank_data with
  | Ok validation_result =>
      if negb (success validation_result)
      then ValidationFailed (errors validation_result) sid
      else Completed bank_data sid ("BANK_" +:+ hex8) now
  | Raised e => Error e sid
  end.

(** The shape of an accepted IFSC code: four capitals, a zero, six
    capitals or digits. *)
Definition ifsc_shape (s : string) : Prop :=
  exists bank branch,
    s = bank +:+ "0" +:+ branch
    /\ String.length bank = 4 /\ PyStr.all_chars Py.is_upper bank = true
    /\ String.length branch = 6
    /\ PyStr.all_chars upper_or_digit branch = true.

(** [s] has the shape [P], possibly followed by one newline. *)
Definition up_to_newline (P : string -> Prop) (s : string) : Prop :=
  P s \/ exists body, s = body +:+ String PyStr.newline "" /\ P body.

(** The data [process_bank_details] completes on. *)
Definition acceptable {U : Unicode.Database} (d : gmap string json) : Prop :=
  exists holder number ifsc,
    d !! "account_holder_name" = Some (JStr holder)
    /\ 2 <= Unicode.len (Unicode.strip holder)
    /\ d !! "account_number" = Some (JStr number)
    /\ Unicode.isdigit number = true
    /\ d !! "ifsc_code" = Some (JStr ifsc)
    /\ up_to_newline ifsc_shape ifsc
    /\ truthy (get d "bank_name") = true.

(** A value that is not a string stands where the code calls a string
    method. *)
Definition ill_typed (d : gmap string json) : Prop :=
  exists k v,
    In k ["account_number"; "ifsc_code"; "account_holder_name"]
    /\ d !! k = Some v /\ truthy v = true /\ forall s, v <> JStr s.

End BankAgent.

(** ** company_details_agent.py *)

Module CompanyAgent.
Import Json.

(** [any(keyword in s for keyword in keywords)] *)
Definition contains_any (keywords : list string) (s : string) : bool :=
  existsb (fun keyword => Py.str_contains keyword s) keywords.

Definition _detect_company_type (company_data : gmap string json)
  : result string :=
  name ← as_str (get_or (JStr "") company_data "company_name");
  let company_name := Py.lower name in
  mret (if contains_any ["ltd"; "limited"; "corp"; "corporation"] company_name
        then "Corporation"
        else if contains_any ["llc"; "llp"; "partnership"] company_name
        then "LLC/Partnership"
        else if contains_any ["pvt"; "private"] company_name
        then "Private Limited"
        else "Business Entity").

Definition required_fields : list string :=
  ["company_name"; "registration_number"; "address"].

(** [company_data.get('company_name') and len(company_data['company_name']) < 3] *)
Definition check_company_name (company_name : json) : result (list string) :=
  if truthy company_name then
    n ← len company_name;
    mret (if (n <? 3)%nat
          then ["Company name must be at least 3 characters"] else [])
  else mret [].

Section Agent.
Context {U : Unicode.Database}.

(** [reg_number.replace('-', '').replace(' ', '').isalnum()] *)
Definition check_registration_number (reg_number : json) : result (list string) :=
  if truthy reg_number then
    s ← as_str reg_number;
    mret (if negb (Unicode.isalnum
                     (PyStr.remove_char " " (PyStr.remove_char "-" s)))
          then ["Invalid registration number format"] else [])
  else mret [].

Definition _validate_company_data (company_data : gmap string json)
  : result Validation :=
  let errors := missing_fields required_fields company_data in
  e1 ← check_company_name (get company_data "company_name");
  e2 ← check_registration_number
         (get_or (JStr "") company_data "registration_number");
  mret (validation_of (errors ++ e1 ++ e2)).
End Agent.

(** The three dicts [process_company_details] can return. *)
Inductive Response : Type :=
| Completed (company_data : gmap string json)
    (company_type session_id company_id completion_timestamp : string)
| ValidationFailed (errors : list string) (session_id : string)
| Error (e : exn) (session_id : string).

Definition status (r : Response) : string :=
  match r with
  | Completed _ _ _ _ _ => "completed"
  | ValidationFailed _ _ => "validation_failed"
  | Error _ _ => "error"
  end.

Definition succeeded (r : Response) : bool :=
  match r with
  | Completed _ _ _ _ _ => true
  | _ => false
  end.

(** [process_company_details].  The call writes the detected type into
    the dict it was given, so the result comes with that dict as the
    call leaves it. *)
Definition process_company_details {U : Unicode.Database}
    (company_data : gmap string json)
    (session_id : option string) (uuid hex8 now : string)
  : Response * gmap string json :=
  let sid := Supervisor.effective_session_id session_id uuid in
  match _detect_company_type company_data with
  | Raised e => (Error e sid, company_data)
  | Ok company_type =>
      let company_data := <["company_type" := JStr company_type]> company_data in
      match _validate_company_data company_data with
      | Raised e => (Error e sid, company_data)
      | Ok validation_result =>
          if negb (success validation_result)
          then (ValidationFailed (errors validation_result) sid, company_data)
          else (Completed company_data company_type sid ("COMP_" +:+ hex8) now,
                company_data)
      end
  end.

(** [needle] occurs in [hay]. *)
Definition occurs_in (needle hay : string) : Prop :=
  exists before after, hay = before +:+ needle +:+ after.

(** The data [process_company_details] completes on. *)
Definition acceptable {U : Unicode.Database} (d : gmap string json) : Prop :=
  exists name reg,
    d !! "company_name" = Some (JStr name) /\ 3 <= Unicode.len name
    /\ d !! "registration_number" = Some (JStr reg)
    /\ Unicode.isalnum (PyStr.remove_char " " (PyStr.remove_char "-" reg)) = true
    /\ truthy (get d "address") = true.

(** A value that is not a string stands where the code calls a string
    method: any company name that is present, a truthy registration
    number. *)
Definition name_ill_typed (d : gmap string json) : Prop :=
  exists v, d !! "company_name" = Some v /\ forall s, v <> JStr s.

Definition reg_ill_typed (d : gmap string json) : Prop :=
  exists v, d !! "registration_number" = Some v /\ truthy v = true
            /\ forall s, v <> JStr s.

Definition ill_typed (d : gmap string json) : Prop :=
  name_ill_typed d \/ reg_ill_typed d.

End CompanyAgent.

(** ** kyc_agent.py *)

Module KycAgent.
Import Json.

Record Requirements : Type := mkRequirements {
  pan_required : bool;
  aadhar_required : bool;
  gst_required : bool
}.

Definition _detect_kyc_requirements (kyc_data : gmap string json)
  : result Requirements :=
  bt ← as_str (get_or (JStr "") kyc_data "business_type");
  let business_type := Py.lower bt in
  mret (mkRequirements
          (truthy (get kyc_data "pan_data"))
          (truthy (get kyc_data "aadhar_data"))
          (if Py.str_contains "company" business_type
              || Py.str_contains "corp" business_type
           then true
           else truthy (get kyc_data "gst_data"))).

Section Agent.
Context {U : Unicode.Database}.

(** [[A-Z\d]] *)
Definition upper_or_decimal (c : N) : bool := URe.upper c || Unicode.decimal c.

(** [^[A-Z]{5}[0-9]{4}[A-Z]{1}$] *)
Definition pan_pattern : URe.re :=
  URe.Seq (URe.rep 5 (URe.Class URe.upper))
    (URe.Seq (URe.rep 4 (URe.Class URe.ascii_digit))
       (URe.rep 1 (URe.Class URe.upper))).

(** [^\d{12}$] *)
Definition aadhar_pattern : URe.re := URe.rep 12 (URe.Class Unicode.decimal).

(** [^\d{2}[A-Z]{5}\d{4}[A-Z]{1}[A-Z\d]{1}[Z]{1}[A-Z\d]{1}$] *)
Definition gst_pattern : URe.re :=
  URe.Seq (URe.rep 2 (URe.Class Unicode.decimal))
    (URe.Seq (URe.rep 5 (URe.Class URe.upper))
       (URe.Seq (URe.rep 4 (URe.Class Unicode.decimal))
          (URe.Seq (URe.rep 1 (URe.Class URe.upper))
             (URe.Seq (URe.rep 1 (URe.Class upper_or_decimal))
                (URe.Seq (URe.rep 1 (URe.Class (URe.char 90)))
                   (URe.rep 1 (URe.Class upper_or_decimal))))))).

Definition _validate_pan_format (pan_number : json) : result bool :=
  re_match_chars pan_pattern pan_number.

Definition _validate_aadhar_format (aadhar_number : json) : result bool :=
  re_match_chars aadhar_pattern aadhar_number.

Definition _validate_gst_format (gst_number : json) : result bool :=
  re_match_chars gst_pattern gst_number.
End Agent.

(** What a sub-agent returns: the dict with 'success': True and the
    number, or the one with 'success': False. *)
Inductive DocResult : Type :=
| Verified (number : json)
| Invalid.

Definition doc_success (r : DocResult) : bool :=
  match r with
  | Verified _ => true
  | Invalid => false
  end.

Section SubAgents.
Context {U : Unicode.Database}.

Definition process_pan (pan_data : json) : result DocResult :=
  fields ← as_dict pan_data;
  let pan_number := get_or (JStr "") fields "pan_number" in
  ok ← _validate_pan_format pan_number;
  mret (if (ok : bool) then Verified pan_number else Invalid).

Definition process_aadhar (aadhar_data : json) : result DocResult :=
  fields ← as_dict aadhar_data;
  let aadhar_number := get_or (JStr "") fields "aadhar_number" in
  ok ← _validate_aadhar_format aadhar_number;
  mret (if (ok : bool) then Verified aadhar_number else Invalid).

Definition process_gst (gst_data : json) : result DocResult :=
  fields ← as_dict gst_data;
  let gst_number := get_or (JStr "") fields "gst_number" in
  ok ← _validate_gst_format gst_number;
  mret (if (ok : bool) then Verified gst_number else Invalid).
End SubAgents.

(** [kyc_results]: an entry for each sub-agent that ran. *)
Record Results : Type := mkResults {
  pan : option DocResult;
  aadhar : option DocResult;
  gst : option DocResult
}.

(** [if required: kyc_results[name] = sub_agent(...)] *)
Definition run_if (required : bool) (call : result DocResult)
  : result (option DocResult) :=
  if required then r ← call; mret (Some r) else mret None.

(** [kyc_results.get(name, {}).get('success')] *)
Definition verified (r : option DocResult) : bool :=
  match r with
  | Some res => doc_success res
  | None => false
  end.

Definition _validate_kyc_completion (kyc_results : Results)
    (requirements : Requirements) : bool * list string :=
  let missing :=
    (if pan_required requirements && negb (verified (pan kyc_results))
     then ["pan"] else [])
    ++ (if aadhar_required requirements && negb (verified (aadhar kyc_results))
        then ["aadhar"] else [])
    ++ (if gst_required requirements && negb (verified (gst kyc_results))
        then ["gst"] else []) in
  (Nat.eqb (length missing) 0, missing).

(** The three dicts [process_kyc] can return. *)
Inductive Response : Type :=
| Completed (kyc_results : Results) (requirements : Requirements)
    (session_id kyc_id : string)
| Incomplete (kyc_results : Results) (missing_requirements : list string)
    (session_id : string)
| Error (e : exn) (session_id : string).

Definition status (r : Response) : string :=
  match r with
  | Completed _ _ _ _ => "completed"
  | Incomplete _ _ _ => "incomplete"
  | Error _ _ => "error"
  end.

Definition succeeded (r : Response) : bool :=
  match r with
  | Completed _ _ _ _ => true
  | _ => false
  end.

Section Coordinator.
Context {U : Unicode.Database}.

(** Steps 1 and 2 of [process_kyc]. *)
Definition coordinate (kyc_data : gmap string json)
  : result (Requirements * Results) :=
  requirements ← _detect_kyc_requirements kyc_data;
  pan ← run_if (pan_required requirements)
          (process_pan (get_or (JObj ∅) kyc_data "pan_data"));
  aadhar ← run_if (aadhar_required requirements)
             (process_aadhar (get_or (JObj ∅) kyc_data "aadhar_data"));
  gst ← run_if (gst_required requirements)
          (process_gst (get_or (JObj ∅) kyc_data "gst_data"));
  mret (requirements, mkResults pan aadhar gst).

Definition process_kyc (kyc_data : gmap string json)
    (session_id : option string) (uuid hex8 : string) : Response :=
  let sid := Supervisor.effective_session_id session_id uuid in
  match coordinate kyc_data with
  | Ok (requirements, kyc_results) =>
      let validation_result :=
        _validate_kyc_completion kyc_results requirements in
      if fst validation_result
      then Completed kyc_results requirements sid ("KYC_" +:+ hex8)
      else Incomplete kyc_results (snd validation_result) sid
  | Raised e => Error e sid
  end.

(** Five capitals, four digits 0 to 9, a capital. *)
Definition pan_shape (l : list N) : Prop :=
  exists letters digits last,
    l = letters ++ digits ++ last
    /\ length letters = 5 /\ forallb URe.upper letters = true
    /\ length digits = 4 /\ forallb URe.ascii_digit digits = true
    /\ length last = 1 /\ forallb URe.upper last = true.

(** Twelve decimal digits, of any script. *)
Definition aadhar_shape (l : list N) : Prop :=
  length l = 12 /\ forallb Unicode.decimal l = true.

(** Two decimal digits, five capitals, four decimal digits, a capital,
    a capital or decimal digit, a Z, a capital or decimal digit. *)
Definition gst_shape (l : list N) : Prop :=
  exists state letters digits last entity check,
    l = state ++ letters ++ digits ++ last ++ entity ++ [90%N] ++ check
    /\ length state = 2 /\ forallb Unicode.decimal state = true
    /\ length letters = 5 /\ forallb URe.upper letters = true
    /\ length digits = 4 /\ forallb Unicode.decimal digits = true
    /\ length last = 1 /\ forallb URe.upper last = true
    /\ length entity = 1 /\ forallb upper_or_decimal entity = true
    /\ length check = 1 /\ forallb upper_or_decimal check = true.
End Coordinator.

(** [v] is a dict whose entry [key] is a string whose characters have
    the shape [shape], possibly followed by one newline. *)
Definition document (shape : list N -> Prop) (key : string) (v : json) : Prop :=
  exists fields s,
    v = JObj fields /\ fields !! key = Some (JStr s)
    /\ URe.up_to_newline shape (Unicode.codepoints s).

(** The business types that make the GST document required. *)
Definition is_company (business_type : string) : bool :=
  Py.str_contains "company" (Py.lower business_type)
  || Py.str_contains "corp" (Py.lower business_type).

(** A required sub-agent ran and verified its document. *)
Definition good (required : bool) (call : result DocResult) : Prop :=
  required = true -> exists n, call = Ok (Verified n).

End KycAgent.

(** ** state_manager.py: update_state and delete_state *)

Module StateManagerOps.
Import StateManager.

(** [update_state]: load, [dict.update], save, all inside one [try];
    [fl] and [fs] are what goes wrong during the load and during the
    save, [now_load], [now] and [now_save] the times read by the load,
    by [update_state] itself and by the save. *)
Definition update_state (m : Manager) (fl fs : Faults)
    (now_load now now_save : string) (session_id : string)
    (updates : gmap string pyval) (w : World) : bool * World :=
  match load_state m fl now_load session_id w with
  | (Raise _, w1) => (false, w1)
  | (Return current_state, w1) =>
      let current_state := <["updated_at" := PStr now]> (updates ∪ current_state) in
      match save_state m fs now_save session_id current_state w1 with
      | (Return ok, _, w2) => (ok, w2)
      | (Raise _, _, w2) => (false, w2)
      end
  end.

(** [DELETE FROM onboarding_state WHERE session_id = $1] *)
Definition delete_state_row (session_id : string) (d : Database)
  : unit * Database :=
  (tt, mkDatabase (chat_sessions d) (delete session_id (onboarding_state d))
         (entity_features d)).

(** [DELETE FROM chat_sessions WHERE id = $1].  The DDL is not among the
    sources: [cascade] tells whether the session's row of
    [entity_features] is one of the related records the deletion
    cascades to. *)
Definition delete_session_row (cascade : bool) (session_id : string)
    (d : Database) : unit * Database :=
  (tt, mkDatabase (delete session_id (chat_sessions d)) (onboarding_state d)
         (if cascade then delete session_id (entity_features d)
          else entity_features d)).

(** [delete_state]; the cache entry is removed unless the cache cannot
    be written.  (The trace records the side effects of [save_state]
    only.) *)
Definition delete_state (cascade : bool) (m : Manager) (f : Faults)
    (session_id : string) (w : World) : Result bool * World :=
  if negb (pool m) then (Raise not_initialized, w)
  else
    match transaction (db_fault f)
            (db_op (db_fault f) (delete_state_row session_id) ;;;
             db_op (db_fault f) (delete_session_row cascade session_id))
            (db w) with
    | (Some _, d') =>
        (Return true,
         if _cache_enabled m && negb (cache_write_fault f)
         then mkWorld d' (delete (cache_key session_id) (cache w))
                (published w) (trace w)
         else mkWorld d' (cache w) (published w) (trace w))
    | (None, _) => (Return false, w)
    end.

(** Every completion flag of a row is set exactly when its timestamp
    is. *)
Definition stamped (r : EntityRow) : Prop :=
  (signup_completed r = true <-> is_Some (signup_completed_at r))
  /\ (kyc_completed r = true <-> is_Some (kyc_completed_at r))
  /\ (business_details_completed r = true
      <-> is_Some (business_details_completed_at r))
  /\ (bank_details_completed r = true <-> is_Some (bank_details_completed_at r))
  /\ (onboarding_completed r = true <-> is_Some (onboarding_completed_at r)).

(** The completion flag and timestamp of a feature in a row. *)
Definition flag_of (ft : Feature) (r : EntityRow) : bool :=
  match ft with
  | f_signup => signup_completed r
  | f_kyc => kyc_completed r
  | f_business_details => business_details_completed r
  | f_bank_details => bank_details_completed r
  end.

Definition stamp_of (ft : Feature) (r : EntityRow) : option string :=
  match ft with
  | f_signup => signup_completed_at r
  | f_kyc => kyc_completed_at r
  | f_business_details => business_details_completed_at r
  | f_bank_details => bank_details_completed_at r
  end.

(** The five flags of a row. *)
Definition flags_of (r : EntityRow) : bool * bool * bool * bool * bool :=
  (signup_completed r, kyc_completed r, business_details_completed r,
   bank_details_completed r, onboarding_completed r).

End StateManagerOps.

(** Worlds and faults for the examples of the store. *)
Module StoreExamples.
Import StateManager.

(** The cache holds a state of session "s1"; the durable store is empty. *)
Definition cached_world : World :=
  mkWorld empty_db {[cache_key "s1" := Examples.kyc_state]} [] [].

Definition cache_write_fails : Faults := mkFaults None false true false.

Definition bank_state : gmap string pyval :=
  <["current_step" := PStr "bank"]> Examples.kyc_state.

(** Session "s1" saved with some user data. *)
Definition with_user_data : World :=
  snd (save_state Examples.ready no_faults "t0" "s1"
         (<["user_name" := PStr "Jane"]> Examples.kyc_state) empty_world).

End StoreExamples.

(** ** graph_state.py: the helpers on state dicts *)

Module GraphStateOps.

(** [create_initial_state]; the empty lists and dicts and the metadata
    dict are nested values. *)
Definition create_initial_state (session_id : string) : gmap string pyval :=
  <["session_id" := PStr session_id]>
    (<["messages" := PJson "[]"]>
       (<["current_step" := PStr "init"]>
          (<["next_step" := PStr "signup"]>
             (<["user_data" := PJson "{}"]>
                (<["company_data" := PJson "{}"]>
                   (<["kyc_data" := PJson "{}"]>
                      (<["bank_data" := PJson "{}"]>
                         (<["is_complete" := PBool false]>
                            (<["has_errors" := PBool false]>
                               (<["errors" := PJson "[]"]>
                                  (<["metadata" :=
                                       PJson "{'created_at': None, 'updated_at': None}"]>
                                     ∅))))))))))).

Definition required_fields : list string := ["session_id"; "current_step"].

(** [all(field in state for field in required_fields)] *)
Definition validate_state (state : gmap string pyval) : bool :=
  forallb (fun field => bool_decide (is_Some (state !! field))) required_fields.

(** [merged = base_state.copy(); merged.update(updates)] *)
Definition merge_state (base_state updates : gmap string pyval)
  : gmap string pyval :=
  updates ∪ base_state.

End GraphStateOps.

(** ** signup_agent.py: the conversational signup *)

Module Conversation.

(** [_extract_name]: [text.strip().split()], then the first two words,
    or the only one when it has more than one character. *)
Definition _extract_name {U : Unicode.Database} (text : string) : option string :=
  match Unicode.split (Unicode.strip text) with
  | w1 :: w2 :: _ => Some (w1 +:+ " " +:+ w2)
  | [w] => if (1 <? Unicode.len w)%nat then Some w else None
  | [] => None
  end.

(** [if value: extracted[key] = value] *)
Definition store_if (key : string) (value : option string)
    (extracted : gmap string pyval) : gmap string pyval :=
  if StateManager.str_truthy value
  then <[key := PStr (default "" value)]> extracted
  else extracted.

Definition _has_all_required_data (session_state : gmap string pyval) : bool :=
  forallb (fun field => Py.truthy (Py.dict_get session_state field))
    ["name"; "email"; "phone"].

(** What [process_conversational_signup] returns: the dict of
    [process_signup] (with the requests it made), or the one that asks
    for more. *)
Inductive Reply : Type :=
| Processed (result : SignupAgent.SignupResult) (requests : list Api.Event)
| CollectingData (message session_id : string) (missing_fields : list string)
    (current_data : gmap string pyval).

Definition missing (session_state : gmap string pyval) : list string :=
  (if negb (Py.truthy (Py.dict_get session_state "name")) then ["name"] else [])
  ++ (if negb (Py.truthy (Py.dict_get session_state "email")) then ["email"] else [])
  ++ (if negb (Py.truthy (Py.dict_get session_state "phone")) then ["phone"] else []).

Definition mem (x : string) (l : list string) : bool := existsb (String.eqb x) l.

Section Agent.
Context {U : Unicode.Database}.
Variable http : nat -> Api.HttpOutcome.
Variable now : Z.
(** The two regular-expression searches, [_extract_email] and
    [_extract_phone]: what they find in a message. *)
Variable _extract_email : string -> option string.
Variable _extract_phone : string -> option string.

Definition _extract_user_data (message : string) : gmap string pyval :=
  store_if "phone" (_extract_phone message)
    (store_if "email" (_extract_email message)
       (store_if "name" (_extract_name message) ∅)).

(** [_get_session_state]: the dict kept for the session in
    [_session_states], created on first use. *)
Definition _get_session_state (session_id : string)
    (_session_states : gmap string (gmap string pyval))
  : gmap string pyval * gmap string (gmap string pyval) :=
  match _session_states !! session_id with
  | Some session_state => (session_state, _session_states)
  | None =>
      (GraphStateOps.create_initial_state session_id,
       <[session_id := GraphStateOps.create_initial_state session_id]>
         _session_states)
  end.

Definition _continue_conversation (session_state : gmap string pyval)
    (session_id uuid : string) : Reply :=
  let missing_fields := missing session_state in
  match missing_fields with
  | [] =>
      let '(result, requests) :=
        SignupAgent.process_signup http now session_state (Some session_id) uuid in
      Processed result requests
  | _ =>
      let message :=
        if mem "name" missing_fields then "What's your full name?"
        else if mem "email" missing_fields then "What's your email address?"
        else if mem "phone" missing_fields then "What's your phone number?"
        else "I need a bit more information to complete your signup." in
      CollectingData message session_id missing_fields session_state
  end.

(** [process_conversational_signup].  The session's dict is the one
    held in [_session_states]: [session_state.update] changes it there,
    so the call returns the table of sessions as it leaves it. *)
Definition process_conversational_signup (user_message : string)
    (session_id : option string) (uuid : string)
    (_session_states : gmap string (gmap string pyval))
  : Reply * gmap string (gmap string pyval) :=
  let sid := Supervisor.effective_session_id session_id uuid in
  let '(session_state, states) := _get_session_state sid _session_states in
  let extracted_data := _extract_user_data user_message in
  let session_state := extracted_data ∪ session_state in
  let states := <[sid := session_state]> states in
  if _has_all_required_data session_state then
    let '(result, requests) :=
      SignupAgent.process_signup http now session_state (Some sid) uuid in
    (Processed result requests, states)
  else (_continue_conversation session_state sid uuid, states).
End Agent.

(** What the session holds under [key] before a call. *)
Definition held (states : gmap string (gmap string pyval)) (sid key : string)
  : option pyval :=
  match states !! sid with
  | Some session_state => session_state !! key
  | None => GraphStateOps.create_initial_state sid !! key
  end.

End Conversation.

(** ** redis_client.py: connecting and retrying

    The client object, the clock it reads and the Redis server it talks
    to.  Time passes in [time.sleep] only; [net i] is what the [i]-th
    network call (a ping or a command) of a run does. *)

Module RedisClient.

Inductive Net : Type :=
| NetOk
| NetConnectionError
| NetTimeoutError
| NetOtherError.

Inductive Exn : Type :=
| ConnectionError | TimeoutError | AttributeError | OtherError.

Inductive Outcome (A : Type) : Type :=
| Ret (a : A)
| Exc (e : Exn).
Arguments Ret {A} a.
Arguments Exc {A} e.

Record Client : Type := mkClient {
  connected : bool;             (* self._client is not None *)
  _last_health_check : nat;
  clock : nat;                  (* time.time(), in seconds *)
  calls : nat                   (* network calls made so far *)
}.

Definition _health_check_interval : nat := 30.

Definition with_connected (b : bool) (w : Client) : Client :=
  mkClient b (_last_health_check w) (clock w) (calls w).

Definition checked_at (t : nat) (w : Client) : Client :=
  mkClient (connected w) t (clock w) (calls w).

Definition sleep (seconds : nat) (w : Client) : Client :=
  mkClient (connected w) (_last_health_check w) (clock w + seconds) (calls w).

Definition exn_of (r : Net) : Exn :=
  match r with
  | NetConnectionError => ConnectionError
  | NetTimeoutError => TimeoutError
  | _ => OtherError
  end.

Section Redis.
Variable net : nat -> Net.

(** One network call. *)
Definition call (w : Client) : Net * Client :=
  (net (calls w),
   mkClient (connected w) (_last_health_check w) (clock w) (S (calls w))).

(** The loop of [_initialize], with [todo] attempts to go. *)
Fixpoint init_from (todo attempt retries delay : nat) (w : Client)
  : Outcome unit * Client :=
  match todo with
  | O => (Ret tt, with_connected false w)
  | S todo' =>
      let '(r, w1) := call (with_connected true w) in
      match r with
      | NetOk => (Ret tt, checked_at (clock w1) w1)
      | NetConnectionError =>
          init_from todo' (S attempt) retries delay
            (if (attempt <? retries - 1)%nat then sleep delay w1 else w1)
      | _ => (Exc (exn_of r), w1)
      end
  end.

Definition _initialize (retries delay : nat) (w : Client) : Outcome unit * Client :=
  init_from retries 0 retries delay w.

(** [_initialize()] followed by [return self._client]. *)
Definition reconnect (w : Client) : Outcome bool * Client :=
  match _initialize 3 2 w with
  | (Ret _, w1) => (Ret (connected w1), w1)
  | (Exc e, w1) => (Exc e, w1)
  end.

(** The [client] property: whether the client it returns is not None. *)
Definition client (w : Client) : Outcome bool * Client :=
  let current_time := clock w in
  if negb (connected w) then reconnect w
  else if (_health_check_interval <? current_time - _last_health_check w)%nat then
    let '(r, w1) := call w in
    match r with
    | NetOk => (Ret (connected w1), checked_at current_time w1)
    | NetConnectionError | NetTimeoutError => reconnect (with_connected false w1)
    | NetOtherError => (Exc OtherError, w1)
    end
  else (Ret (connected w), w).

(** An operation of the form [self.client.<command>(...)], whose
    command answers [reply] when it goes through. *)
Definition command {A} (reply : A) (w : Client) : Outcome A * Client :=
  match client w with
  | (Exc e, w1) => (Exc e, w1)
  | (Ret false, w1) => (Exc AttributeError, w1)
  | (Ret true, w1) =>
      let '(r, w2) := call w1 in
      match r with
      | NetOk => (Ret reply, w2)
      | _ => (Exc (exn_of r), w2)
      end
  end.

(** [_execute_with_retry]; [None] is the None it returns on failure. *)
Definition _execute_with_retry {A} (operation : Client -> Outcome A * Client)
    (w : Client) : Outcome (option A) * Client :=
  match operation w with
  | (Ret a, w1) => (Ret (Some a), w1)
  | (Exc ConnectionError, w1) | (Exc TimeoutError, w1) =>
      match client (with_connected false w1) with
      | (Exc e, w2) => (Exc e, w2)
      | (Ret true, w2) =>
          match operation w2 with
          | (Ret a, w3) => (Ret (Some a), w3)
          | (Exc _, w3) => (Ret None, w3)
          end
      | (Ret false, w2) => (Ret None, w2)
      end
  | (Exc _, w1) => (Ret None, w1)
  end.
End Redis.

(** A Redis server that cannot be reached. *)
Definition unreachable (_ : nat) : Net := NetConnectionError.

(** The server drops the first command and answers from then on. *)
Definition drops_first (i : nat) : Net :=
  match i with
  | O => NetConnectionError
  | _ => NetOk
  end.

Definition fresh : Client := mkClient true 0 0 0.

End RedisClient.

(** * Properties *)

(** ** The supervisor's routing decision *)

Module SupervisorFacts.
Import Supervisor.

Lemma same_keywords_spec l1 l2 :
  same_keywords l1 l2 = true ->
  Py.str_contains AGENT_SIGNUP (Py.lower l1) = Py.str_contains AGENT_SIGNUP (Py.lower l2)
  /\ Py.str_contains AGENT_COMPANY (Py.lower l1) = Py.str_contains AGENT_COMPANY (Py.lower l2)
  /\ Py.str_contains AGENT_KYC (Py.lower l1) = Py.str_contains AGENT_KYC (Py.lower l2)
  /\ Py.str_contains AGENT_BANK (Py.lower l1) = Py.str_contains AGENT_BANK (Py.lower l2)
  /\ Py.str_contains AGENT_COMPLETE (Py.lower l1) = Py.str_contains AGENT_COMPLETE (Py.lower l2).
Proof.
  unfold same_keywords, keywords. cbn [forallb].
  rewrite !andb_true_iff, !eqb_true_iff. tauto.
Qed.

Lemma no_keywords_spec l :
  no_keywords l = true ->
  Py.str_contains AGENT_SIGNUP (Py.lower l) = false
  /\ Py.str_contains AGENT_COMPANY (Py.lower l) = false
  /\ Py.str_contains AGENT_KYC (Py.lower l) = false
  /\ Py.str_contains AGENT_BANK (Py.lower l) = false
  /\ Py.str_contains AGENT_COMPLETE (Py.lower l) = false.
Proof.
  unfold no_keywords, keywords. cbn [forallb].
  rewrite !andb_true_iff, !negb_true_iff. tauto.
Qed.

(** Whatever the LLM says, the supervisor's update is a routing update
    to one of five agents; it never answers "end", never skips a stage
    that is not complete, and answers "complete" only when the four
    flags are set. *)
Lemma supervisor_routing llm st :
  exists a msg,
    _supervisor_agent llm st = routing a msg
    /\ (a = AGENT_SIGNUP
        \/ (a = AGENT_COMPANY /\ signup_complete st = true)
        \/ (a = AGENT_KYC /\ signup_complete st = true
             /\ company_complete st = true)
        \/ (a = AGENT_BANK /\ signup_complete st = true
             /\ company_complete st = true /\ kyc_complete st = true)
        \/ (a = AGENT_COMPLETE /\ all_complete st = true)).
Proof.
  unfold _supervisor_agent, all_complete.
  destruct (_ || negb (signup_complete st)) eqn:E1; [eauto 10 |].
  apply orb_false_iff in E1 as [_ Hs]. apply negb_false_iff in Hs. rewrite Hs.
  cbn [andb].
  destruct (_ || negb (company_complete st)) eqn:E2; [eauto 10 |].
  apply orb_false_iff in E2 as [_ Hc]. apply negb_false_iff in Hc. rewrite Hc.
  cbn [andb].
  destruct (_ || negb (kyc_complete st)) eqn:E3; [eauto 10 |].
  apply orb_false_iff in E3 as [_ Hk]. apply negb_false_iff in Hk. rewrite Hk.
  cbn [andb].
  destruct (_ || negb (bank_complete st)) eqn:E4; [eauto 12 |].
  apply orb_false_iff in E4 as [_ Hb]. apply negb_false_iff in Hb. rewrite Hb.
  rewrite orb_true_r. eauto 12.
Qed.

Lemma supervisor_complete_needs_flags llm st :
  u_next_agent (_supervisor_agent llm st) <> Some AGENT_END
  /\ (u_next_agent (_supervisor_agent llm st) = Some AGENT_COMPLETE ->
      all_complete st = true).
Proof.
  destruct (supervisor_routing llm st) as (a & msg & -> & H). cbn.
  destruct H as [-> | [[-> _] | [[-> _] | [[-> _] | [-> H]]]]];
    (split; [discriminate | first [discriminate | intros _; exact H]]).
Qed.

(** C1, as stated, fails: with the four flags set, the answer
    "signup" sends the run back to signup, the empty answer to
    completion. *)
Lemma supervisor_llm_overrides_flags :
  u_next_agent (_supervisor_agent "" (with_flags true true true true))
  <> u_next_agent (_supervisor_agent "signup" (with_flags true true true true)).
Proof. vm_compute. discriminate. Qed.

(** C1 (amended): for a fixed flag vector the routing decision depends on
    the LLM's answer only through the agent names (signup, company, kyc,
    bank, complete) its lower-cased text contains: two answers that
    contain the same names give the same update, and while signup is
    incomplete the decision is signup whatever the answer. *)
Theorem supervisor_decision_by_keywords (st : OnboardingState) (l1 l2 : string) :
  (same_keywords l1 l2 = true ->
   _supervisor_agent l1 st = _supervisor_agent l2 st)
  /\ (signup_complete st = false ->
      u_next_agent (_supervisor_agent l1 st) = Some AGENT_SIGNUP).
Proof.
  split.
  - intros H. apply same_keywords_spec in H as (H1 & H2 & H3 & H4 & H5).
    unfold _supervisor_agent. rewrite H1, H2, H3, H4, H5. reflexivity.
  - intros H. unfold _supervisor_agent. rewrite H.
    rewrite orb_true_r. reflexivity.
Qed.

Lemma supervisor_decision_by_keywords_witness :
  same_keywords "kyc" "Next agent: KYC." = true
  /\ _supervisor_agent "kyc" (with_flags true true true false)
     = _supervisor_agent "Next agent: KYC." (with_flags true true true false).
Proof.
  split; [reflexivity |].
  apply (proj1 (supervisor_decision_by_keywords
                  (with_flags true true true false) "kyc" "Next agent: KYC.")).
  reflexivity.
Defined.

(** C2: when the LLM's answer contains none of the agent names, the
    supervisor picks the first incomplete stage in the order signup,
    company, kyc, bank, and "complete" when all four are complete: the
    stage picked is not complete and every stage before it is. *)
Theorem supervisor_first_incomplete (st : OnboardingState) (llm : string) :
  no_keywords llm = true ->
  u_next_agent (_supervisor_agent llm st) = Some (spec_transition_rule st)
  /\ first_incomplete st (spec_transition_rule st).
Proof.
  intros H. apply no_keywords_spec in H as (H1 & H2 & H3 & H4 & H5).
  unfold _supervisor_agent, spec_transition_rule.
  rewrite H1, H2, H3, H4, H5.
  destruct (signup_complete st) eqn:Es, (company_complete st) eqn:Ec,
    (kyc_complete st) eqn:Ek, (bank_complete st) eqn:Eb; cbn;
    (split; [reflexivity |]); constructor; assumption.
Qed.

Lemma supervisor_first_incomplete_witness :
  no_keywords "" = true
  /\ u_next_agent (_supervisor_agent "" (with_flags true true false false))
     = Some "kyc".
Proof.
  split; [reflexivity |].
  apply (proj1 (supervisor_first_incomplete (with_flags true true false false) ""
                  eq_refl)).
Defined.

End SupervisorFacts.

(** ** The step ceiling of a run *)

Module CeilingFacts.
Import Supervisor.

Section Engine.
Context {Node State : Type}.
Variable exec : nat -> Node -> State -> State.
Variable edge : Node -> State -> Graph.Route Node.

Lemma run_steps_le fuel : forall k n st,
  Graph.steps_of (Graph.run exec edge fuel k n st) <= k + fuel.
Proof.
  induction fuel as [|fuel IH]; intros k n st; cbn.
  - lia.
  - destruct (edge n (exec k n st)); cbn; [| lia | lia].
    specialize (IH (S k) n0 (exec k n st)). lia.
Qed.

Lemma run_recursion_error_steps fuel : forall k n st st' m,
  Graph.run exec edge fuel k n st = Graph.GraphRecursionError st' m ->
  m = k + fuel.
Proof.
  induction fuel as [|fuel IH]; intros k n st st' m; cbn.
  - intros [= _ <-]. lia.
  - destruct (edge n (exec k n st)); try discriminate.
    intros H. apply IH in H. lia.
Qed.

Lemma invoke_steps_le limit entry st :
  Graph.steps_of (Graph.invoke exec edge limit entry st) <= limit.
Proof.
  unfold Graph.invoke. pose proof (run_steps_le limit 0 entry st). lia.
Qed.

Lemma invoke_recursion_error_steps limit entry st st' m :
  Graph.invoke exec edge limit entry st = Graph.GraphRecursionError st' m ->
  m = limit.
Proof.
  unfold Graph.invoke. intros H. apply run_recursion_error_steps in H. lia.
Qed.
End Engine.

Section Run.
Variable env : Env.

Lemma merge_routing st a msg :
  task_complete (merge st (routing a msg)) = task_complete st
  /\ next_agent (merge st (routing a msg)) = Some a
  /\ all_complete (merge st (routing a msg)) = all_complete st.
Proof. repeat split. Qed.

Lemma stage_node_back_to_supervisor k n st :
  n <> n_supervisor -> n <> n_complete ->
  next_agent (exec env k n st) = Some AGENT_SUPERVISOR
  /\ task_complete (exec env k n st) = task_complete st.
Proof.
  intros H1 H2. unfold exec, node_fun.
  destruct n; try congruence; destruct (attempt env k); split; reflexivity.
Qed.

(** Every node writes [next_agent], and never the engine's END key:
    a run stops only through [task_complete]. *)
Lemma edge_end_task_complete k n st :
  edge n (exec env k n st) = Graph.ToEnd ->
  task_complete (exec env k n st) = true.
Proof.
  unfold edge, _router.
  destruct (task_complete (exec env k n st)) eqn:Et; [reflexivity |].
  destruct (decide (n = n_complete)) as [-> | Hc]; [discriminate Et |].
  destruct (decide (n = n_supervisor)) as [-> | Hs].
  - unfold exec, node_fun.
    destruct (SupervisorFacts.supervisor_routing (llm env k) st) as (a & msg & -> & H).
    destruct (merge_routing st a msg) as (_ & -> & _). cbn [default].
    destruct H as [-> | [[-> _] | [[-> _] | [[-> _] | [-> _]]]]];
      vm_compute; discriminate.
  - destruct (stage_node_back_to_supervisor k n st Hs Hc) as [-> _].
    vm_compute; discriminate.
Qed.

Lemma finished_task_complete fuel : forall k n st r m,
  Graph.run (exec env) edge fuel k n st = Graph.Finished r m ->
  task_complete r = true.
Proof.
  induction fuel as [|fuel IH]; intros k n st r m; cbn; [discriminate |].
  destruct (edge n (exec env k n st)) eqn:E; try discriminate.
  - apply IH.
  - intros [= <- _]. now apply edge_end_task_complete in E.
Qed.

(** One transition from a configuration whose flags are not all
    complete: the run goes on, and not to the completion node. *)
Lemma step_not_complete k n st :
  n <> n_complete -> task_complete st = false -> all_complete st = false ->
  exists n', edge n (exec env k n st) = Graph.ToNode n'
             /\ n' <> n_complete
             /\ task_complete (exec env k n st) = false.
Proof.
  intros Hc Ht Ha. unfold edge, _router.
  destruct (decide (n = n_supervisor)) as [-> | Hs].
  - unfold exec, node_fun.
    destruct (SupervisorFacts.supervisor_routing (llm env k) st) as (a & msg & -> & H).
    destruct (merge_routing st a msg) as (-> & -> & _). rewrite Ht.
    cbn [default].
    destruct H as [-> | [[-> _] | [[-> _] | [[-> _] | [-> H]]]]];
      [exists n_signup | exists n_company | exists n_kyc | exists n_bank
      | congruence]; repeat split; discriminate.
  - destruct (stage_node_back_to_supervisor k n st Hs Hc) as [-> ->].
    rewrite Ht. exists n_supervisor. repeat split; discriminate.
Qed.

Lemma run_hits_ceiling fuel : forall k n st,
  n <> n_complete -> task_complete st = false ->
  never_all_complete env fuel k n st = true ->
  exists st', Graph.run (exec env) edge fuel k n st
              = Graph.GraphRecursionError st' (k + fuel).
Proof.
  induction fuel as [|fuel IH]; intros k n st Hn Ht Hnever.
  - exists st. cbn. f_equal. lia.
  - cbn in Hnever. apply andb_true_iff in Hnever as [Ha Hrest].
    apply negb_true_iff in Ha.
    destruct (step_not_complete k n st Hn Ht Ha) as (n' & E & Hn' & Ht').
    cbn. rewrite E in Hrest |- *.
    destruct (IH (S k) n' _ Hn' Ht' Hrest) as [st' Hrun].
    exists st'. rewrite Hrun. f_equal. lia.
Qed.

Lemma graph_invoke_unfold st :
  graph_invoke env st
  = Graph.invoke (exec env) edge recursion_limit n_supervisor st.
Proof. reflexivity. Qed.

Lemma graph_invoke_steps_le st :
  Graph.steps_of (graph_invoke env st) <= recursion_limit.
Proof. rewrite graph_invoke_unfold. apply invoke_steps_le. Qed.

Lemma graph_invoke_recursion_error_steps st st' m :
  graph_invoke env st = Graph.GraphRecursionError st' m -> m = recursion_limit.
Proof. rewrite graph_invoke_unfold. apply invoke_recursion_error_steps. Qed.

Lemma graph_invoke_hits_ceiling st :
  task_complete st = false ->
  never_all_complete env recursion_limit 0 n_supervisor st = true ->
  exists st', graph_invoke env st
              = Graph.GraphRecursionError st' recursion_limit.
Proof.
  intros Ht Hnever. rewrite graph_invoke_unfold. unfold Graph.invoke.
  generalize dependent recursion_limit. intros limit Hnever.
  destruct (run_hits_ceiling limit 0 n_supervisor st) as [st' H];
    [discriminate | exact Ht | exact Hnever |].
  exists st'. exact H.
Qed.

Lemma graph_invoke_finished_task_complete st r m :
  graph_invoke env st = Graph.Finished r m -> task_complete r = true.
Proof.
  rewrite graph_invoke_unfold. unfold Graph.invoke.
  apply finished_task_complete.
Qed.

(** The reply [process_onboarding] builds from the engine's outcome. *)
Lemma process_onboarding_unfold user_message session_id uuid :
  process_onboarding env user_message session_id uuid
  = reply_of_outcome (effective_session_id session_id uuid)
      (graph_invoke env
         (initial_state user_message (effective_session_id session_id uuid))).
Proof. reflexivity. Qed.

Lemma reply_of_error sid (o : Graph.Outcome OnboardingState) st' m :
  o = Graph.GraphRecursionError st' m ->
  status_of (reply_of_outcome sid o) = STATUS_ERROR
  /\ is_Some (error_of (reply_of_outcome sid o)).
Proof. intros ->. cbn. eauto. Qed.

Lemma reply_not_in_progress sid (o : Graph.Outcome OnboardingState) :
  (forall r m, o = Graph.Finished r m -> task_complete r = true) ->
  status_of (reply_of_outcome sid o) <> STATUS_IN_PROGRESS.
Proof.
  intros H. destruct o as [r m | r m | key m]; cbn; [| discriminate | discriminate].
  rewrite (H r m eq_refl). discriminate.
Qed.

Lemma reply_of_recursion_error user_message session_id uuid st' m :
  graph_invoke env
    (initial_state user_message (effective_session_id session_id uuid))
  = Graph.GraphRecursionError st' m ->
  status_of (process_onboarding env user_message session_id uuid) = STATUS_ERROR
  /\ is_Some (error_of (process_onboarding env user_message session_id uuid)).
Proof.
  intros H. rewrite process_onboarding_unfold. exact (reply_of_error _ _ _ _ H).
Qed.

Lemma reply_never_in_progress user_message session_id uuid :
  status_of (process_onboarding env user_message session_id uuid)
  <> STATUS_IN_PROGRESS.
Proof.
  rewrite process_onboarding_unfold. apply reply_not_in_progress.
  intros r m. apply graph_invoke_finished_task_complete.
Qed.
(** A run that has ended or is stuck stays so, and the count of its
    transitions is the number of the transition that stopped it. *)
Lemma config_stopped st0 m : forall j,
  (forall st k, config env st0 m = Ended st k ->
     config env st0 (m + j) = Ended st k /\ k <= m)
  /\ (forall key k, config env st0 m = Stuck key k ->
        config env st0 (m + j) = Stuck key k /\ k <= m).
Proof.
  assert (Hle : forall m,
            (forall st k, config env st0 m = Ended st k -> k <= m)
            /\ (forall key k, config env st0 m = Stuck key k -> k <= m)).
  { clear m. induction m as [|m [IH1 IH2]]; cbn [config].
    - split; intros; discriminate.
    - unfold step. destruct (config env st0 m) as [n st | st k | key k].
      + destruct (edge n (exec env m n st)); split; intros ? ? [=]; subst; lia.
      + split; intros ? ? [=]; subst. specialize (IH1 _ _ eq_refl). lia.
      + split; intros ? ? [=]; subst. specialize (IH2 _ _ eq_refl). lia. }
  induction j as [|j [IH1 IH2]].
  - rewrite Nat.add_0_r. split; intros ? ? H; (split; [exact H |]);
      [exact (proj1 (Hle m) _ _ H) | exact (proj2 (Hle m) _ _ H)].
  - replace (m + S j) with (S (m + j)) by lia. cbn [config].
    split; intros ? ? H.
    + destruct (IH1 _ _ H) as [-> Hk]. split; [reflexivity | exact Hk].
    + destruct (IH2 _ _ H) as [-> Hk]. split; [reflexivity | exact Hk].
Qed.

(** The engine with [fuel] transitions left follows the run and stops
    it where the run stands when the fuel is spent. *)
Lemma run_follows_config st0 fuel : forall k n st,
  config env st0 k = Running n st ->
  Graph.run (exec env) edge fuel k n st
  = outcome_of (k + fuel) (config env st0 (k + fuel)).
Proof.
  induction fuel as [|fuel IH]; intros k n st Hk.
  - rewrite Nat.add_0_r, Hk. reflexivity.
  - cbn [Graph.run].
    assert (HS : config env st0 (S k) = step env k (Running n st))
      by (cbn [config]; now rewrite Hk).
    cbn [step] in HS.
    replace (k + S fuel) with (S k + fuel) by lia.
    destruct (edge n (exec env k n st)) as [n' | | key].
    + apply IH. exact HS.
    + destruct (proj1 (config_stopped st0 (S k) fuel) _ _ HS) as [-> _].
      reflexivity.
    + destruct (proj2 (config_stopped st0 (S k) fuel) _ _ HS) as [-> _].
      reflexivity.
Qed.

Lemma graph_invoke_config st0 :
  graph_invoke env st0
  = outcome_of recursion_limit (config env st0 recursion_limit).
Proof.
  rewrite graph_invoke_unfold. unfold Graph.invoke.
  generalize recursion_limit. intros limit.
  exact (run_follows_config st0 limit 0 n_supervisor st0 eq_refl).
Qed.

(** The router never leaves its mapping. *)
Lemma edge_in_mapping k n st key :
  edge n (exec env k n st) <> Graph.NoRoute key.
Proof.
  unfold edge, _router.
  destruct (task_complete (exec env k n st)) eqn:Et; [vm_compute; discriminate |].
  destruct (decide (n = n_complete)) as [-> | Hc]; [discriminate Et |].
  destruct (decide (n = n_supervisor)) as [-> | Hs].
  - unfold exec, node_fun.
    destruct (SupervisorFacts.supervisor_routing (llm env k) st) as (a & msg & -> & H).
    destruct (merge_routing st a msg) as (_ & -> & _). cbn [default].
    destruct H as [-> | [[-> _] | [[-> _] | [[-> _] | [-> _]]]]];
      vm_compute; discriminate.
  - destruct (stage_node_back_to_supervisor k n st Hs Hc) as [-> _].
    vm_compute; discriminate.
Qed.

Lemma config_never_stuck st0 m key k : config env st0 m <> Stuck key k.
Proof.
  revert key k. induction m as [|m IH]; intros key k; cbn [config]; [discriminate |].
  unfold step. destruct (config env st0 m) as [n st | st j | key' j] eqn:E.
  - destruct (edge n (exec env m n st)) eqn:Ee; try discriminate.
    now apply edge_in_mapping in Ee.
  - discriminate.
  - apply IH.
Qed.

Lemma config_ended_task_complete st0 m st k :
  config env st0 m = Ended st k -> task_complete st = true.
Proof.
  revert st k. induction m as [|m IH]; intros st k; cbn [config]; [discriminate |].
  unfold step. destruct (config env st0 m) as [n st1 | st1 j | key j] eqn:E.
  - destruct (edge n (exec env m n st1)) eqn:Ee; try discriminate.
    intros [= <- _]. now apply edge_end_task_complete in Ee.
  - apply IH.
  - discriminate.
Qed.

(** The reply for a run that is still going at the ceiling, and for
    one that ended within it. *)
Lemma reply_at_ceiling user_message session_id uuid n st :
  config env (initial_state user_message (effective_session_id session_id uuid))
    recursion_limit = Running n st ->
  process_onboarding env user_message session_id uuid
  = ceiling_reply (effective_session_id session_id uuid).
Proof.
  intros H. rewrite process_onboarding_unfold, graph_invoke_config, H. reflexivity.
Qed.

Lemma reply_within_ceiling user_message session_id uuid m st k :
  m <= recursion_limit ->
  config env (initial_state user_message (effective_session_id session_id uuid)) m
  = Ended st k ->
  k <= m
  /\ process_onboarding env user_message session_id uuid
     = completed_reply (effective_session_id session_id uuid) st.
Proof.
  intros Hm H.
  destruct (proj1 (config_stopped _ m (recursion_limit - m)) _ _ H) as [H' Hk].
  replace (m + (recursion_limit - m)) with recursion_limit in H' by lia.
  split; [exact Hk |].
  rewrite process_onboarding_unfold, graph_invoke_config, H'.
  cbn [outcome_of reply_of_outcome].
  rewrite (config_ended_task_complete _ _ _ _ H). reflexivity.
Qed.

Lemma never_all_complete_running st0 :
  never_all_complete env recursion_limit 0 n_supervisor st0 = true ->
  task_complete st0 = false ->
  exists n st, config env st0 recursion_limit = Running n st.
Proof.
  intros Hnever Ht.
  destruct (graph_invoke_hits_ceiling st0 Ht Hnever) as [st' H].
  rewrite graph_invoke_config in H.
  destruct (config env st0 recursion_limit) as [n st | st k | key k];
    [eauto | discriminate H | discriminate H].
Qed.
End Run.

(** The engine consults the world at the transitions it makes only. *)
Lemma run_agree env env' fuel : forall k n st,
  agree (k + fuel) env env' ->
  Graph.run (exec env) edge fuel k n st = Graph.run (exec env') edge fuel k n st.
Proof.
  induction fuel as [|fuel IH]; intros k n st Ha; [reflexivity |].
  cbn [Graph.run].
  assert (He : exec env k n st = exec env' k n st).
  { destruct (Ha k ltac:(lia)) as (H1 & H2 & H3 & H4).
    unfold exec, node_fun. destruct n; now rewrite ?H1, ?H2, ?H3, ?H4. }
  rewrite He. destruct (edge n (exec env' k n st)); try reflexivity.
  apply IH. intros j Hj. apply Ha. lia.
Qed.

Lemma process_onboarding_agree env env' user_message session_id uuid :
  agree recursion_limit env env' ->
  process_onboarding env' user_message session_id uuid
  = process_onboarding env user_message session_id uuid.
Proof.
  intros Ha. rewrite !process_onboarding_unfold, !graph_invoke_unfold.
  unfold Graph.invoke. f_equal. symmetry.
  revert Ha. generalize recursion_limit. intros limit Ha.
  apply run_agree. exact Ha.
Qed.

(** C3: every run of [process_onboarding] makes at most 50 graph
    transitions: its reply is the same in any two worlds that do the
    same at the first 50 transitions.  A run whose flags are never all
    complete is still going when 50 transitions have been made and is
    aborted there by the engine's recursion error, which is only ever
    raised at 50 transitions; the caller then gets the error result
    (status "error" with the error text), never an "in_progress" reply.
    The ceiling cuts no run short: a run that ends at any transition up
    to the 50th gets the "completed" reply of its final state, and only
    a run that is still going after the 50th gets the error. *)
Theorem process_onboarding_step_ceiling (env : Env) (user_message : string)
    (session_id : option string) (uuid : string) :
  let sid := effective_session_id session_id uuid in
  let st0 := initial_state user_message sid in
  let reply := process_onboarding env user_message session_id uuid in
  Graph.steps_of (graph_invoke env st0) <= recursion_limit
  /\ (never_all_complete env recursion_limit 0 n_supervisor st0 = true ->
      (exists st', graph_invoke env st0
                   = Graph.GraphRecursionError st' recursion_limit)
      /\ status_of reply = STATUS_ERROR /\ is_Some (error_of reply)
      /\ (exists n st, config env st0 recursion_limit = Running n st)
      /\ reply = ceiling_reply sid)
  /\ (forall st' m,
        graph_invoke env st0 = Graph.GraphRecursionError st' m ->
        m = recursion_limit
        /\ status_of reply = STATUS_ERROR /\ is_Some (error_of reply))
  /\ status_of reply <> STATUS_IN_PROGRESS
  /\ recursion_limit = 50
  /\ (forall env', agree recursion_limit env env' ->
        process_onboarding env' user_message session_id uuid = reply)
  /\ (forall m st k,
        m <= recursion_limit -> config env st0 m = Ended st k ->
        k <= m /\ reply = completed_reply sid st
        /\ status_of reply = STATUS_COMPLETED)
  /\ (forall n st,
        config env st0 recursion_limit = Running n st ->
        reply = ceiling_reply sid)
  /\ (forall m key k, config env st0 m <> Stuck key k).
Proof.
  intros sid st0 reply. subst sid st0 reply.
  split; [| split; [| split; [| split; [| split; [| split; [| split; [| split]]]]]]].
  - apply graph_invoke_steps_le.
  - intros Hnever.
    destruct (graph_invoke_hits_ceiling env
                (initial_state user_message (effective_session_id session_id uuid))
                eq_refl Hnever) as [st' H].
    split; [exists st'; exact H |].
    destruct (reply_of_recursion_error env _ _ _ _ _ H) as [H1 H2].
    split; [exact H1 | split; [exact H2 |]].
    destruct (never_all_complete_running env _ Hnever eq_refl) as (n & st & Hc).
    split; [exists n, st; exact Hc |].
    exact (reply_at_ceiling env _ _ _ _ _ Hc).
  - intros st' m H. split.
    + exact (graph_invoke_recursion_error_steps env _ _ _ H).
    + exact (reply_of_recursion_error env _ _ _ _ _ H).
  - apply reply_never_in_progress.
  - reflexivity.
  - intros env' Ha. now apply process_onboarding_agree.
  - intros m st k Hm Hc.
    destruct (reply_within_ceiling env _ _ _ _ _ _ Hm Hc) as [Hk Hr].
    split; [exact Hk | split; [exact Hr |]]. rewrite Hr. reflexivity.
  - intros n st Hc. exact (reply_at_ceiling env _ _ _ _ _ Hc).
  - intros m key k. apply config_never_stuck.
Qed.

Lemma process_onboarding_step_ceiling_witness :
  never_all_complete failing_env recursion_limit 0 n_supervisor
    (initial_state "hello" (effective_session_id (Some "s1") "u1")) = true
  /\ process_onboarding failing_env "hello" (Some "s1") "u1"
     = ceiling_reply "s1".
Proof.
  assert (H : never_all_complete failing_env recursion_limit 0 n_supervisor
                (initial_state "hello" (effective_session_id (Some "s1") "u1"))
              = true)
    by (vm_compute; reflexivity).
  split; [exact H |].
  exact (proj2 (proj2 (proj2 (proj2 (proj1 (proj2
           (process_onboarding_step_ceiling failing_env "hello" (Some "s1") "u1"))
           H))))).
Defined.

End CeilingFacts.

(** ** Retries of the external call *)

Module ApiFacts.
Import Api.

Lemma call_result_success o st :
  fst (fst (call_result o st)) = Some (negb (is_failure o)).
Proof. destruct o as [eid| | | |]; try reflexivity. unfold call_result; cbn. destruct (Py.truthy eid); reflexivity. Qed.

Lemma call_result_indep o st st2 : call_result o st = call_result o st2.
Proof. destruct o as [eid| | | |]; try reflexivity. unfold call_result; cbn. destruct (Py.truthy eid); reflexivity. Qed.

Lemma retry_count_after_call o st :
  retry_count (merge st (call_external_api o st)) = retry_count st.
Proof. destruct o as [eid| | | |]; try reflexivity. unfold call_result; cbn. destruct (Py.truthy eid); reflexivity. Qed.

Lemma result_fields_after_call o st :
  result_fields (merge st (call_external_api o st)) = call_result o st.
Proof. reflexivity. Qed.

(** [handle_api_retry] touches [retry_count] only. *)
Lemma result_fields_after_handle st :
  result_fields (merge st (fst (handle_api_retry st))) = result_fields st.
Proof.
  unfold handle_api_retry.
  destruct (default false (success st)); [reflexivity |].
  destruct (_ <? _)%nat; reflexivity.
Qed.

Lemma retry_count_after_handle st :
  default 0 (retry_count (merge st (fst (handle_api_retry st))))
  = if default false (success st) then default 0 (retry_count st)
    else if (default 0 (retry_count st) <? max_retries)%nat
         then default 0 (retry_count st) + 1
         else default 0 (retry_count st).
Proof.
  unfold handle_api_retry.
  destruct (default false (success st)); [reflexivity |].
  destruct (_ <? _)%nat; reflexivity.
Qed.

Lemma posts_after_handle st w (http : nat -> HttpOutcome) now k :
  posts (snd (exec http now k n_handle_retry (st, w))) = posts w.
Proof. cbn. now destruct (handle_api_retry st). Qed.

Lemma state_after_handle st w (http : nat -> HttpOutcome) now k :
  fst (exec http now k n_handle_retry (st, w)) = merge st (fst (handle_api_retry st)).
Proof. cbn. now destruct (handle_api_retry st). Qed.

Section Loop.
Variable http : nat -> HttpOutcome.
Variable now : Z.

Lemma run_attempt fuel k st w :
  Graph.run (exec http now) edge (S (S fuel)) k n_call_api (st, w)
  = match path_map (router (fst (after_attempt http now k st w))) with
    | Graph.ToNode n' =>
        Graph.run (exec http now) edge fuel (S (S k)) n' (after_attempt http now k st w)
    | Graph.ToEnd => Graph.Finished (after_attempt http now k st w) (S (S k))
    | Graph.NoRoute key => Graph.RouteError key (S (S k))
    end.
Proof. reflexivity. Qed.

Lemma after_attempt_spec k st w :
  let o := http (posts w) in
  let c2 := after_attempt http now k st w in
  posts (snd c2) = S (posts w)
  /\ result_fields (fst c2) = call_result o (fst c2)
  /\ success (fst c2) = Some (negb (is_failure o))
  /\ default 0 (retry_count (fst c2))
     = if is_failure o
       then if (default 0 (retry_count st) <? max_retries)%nat
            then default 0 (retry_count st) + 1
            else default 0 (retry_count st)
       else default 0 (retry_count st).
Proof.
  intros o c2. subst c2. unfold after_attempt.
  change (exec http now k n_call_api (st, w))
    with (merge st (call_external_api o st),
          mkWorld (S (posts w)) (log w ++ [EvPost o])).
  set (st1 := merge st (call_external_api o st)).
  assert (Hs1 : success st1 = Some (negb (is_failure o)))
    by (apply (call_result_success o st)).
  assert (Hr1 : retry_count st1 = retry_count st)
    by (apply retry_count_after_call).
  rewrite posts_after_handle, state_after_handle.
  split; [reflexivity |].
  assert (Hf : result_fields (merge st1 (fst (handle_api_retry st1)))
               = call_result o st).
  { rewrite result_fields_after_handle. reflexivity. }
  split; [rewrite Hf; apply call_result_indep |].
  split.
  - pose proof (f_equal (fun t => fst (fst t)) (result_fields_after_handle st1)) as Hx.
    unfold result_fields in Hx. cbn [fst] in Hx. rewrite Hx. exact Hs1.
  - rewrite retry_count_after_handle, Hs1, Hr1. cbn [default].
    destruct (is_failure o); reflexivity.
Qed.

Lemma router_after_attempt k st w :
  router (fst (after_attempt http now k st w))
  = if is_failure (http (posts w))
    then if (default 0 (retry_count st) <? max_retries)%nat
            && (default 0 (retry_count st) + 1 <? max_retries)%nat
         then "call_api" else END
    else END.
Proof.
  destruct (after_attempt_spec k st w) as (_ & _ & Hs & Hr).
  unfold router. rewrite Hs, Hr. cbn [default].
  destruct (is_failure (http (posts w))); [| reflexivity]. cbn [negb].
  destruct (default 0 (retry_count st) <? max_retries)%nat eqn:E; [reflexivity |].
  cbn [andb]. rewrite E. reflexivity.
Qed.

(** The loop call_api -> handle_retry -> router, entered with
    [S b] attempts left. *)
Lemma retry_loop b : forall fuel k st w,
  default 0 (retry_count st) + S b = max_retries ->
  2 * S b <= fuel ->
  exists st' w' steps,
    Graph.run (exec http now) edge fuel k n_call_api (st, w)
    = Graph.Finished (st', w') steps
    /\ posts w' = posts w + attempts_from http (posts w) (S b)
    /\ result_fields st' = call_result (http (posts w' - 1)) st'.
Proof.
  induction b as [|b IH]; intros fuel k st w Hr Hfuel.
  all: destruct fuel as [|[|fuel]]; [lia | lia |].
  all: rewrite run_attempt, router_after_attempt.
  all: destruct (after_attempt_spec k st w) as (Hp & Hf & _ & Hrc).
  all: cbn [attempts_from].
  all: destruct (is_failure (http (posts w))) eqn:Efail.
  all: replace (default 0 (retry_count st) <? max_retries)%nat with true in *
         by (symmetry; apply Nat.ltb_lt; lia).
  all: cbn [andb].
  all: try (change (path_map END) with (@Graph.ToEnd Node);
            destruct (after_attempt http now k st w) as [st2 w2]; cbn [fst snd] in *;
            exists st2, w2, (S (S k));
            split; [reflexivity |];
            split; [lia |];
            rewrite Hp; replace (S (posts w) - 1) with (posts w) by lia;
            exact Hf).
  - (* the last attempt failed: the budget is used up *)
    replace (default 0 (retry_count st) + 1 <? max_retries)%nat with false
      by (symmetry; apply Nat.ltb_ge; lia).
    change (path_map END) with (@Graph.ToEnd Node).
    destruct (after_attempt http now k st w) as [st2 w2]; cbn [fst snd] in *.
    exists st2, w2, (S (S k)).
    split; [reflexivity |]. split; [lia |].
    rewrite Hp. replace (S (posts w) - 1) with (posts w) by lia. exact Hf.
  - (* failed with attempts left: back to call_api *)
    replace (default 0 (retry_count st) + 1 <? max_retries)%nat with true
      by (symmetry; apply Nat.ltb_lt; lia).
    change (path_map "call_api") with (Graph.ToNode n_call_api).
    destruct (after_attempt http now k st w) as [st2 w2]; cbn [fst snd] in *.
    destruct (IH fuel (S (S k)) st2 w2) as (st' & w' & steps & Hrun & Hposts & Hres);
      [lia | lia |].
    exists st', w', steps. split; [exact Hrun |].
    split; [| exact Hres].
    rewrite Hposts, Hp. cbn [attempts_from]. lia.
Qed.
End Loop.

Section Policy.
Variable http : nat -> HttpOutcome.
Variable now : Z.

Lemma api_graph_unfold input :
  api_graph http now input
  = Graph.run (exec http now) edge 24 1 n_call_api
      (merge input (prepare_api_request now input), world0).
Proof. reflexivity. Qed.

Lemma attempts_three :
  attempts_from http 0 3
  = if is_failure (http 0) then if is_failure (http 1) then 3 else 2 else 1.
Proof.
  cbn. destruct (is_failure (http 0)), (is_failure (http 1)), (is_failure (http 2));
    reflexivity.
Qed.
End Policy.

(** C7, as stated, fails: an HTTP 404 answer and an answer without
    entity_id are not transient failures, and each is followed by two
    more requests. *)
Lemma non_transient_failures_are_retried :
  transient (Examples.always_404 0) = false
  /\ transient (Examples.never_entity_id 0) = false
  /\ requests_sent
       (api_graph Examples.always_404 0 (SignupAgent.api_input Examples.valid_signup)) = 3
  /\ requests_sent
       (api_graph Examples.never_entity_id 0 (SignupAgent.api_input Examples.valid_signup)) = 3.
Proof. repeat split; vm_compute; reflexivity. Qed.

(** C7 (amended): the external entity-creation call is attempted again
    after every failed attempt, whatever the kind of the failure
    (timeout, connection error, HTTP error status, missing entity_id,
    other exception), until one attempt succeeds or three attempts have
    been made; the graph then ends, and the final result is that of the
    last attempt. *)
Theorem api_retries_every_failure (http : nat -> HttpOutcome) (now : Z)
    (input : APIState) :
  default 0 (retry_count input) = 0 ->
  exists st w steps,
    api_graph http now input = Graph.Finished (st, w) steps
    /\ posts w
       = (if is_failure (http 0) then if is_failure (http 1) then 3 else 2 else 1)
    /\ result_fields st = call_result (http (posts w - 1)) st.
Proof.
  intros Hr. rewrite api_graph_unfold.
  destruct (retry_loop http now 2 24 1
              (merge input (prepare_api_request now input)) world0)
    as (st & w & steps & Hrun & Hposts & Hres).
  - change (retry_count (merge input (prepare_api_request now input)))
      with (retry_count input). rewrite Hr. reflexivity.
  - lia.
  - exists st, w, steps. split; [exact Hrun |]. split; [| exact Hres].
    rewrite Hposts. change (posts world0) with 0. rewrite attempts_three.
    reflexivity.
Qed.

Lemma api_retries_every_failure_witness :
  default 0 (retry_count (SignupAgent.api_input Examples.valid_signup)) = 0
  /\ exists st w steps,
       api_graph Examples.always_timeout 0 (SignupAgent.api_input Examples.valid_signup)
       = Graph.Finished (st, w) steps
       /\ posts w = 3
       /\ result_fields st = call_result (Examples.always_timeout (posts w - 1)) st.
Proof.
  split; [reflexivity |].
  exact (api_retries_every_failure Examples.always_timeout 0
           (SignupAgent.api_input Examples.valid_signup) eq_refl).
Defined.

End ApiFacts.

(** ** Validation of the signup input *)

Module SignupFacts.
Import SignupAgent.

(** The validation graph always runs its four nodes. *)
Lemma validation_runs_all_nodes input :
  exists st, Validation.validation_graph input = Graph.Finished st 4.
Proof. eexists. reflexivity. Qed.

Lemma bad_signup_validation :
  _validate_user_data Examples.bad_signup
  = mkValidationResult false false false false
      ["Name must be at least 2 characters"; "Invalid email format";
       "Phone must be between 10 and 15 digits"].
Proof. vm_compute. reflexivity. Qed.

(** A valid form is accepted after one request to the external service. *)
Example valid_signup_accepted :
  let '(result, requests) :=
    process_signup Examples.always_ok 0 Examples.valid_signup (Some "s1") "uuid-1" in
  success result = true
  /\ entity_id result = PStr "ENT123456"
  /\ requests = [Api.EvPost (Api.Responded (PStr "ENT123456"))].
Proof. vm_compute. repeat split. Qed.

(** C4: for the signup input {name:"A", email:"bad-email", phone:"123"}
    every field is validated (the three validity flags are all written,
    all false), [process_signup] returns success=false with exactly the
    three errors in order, and no request to the external service is
    made. *)
Theorem bad_signup_rejected (http : nat -> Api.HttpOutcome) (now : Z)
    (session_id : option string) (uuid : string) :
  let '(result, requests) :=
    process_signup http now Examples.bad_signup session_id uuid in
  success result = false
  /\ status result = "validation_failed"
  /\ errors result
     = ["Name must be at least 2 characters"; "Invalid email format";
        "Phone must be between 10 and 15 digits"]
  /\ requests = []
  /\ exists st,
       Validation.validation_graph
         (Validation.mkValidationState (PStr "A") (PStr "bad-email") (PStr "123")
            None None None None [])
       = Graph.Finished st 4
       /\ Validation.name_valid st = Some false
       /\ Validation.email_valid st = Some false
       /\ Validation.phone_valid st = Some false
       /\ Validation.validation_complete st = Some false.
Proof.
  unfold process_signup. rewrite bad_signup_validation. cbn.
  repeat split.
  eexists. split; [vm_compute; reflexivity |]. repeat split.
Qed.

End SignupFacts.

(** ** The state store: saving and loading *)

Module StoreFacts.
Import StateManager.

Lemma transaction_two_ops fault (f1 f2 : Database -> unit * Database) d :
  transaction fault (db_op fault f1 ;;; db_op fault f2) d
  = if match fault with Some i => (i <? 4)%nat | None => false end
    then (None, d)
    else (Some (fst (f2 (snd (f1 d)))), snd (f2 (snd (f1 d)))).
Proof.
  unfold transaction, bind, acquire, commit, db_op, ret.
  destruct (f1 d) as [[] d1] eqn:E1. cbn [fst snd].
  destruct fault as [[|[|[|[|n]]]]|]; cbn [Nat.ltb Nat.leb];
    repeat (case_decide; try congruence; try rewrite E1; cbn [fst snd]);
    destruct (f2 d1) as [[] d2]; try reflexivity;
    repeat (case_decide; try congruence).
Qed.

Lemma save_state_cases m f now sid state w :
  pool m = true ->
  save_state m f now sid state w
  = if durable_write_fails f
    then (Return false, stamp_state now now state, w)
    else
      let state' := stamp_state now now state in
      let d' := snd (upsert_state now sid state'
                       (snd (upsert_session now sid state' (db w)))) in
      (Return true, state',
       best_effort_publish m f sid state'
         (best_effort_cache m f sid state'
            (mkWorld d' (cache w) (published w)
               (trace w ++ [EvDurableWrite sid])))).
Proof.
  intros Hp. unfold save_state, durable_write_fails. rewrite Hp. cbn [negb].
  rewrite transaction_two_ops.
  destruct (match db_fault f with Some i => (i <? 4)%nat | None => false end);
    reflexivity.
Qed.

Lemma best_effort_cache_trace m f sid state w :
  db (best_effort_cache m f sid state w) = db w
  /\ exists later, trace (best_effort_cache m f sid state w) = trace w ++ later
                   /\ forallb best_effort later = true.
Proof.
  unfold best_effort_cache.
  destruct (_cache_enabled m); [destruct (cache_write_fault f) |]; cbn;
    (split; [reflexivity |]);
    [ exists [EvCacheWrite sid false] | exists [EvCacheWrite sid true] | exists [] ];
    split; try reflexivity.
  now rewrite app_nil_r.
Qed.

Lemma best_effort_publish_trace m f sid state w :
  db (best_effort_publish m f sid state w) = db w
  /\ exists later, trace (best_effort_publish m f sid state w) = trace w ++ later
                   /\ forallb best_effort later = true.
Proof.
  unfold best_effort_publish.
  destruct (_pubsub_enabled m); [destruct (pubsub_fault f) |]; cbn;
    (split; [reflexivity |]);
    [ exists [EvPublish sid false] | exists [EvPublish sid true] | exists [] ];
    split; try reflexivity.
  now rewrite app_nil_r.
Qed.





(** A cache that cannot be reached at startup switches the cache and
    the pub/sub off; the store then works on the durable store alone. *)
Lemma initialize_without_cache enable_cache available :
  initialize uninitialized true enable_cache available NotConnected
  = Return (mkManager true false false)
  /\ initialize uninitialized true enable_cache available ProbeRaises
     = Return (mkManager true false false).
Proof. destruct enable_cache, available; split; reflexivity. Qed.

Lemma load_from_db_read_fails m f now sid w :
  durable_read_fails f = true ->
  load_from_db m f now sid w = (Return (default_state now sid), w).
Proof.
  unfold durable_read_fails, load_from_db, bind, acquire, db_op, fetch_state.
  destruct (db_fault f) as [[|[|n]]|]; try discriminate; intros _;
    repeat (case_decide; try congruence); reflexivity.
Qed.

Lemma load_from_db_missing m f now sid w :
  durable_read_fails f = false ->
  onboarding_state (db w) !! sid = None ->
  load_from_db m f now sid w = (Return (default_state now sid), w).
Proof.
  unfold durable_read_fails, load_from_db, bind, acquire, db_op, fetch_state.
  intros Hf Hnone.
  destruct (db_fault f) as [[|[|n]]|]; try discriminate;
    repeat (case_decide; try congruence); rewrite Hnone; reflexivity.
Qed.

Lemma load_state_cache_miss m f now sid w :
  pool m = true -> cache_hit m f sid w = false ->
  load_state m f now sid w = load_from_db m f now sid w.
Proof.
  unfold load_state, cache_hit. intros -> H. cbn [negb].
  destruct (_cache_enabled m && negb (cache_read_fault f)); [| reflexivity].
  cbn [andb] in H. destruct (cache w !! cache_key sid); [| reflexivity].
  rewrite H. reflexivity.
Qed.

(** C6, as stated, fails: with a session saved at step "kyc", a failing
    durable read makes [load_state] return the fresh default session,
    the very value it returns for a session that was never saved, and
    not the stored one. *)
Lemma load_state_hides_read_failure :
  let saved := save_state Examples.ready no_faults "t0" "s1" Examples.kyc_state
                 empty_world in
  fst (fst saved) = Return true
  /\ fst (load_state Examples.ready Examples.db_down "t1" "s1" (snd saved))
     = Return (default_state "t1" "s1")
  /\ fst (load_state Examples.ready no_faults "t1" "s1" empty_world)
     = Return (default_state "t1" "s1")
  /\ fst (load_state Examples.ready no_faults "t1" "s1" (snd saved))
     <> Return (default_state "t1" "s1").
Proof.
  cbv zeta. repeat split; try (vm_compute; reflexivity).
  intros H.
  assert (H' : (match fst (load_state Examples.ready no_faults "t1" "s1"
                             (snd (save_state Examples.ready no_faults "t0" "s1"
                                     Examples.kyc_state empty_world))) with
                | Return d => d !! "current_step"
                | Raise _ => None
                end) = default_state "t1" "s1" !! "current_step")
    by (rewrite H; reflexivity).
  vm_compute in H'. discriminate H'.
Qed.

(** C6 (amended): a failing durable write is surfaced, [save_state]
    returns false; a failing durable read is not: [load_state] then
    returns the fresh default session (version 1.0, step "welcome",
    status "active"), which is also what it returns when the record is
    missing. *)
Theorem durable_failures_as_returned (m : Manager) (f : Faults)
    (now sid : string) (state : gmap string pyval) (w : World) :
  pool m = true ->
  (durable_write_fails f = true ->
   fst (fst (save_state m f now sid state w)) = Return false)
  /\ (cache_hit m f sid w = false -> durable_read_fails f = true ->
      load_state m f now sid w = (Return (default_state now sid), w))
  /\ (cache_hit m f sid w = false -> durable_read_fails f = false ->
      onboarding_state (db w) !! sid = None ->
      load_state m f now sid w = (Return (default_state now sid), w)).
Proof.
  intros Hp. split; [| split].
  - intros Hf. rewrite (save_state_cases m f now sid state w Hp), Hf. reflexivity.
  - intros Hc Hf. rewrite (load_state_cache_miss m f now sid w Hp Hc).
    apply load_from_db_read_fails, Hf.
  - intros Hc Hf Hnone. rewrite (load_state_cache_miss m f now sid w Hp Hc).
    apply load_from_db_missing; assumption.
Qed.

Lemma durable_failures_as_returned_witness :
  pool Examples.ready = true
  /\ cache_hit Examples.ready Examples.db_down "s1" empty_world = false
  /\ durable_read_fails Examples.db_down = true
  /\ durable_write_fails Examples.db_down = true
  /\ fst (fst (save_state Examples.ready Examples.db_down "t0" "s1"
                 Examples.kyc_state empty_world)) = Return false
  /\ load_state Examples.ready Examples.db_down "t1" "s1" empty_world
     = (Return (default_state "t1" "s1"), empty_world).
Proof.
  pose proof (durable_failures_as_returned Examples.ready Examples.db_down
                "t0" "s1" Examples.kyc_state empty_world eq_refl) as (H1 & _ & _).
  pose proof (durable_failures_as_returned Examples.ready Examples.db_down
                "t1" "s1" Examples.kyc_state empty_world eq_refl) as (_ & H2 & _).
  do 4 (split; [reflexivity |]).
  split; [exact (H1 eq_refl) | exact (H2 eq_refl eq_refl)].
Defined.

End StoreFacts.

(** ** The state store: entity features *)

Module FeatureFacts.
Import StateManager.

Section Hoare.
Variable fault : option nat.

Lemma triple_ret {A} (a : A) (P : Database -> Prop) :
  triple P (ret a) (fun _ d => P d).
Proof. intros d n a' d' n' HP [= _ <- _]. exact HP. Qed.

Lemma triple_bind {A B} (m : Tx A) (f : A -> Tx B) P Q R :
  triple P m Q -> (forall a, triple (Q a) (f a) R) -> triple P (bind m f) R.
Proof.
  intros Hm Hf d n b d' n' HP. unfold bind.
  destruct (m d n) as [[[a d1] n1]|] eqn:E; [| discriminate].
  intros H. exact (Hf a d1 n1 b d' n' (Hm _ _ _ _ _ HP E) H).
Qed.

Lemma triple_db_op {A} (f : Database -> A * Database) (P : Database -> Prop)
    (Q : A -> Database -> Prop) :
  (forall d, P d -> Q (fst (f d)) (snd (f d))) -> triple P (db_op fault f) Q.
Proof.
  intros H d n a d' n' HP. unfold db_op. case_decide; [discriminate |].
  destruct (f d) as [a0 d0] eqn:E. intros [= <- <- _].
  specialize (H d HP). rewrite E in H. exact H.
Qed.

Lemma triple_weaken {A} (m : Tx A) (P P' : Database -> Prop)
    (Q Q' : A -> Database -> Prop) :
  (forall d, P' d -> P d) -> (forall a d, Q a d -> Q' a d) ->
  triple P m Q -> triple P' m Q'.
Proof. intros HP HQ H d n a d' n' H1 H2. eauto. Qed.

(** A transaction ends in a database satisfying [Q] when its body
    establishes [Q] and the database it started from satisfies it
    (the case of a rollback). *)
Lemma transaction_post {A} (body : Tx A) (P Q : Database -> Prop) d :
  triple P body (fun _ => Q) -> P d -> Q d ->
  Q (snd (transaction fault body d)).
Proof.
  intros Hbody HP HQ. unfold transaction.
  destruct (bind _ _ d 0) as [[[a d'] n']|] eqn:E; [| exact HQ].
  cbn [snd]. revert E. unfold bind at 1, acquire, db_op.
  case_decide; [discriminate |]. unfold bind at 1.
  destruct (body d 1) as [[[a1 d1] n1]|] eqn:Eb; [| discriminate].
  unfold bind, commit, db_op, ret. case_decide; [discriminate |].
  intros [= _ <- _]. exact (Hbody _ _ _ _ _ HP Eb).
Qed.
End Hoare.

Lemma flags_kept_refl r : flags_kept r r.
Proof. unfold flags_kept. tauto. Qed.

Lemma flags_kept_trans r1 r2 r3 :
  flags_kept r1 r2 -> flags_kept r2 r3 -> flags_kept r1 r3.
Proof. unfold flags_kept. tauto. Qed.

Lemma set_fields_kept e u p o now r : flags_kept r (set_fields e u p o now r).
Proof. unfold flags_kept. cbn. tauto. Qed.

Lemma mark_completed_kept ft data now r : flags_kept r (mark_completed ft data now r).
Proof. unfold flags_kept. destruct ft; cbn; tauto. Qed.

Lemma mark_onboarding_kept now r : flags_kept r (mark_onboarding now r).
Proof. unfold flags_kept. cbn. tauto. Qed.

Lemma flags_monotone_refl d : flags_monotone d d.
Proof. intros sid r H. exists r. split; [exact H | apply flags_kept_refl]. Qed.

(** An UPDATE that keeps the flags keeps every row's flags. *)
Lemma update_features_monotone d0 d sid upd :
  (forall r, flags_kept r (upd r)) ->
  flags_monotone d0 d ->
  flags_monotone d0 (snd (update_features sid upd d)).
Proof.
  intros Hupd HM sid' r Hr. destruct (HM sid' r Hr) as (r' & Hr' & Hk).
  cbn. rewrite lookup_alter. case_decide as Heq.
  - subst sid'. rewrite Hr'. cbn. exists (upd r'). split; [reflexivity |].
    eapply flags_kept_trans; [exact Hk | apply Hupd].
  - exists r'. split; [exact Hr' | exact Hk].
Qed.

Section Body.
Variable fault : option nat.
Variables now uuid sid : string.
Variables eid email phone org feature : option string.
Variable fdata : option (gmap string pyval).

Local Abbreviation body :=
  (save_entity_feature_body fault now uuid sid eid email phone org feature fdata).

(** The body of [save_entity_feature] clears no flag of any row. *)
Lemma body_monotone d0 :
  triple (flags_monotone d0) body (fun _ => flags_monotone d0).
Proof.
  unfold save_entity_feature_body.
  eapply triple_bind with
    (Q := fun existing d => flags_monotone d0 d
                            /\ existing = entity_features d !! sid).
  { apply triple_db_op. intros d HM. cbn. split; [exact HM | reflexivity]. }
  intros existing.
  eapply triple_bind with (Q := fun _ d => flags_monotone d0 d).
  { destruct existing as [r0|].
    - destruct (_ || _).
      + apply triple_db_op. intros d [HM _].
        apply update_features_monotone; [intros; apply set_fields_kept | exact HM].
      + eapply triple_weaken; [| | apply triple_ret]; cbn; [intros d H; exact H |].
        intros _ d [HM _]. exact HM.
    - apply triple_db_op. intros d [HM Hnone] sid' r Hr.
      destruct (HM sid' r Hr) as (r' & Hr' & Hk).
      destruct (decide (sid' = sid)) as [-> | Hne]; [congruence |].
      exists r'. split; [| exact Hk]. cbn. rewrite lookup_insert_ne; auto. }
  intros _.
  eapply triple_bind with (Q := fun _ d => flags_monotone d0 d).
  { destruct (str_truthy feature); [| apply triple_ret].
    destruct (feature_map _) as [ft|]; [| apply triple_ret].
    destruct (_ && _); apply triple_db_op; intros d HM;
      (apply update_features_monotone;
       [intros; apply mark_completed_kept | exact HM]). }
  intros _.
  eapply triple_bind with (Q := fun _ d => flags_monotone d0 d).
  { apply triple_db_op. intros d HM. exact HM. }
  intros [r|]; [| apply triple_ret].
  destruct (all_features_completed r); [| apply triple_ret].
  apply triple_db_op. intros d HM.
  apply update_features_monotone; [intros; apply mark_onboarding_kept | exact HM].
Qed.

Lemma consistent_weaken d : features_consistent d -> consistent_but sid d.
Proof.
  intros H. split.
  - intros sid' r _ Hr. exact (H sid' r Hr).
  - intros r Hr Ho. rewrite <- (H sid r Hr). exact Ho.
Qed.

Lemma mark_completed_raises ft data r :
  onboarding_completed (mark_completed ft data now r) = onboarding_completed r
  /\ (all_features_completed r = true ->
      all_features_completed (mark_completed ft data now r) = true).
Proof.
  unfold all_features_completed.
  destruct ft; cbn; (split; [reflexivity |]);
    rewrite !andb_true_iff; tauto.
Qed.

(** The body of [save_entity_feature] keeps [onboarding_completed]
    equal to the conjunction of the four flags in every row. *)
Lemma body_consistent :
  triple features_consistent body (fun _ => features_consistent).
Proof.
  unfold save_entity_feature_body.
  eapply triple_bind with (Q := fun _ d => features_consistent d).
  { apply triple_db_op. intros d H. exact H. }
  intros existing.
  eapply triple_bind with (Q := fun _ d => features_consistent d).
  { destruct existing as [r0|].
    - destruct (_ || _); [| apply triple_ret].
      apply triple_db_op. intros d H sid' r. cbn.
      rewrite lookup_alter. case_decide as Heq; [| apply H].
      destruct (entity_features d !! sid) as [r1|] eqn:E; [| discriminate].
      intros [= <-]. cbn. exact (H sid r1 E).
    - apply triple_db_op. intros d H sid' r. cbn.
      destruct (decide (sid' = sid)) as [-> | Hne].
      + rewrite lookup_insert_eq. intros [= <-]. reflexivity.
      + rewrite lookup_insert_ne by auto. apply H. }
  intros _.
  eapply triple_bind with (Q := fun _ d => consistent_but sid d).
  { destruct (str_truthy feature);
      [| eapply triple_weaken; [| | apply triple_ret]; cbn;
         [intros d H; exact H | intros _ d; apply consistent_weaken]].
    destruct (feature_map _) as [ft|];
      [| eapply triple_weaken; [| | apply triple_ret]; cbn;
         [intros d H; exact H | intros _ d; apply consistent_weaken]].
    assert (Hmark : forall data d,
               features_consistent d ->
               consistent_but sid
                 (snd (update_features sid (mark_completed ft data now) d))).
    { intros data d H. split.
      - intros sid' r Hne. cbn. rewrite lookup_alter.
        case_decide; [congruence |]. apply H.
      - intros r. cbn. rewrite lookup_alter. case_decide; [| congruence].
        destruct (entity_features d !! sid) as [r1|] eqn:E; [| discriminate].
        intros [= <-] Ho.
        destruct (mark_completed_raises ft data r1) as [Hob Hall].
        rewrite Hob in Ho. apply Hall. rewrite <- (H sid r1 E). exact Ho. }
    destruct (_ && _); apply triple_db_op; intros d H; apply Hmark, H. }
  intros _.
  eapply triple_bind with
    (Q := fun result d => consistent_but sid d
                          /\ result = entity_features d !! sid).
  { apply triple_db_op. intros d H. cbn. split; [exact H | reflexivity]. }
  intros result.
  assert (Hkeep : forall d,
             consistent_but sid d ->
             (forall r, entity_features d !! sid = Some r ->
                        all_features_completed r = false) ->
             features_consistent d).
  { intros d [Hothers Hsid] Hnot sid' r Hr.
    destruct (decide (sid' = sid)) as [-> | Hne]; [| exact (Hothers sid' r Hne Hr)].
    rewrite (Hnot r Hr).
    destruct (onboarding_completed r) eqn:Eo; [| reflexivity].
    pose proof (Hsid r Hr Eo). pose proof (Hnot r Hr). congruence. }
  destruct result as [r|].
  - destruct (all_features_completed r) eqn:Eall.
    + apply triple_db_op. intros d [[Hothers Hsid] Hres] sid' r'. cbn.
      rewrite lookup_alter. case_decide as Heq; [| apply Hothers; congruence].
      rewrite <- Hres. cbn. intros [= <-]. cbn.
      unfold all_features_completed in *. cbn. symmetry. exact Eall.
    + eapply triple_weaken; [| | apply triple_ret]; cbn; [intros d H; exact H |].
      intros _ d [HW Hres]. apply Hkeep; [exact HW |].
      intros r' Hr'. congruence.
  - eapply triple_weaken; [| | apply triple_ret]; cbn; [intros d H; exact H |].
    intros _ d [HW Hres]. apply Hkeep; [exact HW |].
    intros r' Hr'. congruence.
Qed.
End Body.

Lemma save_state_keeps_features m f now sid state w :
  entity_features (db (snd (save_state m f now sid state w)))
  = entity_features (db w).
Proof.
  destruct (pool m) eqn:Hp.
  - rewrite (StoreFacts.save_state_cases m f now sid state w Hp).
    destruct (durable_write_fails f); [reflexivity |]. cbv zeta. cbn [snd].
    match goal with
    | |- context [best_effort_publish m f sid ?s (best_effort_cache m f sid ?s ?w0)] =>
        destruct (StoreFacts.best_effort_cache_trace m f sid s w0) as (Hd1 & _);
        destruct (StoreFacts.best_effort_publish_trace m f sid s
                    (best_effort_cache m f sid s w0)) as (Hd2 & _)
    end.
    rewrite Hd2, Hd1. reflexivity.
  - unfold save_state. rewrite Hp. reflexivity.
Qed.

Lemma load_state_keeps_db m f now sid w :
  db (snd (load_state m f now sid w)) = db w.
Proof.
  assert (H : db (snd (load_from_db m f now sid w)) = db w).
  { unfold load_from_db.
    destruct ((acquire (db_fault f) ;;; db_op (db_fault f) (fetch_state sid)) (db w) 0)
      as [[[[row|] d'] n']|]; try reflexivity.
    cbn [snd]. destruct (_cache_enabled m); [| reflexivity].
    destruct (cache_write_fault f); reflexivity. }
  unfold load_state. destruct (negb (pool m)); [reflexivity |].
  destruct (_cache_enabled m && negb (cache_read_fault f)); [| exact H].
  destruct (cache w !! cache_key sid) as [c|]; [| exact H].
  destruct (dict_truthy c); [reflexivity | exact H].
Qed.

Lemma save_entity_feature_db m f now uuid sid eid email phone org feature fdata w :
  db (snd (save_entity_feature m f now uuid sid eid email phone org feature fdata w))
  = if pool m
    then snd (transaction (db_fault f)
                (save_entity_feature_body (db_fault f) now uuid sid eid email
                   phone org feature fdata) (db w))
    else db w.
Proof.
  unfold save_entity_feature. destruct (pool m); [| reflexivity]. cbn [negb].
  unfold transaction.
  destruct (bind _ _ (db w) 0) as [[[a d'] n']|]; reflexivity.
Qed.

Lemma reachable_consistent w : reachable w -> features_consistent (db w).
Proof.
  induction 1 as [| m f now sid state w Hw IH | m f now sid w Hw IH
                  | m f now uuid sid eid email phone org feature fdata w Hw IH].
  - intros sid r. cbn. rewrite lookup_empty. discriminate.
  - intros sid' r. rewrite save_state_keeps_features. apply IH.
  - rewrite load_state_keeps_db. exact IH.
  - rewrite save_entity_feature_db. destruct (pool m); [| exact IH].
    apply (transaction_post (db_fault f) _ features_consistent features_consistent);
      [apply body_consistent | exact IH | exact IH].
Qed.

Lemma all_features_completed_iff r :
  all_features_completed r = true
  <-> signup_completed r = true /\ kyc_completed r = true
      /\ business_details_completed r = true /\ bank_details_completed r = true.
Proof. unfold all_features_completed. rewrite !andb_true_iff. tauto. Qed.

(** C8: in every state the store can reach through its operations,
    [onboarding_completed] is true if and only if the four stage flags
    are, in the row of every session and in what [get_entity_features]
    reports for it. *)
Theorem onboarding_completed_iff_all_flags (w : World) (sid : string) :
  reachable w ->
  (forall r, entity_features (db w) !! sid = Some r ->
     (onboarding_completed r = true
      <-> signup_completed r = true /\ kyc_completed r = true
          /\ business_details_completed r = true
          /\ bank_details_completed r = true))
  /\ (forall m f feats,
        get_entity_features m f sid w = Return (Some feats) ->
        (gf_onboarding_completed feats = true
         <-> completed (gf_signup feats) = true /\ completed (gf_kyc feats) = true
             /\ completed (gf_business_details feats) = true
             /\ completed (gf_bank_details feats) = true)).
Proof.
  intros Hw. pose proof (reachable_consistent w Hw) as HI.
  assert (Hrow : forall r, entity_features (db w) !! sid = Some r ->
            (onboarding_completed r = true
             <-> signup_completed r = true /\ kyc_completed r = true
                 /\ business_details_completed r = true
                 /\ bank_details_completed r = true)).
  { intros r Hr. rewrite (HI sid r Hr). apply all_features_completed_iff. }
  split; [exact Hrow |].
  intros m f feats. unfold get_entity_features.
  destruct (negb (pool m)); [discriminate |].
  unfold bind, acquire, db_op, fetch_features.
  repeat (case_decide; try discriminate).
  destruct (entity_features (db w) !! sid) as [r|] eqn:Er; intros [= <-]; cbn.
  - apply Hrow. reflexivity.
  - split; [discriminate | intros [Hs _]; discriminate].
Qed.

Lemma four_features_reachable : reachable Examples.four_features.
Proof. repeat apply reach_save_entity_feature. apply reach_start. Qed.

Lemma onboarding_completed_iff_all_flags_witness :
  reachable Examples.four_features
  /\ exists r, entity_features (db Examples.four_features) !! "s1" = Some r
               /\ (onboarding_completed r = true
                   <-> signup_completed r = true /\ kyc_completed r = true
                       /\ business_details_completed r = true
                       /\ bank_details_completed r = true).
Proof.
  split; [exact four_features_reachable |].
  destruct (entity_features (db Examples.four_features) !! "s1") as [r|] eqn:E;
    [| vm_compute in E; discriminate E].
  exists r. split; [reflexivity |].
  exact (proj1 (onboarding_completed_iff_all_flags Examples.four_features "s1"
                  four_features_reachable) r E).
Defined.

(** C9, as stated, fails: in a graph state whose signup flag is set,
    running the signup node again on other valid data while the external
    service times out clears the flag. *)
Lemma signup_node_clears_flag :
  let st := Examples.signed_up in
  let a := Supervisor.signup_attempt Examples.always_timeout 0 "uuid-1"
             Examples.other_valid_signup st in
  SignupAgent.v_success (SignupAgent._validate_user_data Examples.other_valid_signup)
  = true
  /\ Supervisor.signup_complete st = true
  /\ Supervisor.signup_complete
       (Supervisor.merge st (Supervisor._signup_node a st)) = false.
Proof. cbv zeta. repeat split; vm_compute; reflexivity. Qed.

(** C9 (amended): in the state store no call of [save_entity_feature],
    successful or failed, clears a completion flag that is set.  In the
    onboarding graph a stage node overwrites the flag of its own stage
    with the success of the attempt it just made (false when the attempt
    failed or raised) and leaves the flags of the other stages as they
    are: a flag that is set stays set exactly when the repeated attempt
    succeeds. *)
Theorem completion_flags_after_transitions :
  (forall m f now uuid sid eid email phone org feature fdata w,
      flags_monotone (db w)
        (db (snd (save_entity_feature m f now uuid sid eid email phone org
                    feature fdata w))))
  /\ (forall a st,
        let st' := Supervisor.merge st (Supervisor._signup_node a st) in
        Supervisor.signup_complete st' = Supervisor.attempt_ok a
        /\ Supervisor.company_complete st' = Supervisor.company_complete st
        /\ Supervisor.kyc_complete st' = Supervisor.kyc_complete st
        /\ Supervisor.bank_complete st' = Supervisor.bank_complete st)
  /\ (forall a st,
        let st' := Supervisor.merge st (Supervisor._company_node a st) in
        Supervisor.company_complete st' = Supervisor.attempt_ok a
        /\ Supervisor.signup_complete st' = Supervisor.signup_complete st
        /\ Supervisor.kyc_complete st' = Supervisor.kyc_complete st
        /\ Supervisor.bank_complete st' = Supervisor.bank_complete st)
  /\ (forall a st,
        let st' := Supervisor.merge st (Supervisor._kyc_node a st) in
        Supervisor.kyc_complete st' = Supervisor.attempt_ok a
        /\ Supervisor.signup_complete st' = Supervisor.signup_complete st
        /\ Supervisor.company_complete st' = Supervisor.company_complete st
        /\ Supervisor.bank_complete st' = Supervisor.bank_complete st)
  /\ (forall a st,
        let st' := Supervisor.merge st (Supervisor._bank_node a st) in
        Supervisor.bank_complete st' = Supervisor.attempt_ok a
        /\ Supervisor.signup_complete st' = Supervisor.signup_complete st
        /\ Supervisor.company_complete st' = Supervisor.company_complete st
        /\ Supervisor.kyc_complete st' = Supervisor.kyc_complete st).
Proof.
  split.
  - intros. rewrite save_entity_feature_db.
    destruct (pool m); [| apply flags_monotone_refl].
    apply (transaction_post (db_fault f) _ (flags_monotone (db w))
             (flags_monotone (db w)));
      [apply body_monotone | apply flags_monotone_refl | apply flags_monotone_refl].
  - split; [| split; [| split]]; intros [ok data | msg] st; cbn; repeat split.
Qed.

(** The flag follows the four features on a concrete run. *)
Example three_features_not_completed :
  onboarding_completed <$> (entity_features (db Examples.three_features) !! "s1")
  = Some false.
Proof. vm_compute. reflexivity. Qed.

Example four_features_completed :
  onboarding_completed <$> (entity_features (db Examples.four_features) !! "s1")
  = Some true.
Proof. vm_compute. reflexivity. Qed.

End FeatureFacts.

(** ** Schema migration *)

Module MigrationFacts.
Import GraphState.

Lemma migrate_state_cases (x : gmap string pyval) :
  migrate_state x
  = match x !! "state_version" with
    | None => <["state_version" := PStr "1.0"]> x
    | Some _ => x
    end.
Proof.
  unfold migrate_state.
  destruct (x !! "state_version") as [v|] eqn:E; cbn [default].
  - case_decide; [| reflexivity]. case_decide; [discriminate | reflexivity].
  - case_decide; [| congruence]. case_decide; [reflexivity | congruence].
Qed.

Lemma migrate_from_oldest (x : gmap string pyval) :
  migrate_from oldest_version x
  = match x !! "state_version" with
    | None => <["state_version" := PStr "1.0"]> x
    | Some _ => x
    end.
Proof.
  unfold migrate_from, oldest_version.
  case_decide; [| congruence].
  destruct (x !! "state_version"); case_decide; congruence.
Qed.

(** C10: [migrate_state] is idempotent; it returns a record that
    carries the current version unchanged; a record without
    state_version is migrated as a record of the oldest known version
    and gets that version written; a record with any other version
    comes out as the migration from the oldest known version leaves
    it. *)
Theorem migrate_state_idempotent (x : gmap string pyval) :
  migrate_state (migrate_state x) = migrate_state x
  /\ (x !! "state_version" = Some current_version -> migrate_state x = x)
  /\ (x !! "state_version" = None ->
      migrate_state x = migrate_from oldest_version x
      /\ migrate_state x !! "state_version" = Some oldest_version)
  /\ (forall v, x !! "state_version" = Some v -> v ∉ known_versions ->
      migrate_state x = migrate_from oldest_version x).
Proof.
  split; [| split; [| split]].
  - rewrite (migrate_state_cases x).
    destruct (x !! "state_version") as [v|] eqn:E.
    + rewrite migrate_state_cases, E. reflexivity.
    + rewrite migrate_state_cases, lookup_insert_eq. reflexivity.
  - intros H. rewrite migrate_state_cases, H. reflexivity.
  - intros H. rewrite migrate_state_cases, migrate_from_oldest, H.
    split; [reflexivity |]. apply lookup_insert_eq.
  - intros v H _. rewrite migrate_state_cases, migrate_from_oldest, H. reflexivity.
Qed.

Lemma migrate_state_idempotent_witness :
  (Examples.current_record !! "state_version" = Some current_version
   /\ migrate_state Examples.current_record = Examples.current_record)
  /\ (Examples.kyc_state !! "state_version" = None
      /\ migrate_state Examples.kyc_state !! "state_version" = Some oldest_version)
  /\ (Examples.unknown_record !! "state_version" = Some (PStr "7.3")
      /\ (PStr "7.3" ∉ known_versions)
      /\ migrate_state Examples.unknown_record
         = migrate_from oldest_version Examples.unknown_record).
Proof.
  assert (Hunknown : PStr "7.3" ∉ known_versions).
  { unfold known_versions. intros H. apply list_elem_of_singleton in H.
    discriminate H. }
  split; [| split].
  - split; [reflexivity |].
    exact (proj1 (proj2 (migrate_state_idempotent Examples.current_record)) eq_refl).
  - split; [reflexivity |].
    exact (proj2 (proj1 (proj2 (proj2 (migrate_state_idempotent Examples.kyc_state)))
                    eq_refl)).
  - split; [reflexivity |]. split; [exact Hunknown |].
    exact (proj2 (proj2 (proj2 (migrate_state_idempotent Examples.unknown_record)))
             (PStr "7.3") eq_refl Hunknown).
Defined.

End MigrationFacts.

(** ** Strings and regular expressions *)

Module ReFacts.
Import ReSem.

Lemma app_nil_l s : "" +:+ s = s.
Proof. reflexivity. Qed.

Lemma app_cons c s t : String c s +:+ t = String c (s +:+ t).
Proof. reflexivity. Qed.

Lemma app_nil_r s : s +:+ "" = s.
Proof.
  induction s as [|c s IH]; [reflexivity |]. now rewrite app_cons, IH.
Qed.

Lemma app_assoc s1 s2 s3 : (s1 +:+ s2) +:+ s3 = s1 +:+ (s2 +:+ s3).
Proof.
  induction s1 as [|c s1 IH]; [reflexivity |]. now rewrite !app_cons, IH.
Qed.

Lemma app_eq_nil s1 s2 : s1 +:+ s2 = "" -> s1 = "" /\ s2 = "".
Proof.
  destruct s1; [rewrite app_nil_l; auto | rewrite app_cons; discriminate].
Qed.

Lemma app_eq_cons s1 s2 c s :
  s1 +:+ s2 = String c s ->
  (s1 = "" /\ s2 = String c s)
  \/ exists s1', s1 = String c s1' /\ s = s1' +:+ s2.
Proof.
  destruct s1 as [|c1 s1]; [rewrite app_nil_l; auto |].
  rewrite app_cons. intros [= -> <-]. right. eauto.
Qed.

Lemma app_length s1 s2 :
  String.length (s1 +:+ s2) = String.length s1 + String.length s2.
Proof.
  induction s1 as [|c s1 IH]; [reflexivity |].
  rewrite app_cons. cbn [String.length]. now rewrite IH.
Qed.

Lemma all_chars_app p s1 s2 :
  PyStr.all_chars p (s1 +:+ s2) = PyStr.all_chars p s1 && PyStr.all_chars p s2.
Proof.
  induction s1 as [|c s1 IH]; [reflexivity |].
  rewrite app_cons. cbn [PyStr.all_chars]. rewrite IH. now rewrite andb_assoc.
Qed.

Lemma matches_nil_nullable r s : matches r s -> s = "" -> Re.nullable r = true.
Proof.
  induction 1 as [| p c Hp | r1 r2 s1 s2 H1 IH1 H2 IH2 | r1 r2 s H IH
                  | r1 r2 s H IH | r | r s1 s2 H1 IH1 H2 IH2]; intros E; cbn.
  - reflexivity.
  - discriminate.
  - apply app_eq_nil in E as [-> ->]. now rewrite IH1, IH2.
  - now rewrite IH.
  - rewrite (IH E). apply orb_true_r.
  - reflexivity.
  - reflexivity.
Qed.

Lemma nullable_matches r : Re.nullable r = true -> matches r "".
Proof.
  induction r as [| | p | r1 IH1 r2 IH2 | r1 IH1 r2 IH2 | r IH]; cbn.
  - discriminate.
  - intros _. constructor.
  - discriminate.
  - intros [H1 H2]%andb_true_iff. change "" with ("" +:+ "").
    constructor; auto.
  - intros [H | H]%orb_true_iff; [apply m_alt_l | apply m_alt_r]; auto.
  - intros _. constructor.
Qed.

Lemma deriv_sound c r : forall s, matches (Re.deriv c r) s -> matches r (String c s).
Proof.
  induction r as [| | p | r1 IH1 r2 IH2 | r1 IH1 r2 IH2 | r IH]; cbn; intros s H.
  - inversion H.
  - inversion H.
  - destruct (p c) eqn:Hp; inversion H; subst. now constructor.
  - destruct (Re.nullable r1) eqn:Hn.
    + inversion H as [| | | ? ? ? Hl | ? ? ? Hr | |]; subst.
      * inversion Hl as [| | ? ? s1 s2 Ha Hb | | | |]; subst.
        change (String c (s1 +:+ s2)) with (String c s1 +:+ s2).
        constructor; auto.
      * change (String c s) with ("" +:+ String c s).
        constructor; [now apply nullable_matches | auto].
    + inversion H as [| | ? ? s1 s2 Ha Hb | | | |]; subst.
      change (String c (s1 +:+ s2)) with (String c s1 +:+ s2).
      constructor; auto.
  - inversion H; subst; [apply m_alt_l | apply m_alt_r]; auto.
  - inversion H as [| | ? ? s1 s2 Ha Hb | | | |]; subst.
    change (String c (s1 +:+ s2)) with (String c s1 +:+ s2).
    constructor; auto.
Qed.

Lemma deriv_complete r cs :
  matches r cs -> forall c s, cs = String c s -> matches (Re.deriv c r) s.
Proof.
  induction 1 as [| p c0 Hp | r1 r2 s1 s2 H1 IH1 H2 IH2 | r1 r2 s0 H IH
                  | r1 r2 s0 H IH | r | r s1 s2 H1 IH1 H2 IH2]; intros c s E; cbn.
  - discriminate.
  - injection E as -> <-. rewrite Hp. constructor.
  - apply app_eq_cons in E as [[-> ->] | (s1' & -> & ->)].
    + rewrite (matches_nil_nullable r1 "" H1 eq_refl).
      apply m_alt_r. now apply IH2.
    + destruct (Re.nullable r1);
        [apply m_alt_l |]; constructor; auto.
  - apply m_alt_l. now apply IH.
  - apply m_alt_r. now apply IH.
  - discriminate.
  - apply app_eq_cons in E as [[-> ->] | (s1' & -> & ->)].
    + now apply IH2.
    + constructor; auto.
Qed.

(** The derivative matcher decides the language of the expression. *)
Lemma fullmatch_spec s : forall r, Re.fullmatch r s = true <-> matches r s.
Proof.
  induction s as [|c s IH]; intros r; cbn.
  - split; [apply nullable_matches | intros H; now apply (matches_nil_nullable r "")].
  - rewrite IH. split; [apply deriv_sound | intros H; now apply (deriv_complete r _ H)].
Qed.

Lemma matches_seq r1 r2 s :
  matches (Re.Seq r1 r2) s
  <-> exists s1 s2, s = s1 +:+ s2 /\ matches r1 s1 /\ matches r2 s2.
Proof.
  split.
  - intros H. inversion H; subst. eauto.
  - intros (s1 & s2 & -> & H1 & H2). now constructor.
Qed.

Lemma matches_class p s :
  matches (Re.Class p) s <-> exists c, s = String c "" /\ p c = true.
Proof.
  split.
  - intros H. inversion H; subst. eauto.
  - intros (c & -> & Hp). now constructor.
Qed.

Lemma matches_star_class p s :
  matches (Re.Star (Re.Class p)) s <-> PyStr.all_chars p s = true.
Proof.
  split.
  - intros H. remember (Re.Star (Re.Class p)) as r eqn:Er.
    induction H as [| | | | | r0 | r0 s1 s2 H1 _ H2 IH2]; try discriminate.
    + reflexivity.
    + injection Er as ->. apply matches_class in H1 as (c & -> & Hp).
      rewrite app_cons, app_nil_l. cbn [PyStr.all_chars].
      rewrite Hp. now apply IH2.
  - induction s as [|c s IH]; cbn [PyStr.all_chars].
    + intros _. constructor.
    + intros [Hp Hs]%andb_true_iff.
      change (String c s) with (String c "" +:+ s).
      constructor; [now constructor | auto].
Qed.

Lemma matches_plus_class p s :
  matches (Re.plus (Re.Class p)) s <-> s <> "" /\ PyStr.all_chars p s = true.
Proof.
  unfold Re.plus. rewrite matches_seq. split.
  - intros (s1 & s2 & -> & (c & -> & Hp)%matches_class & H2%matches_star_class).
    rewrite app_cons, app_nil_l. cbn [PyStr.all_chars].
    rewrite Hp, H2. split; [discriminate | reflexivity].
  - intros [Hne Hall]. destruct s as [|c s]; [congruence |].
    cbn [PyStr.all_chars] in Hall. apply andb_true_iff in Hall as [Hp Hs].
    exists (String c ""), s. split; [reflexivity |].
    split; [apply matches_class; eauto | now apply matches_star_class].
Qed.

Lemma matches_at_least_two_class p s :
  matches (Re.at_least_two (Re.Class p)) s
  <-> 2 <= String.length s /\ PyStr.all_chars p s = true.
Proof.
  unfold Re.at_least_two. rewrite matches_seq. split.
  - intros (s1 & s2 & -> & (c & -> & Hp)%matches_class & H2).
    apply (matches_plus_class p s2) in H2 as [Hne Hall].
    rewrite app_cons, app_nil_l. cbn [PyStr.all_chars String.length].
    rewrite Hp, Hall. split; [| reflexivity].
    destruct s2; [congruence | cbn [String.length]; lia].
  - intros [Hlen Hall]. destruct s as [|c [|c2 s]]; cbn [String.length] in Hlen; try lia.
    cbn [PyStr.all_chars] in Hall. apply andb_true_iff in Hall as [Hp Hs].
    exists (String c ""), (String c2 s). split; [reflexivity |].
    split; [apply matches_class; eauto |].
    apply (matches_plus_class p). split; [discriminate | exact Hs].
Qed.

Lemma matches_rep_class p n : forall s,
  matches (PyStr.rep n (Re.Class p)) s
  <-> String.length s = n /\ PyStr.all_chars p s = true.
Proof.
  induction n as [|n IH]; intros s; cbn [PyStr.rep].
  - split.
    + intros H. inversion H. split; reflexivity.
    + intros [Hlen _]. destruct s; [constructor | discriminate].
  - rewrite matches_seq. split.
    + intros (s1 & s2 & -> & (c & -> & Hp)%matches_class & [Hlen Hall]%IH).
      rewrite app_cons, app_nil_l. cbn [PyStr.all_chars String.length].
      rewrite Hp, Hall, Hlen. split; reflexivity.
    + intros [Hlen Hall]. destruct s as [|c s]; [discriminate |].
      cbn [String.length PyStr.all_chars] in Hlen, Hall.
      apply andb_true_iff in Hall as [Hp Hs].
      exists (String c ""), s. split; [reflexivity |].
      split; [apply matches_class; eauto | apply IH; split; [lia | exact Hs]].
Qed.

Lemma one_of_single (x c : ascii) :
  Re.one_of (String x "") c = true <-> c = x.
Proof.
  unfold Re.one_of. cbn. rewrite orb_false_r. apply Ascii.eqb_eq.
Qed.

Lemma matches_char (x : ascii) s :
  matches (Re.Class (Re.one_of (String x ""))) s <-> s = String x "".
Proof.
  rewrite matches_class. split.
  - intros (c & -> & H%one_of_single). now subst.
  - intros ->. exists x. split; [reflexivity | now apply one_of_single].
Qed.

Lemma chomp_cons c c2 s :
  PyStr.chomp (String c (String c2 s))
  = match PyStr.chomp (String c2 s) with
    | Some r => Some (String c r)
    | None => None
    end.
Proof. reflexivity. Qed.

Lemma chomp_sound s : forall t,
  PyStr.chomp s = Some t -> s = t +:+ String PyStr.newline "".
Proof.
  induction s as [|c s IH]; intros t; [discriminate |].
  destruct s as [|c2 s].
  - cbn [PyStr.chomp]. destruct (Ascii.eqb c PyStr.newline) eqn:E; [| discriminate].
    apply Ascii.eqb_eq in E. subst c. intros [= <-]. reflexivity.
  - rewrite chomp_cons.
    destruct (PyStr.chomp (String c2 s)) as [r|]; [| discriminate].
    intros [= <-]. rewrite app_cons. f_equal. now apply IH.
Qed.

Lemma chomp_complete t : PyStr.chomp (t +:+ String PyStr.newline "") = Some t.
Proof.
  induction t as [|c t IH]; [reflexivity |].
  rewrite app_cons.
  destruct (t +:+ String PyStr.newline "") as [|c2 rest] eqn:E.
  - destruct t; discriminate E.
  - rewrite chomp_cons, IH. reflexivity.
Qed.

(** [chomp s = Some t] exactly when [s] is [t] followed by a newline. *)
Lemma chomp_spec s t :
  PyStr.chomp s = Some t <-> s = t +:+ String PyStr.newline "".
Proof.
  split; [apply chomp_sound | intros ->; apply chomp_complete].
Qed.

End ReFacts.

(** ** The validation pipeline on arbitrary input *)

Module ValidationFacts.
Import Validation.

Lemma email_pattern_eq :
  email_pattern
  = Re.Seq (Re.plus (Re.Class EmailChars.local_char))
      (Re.Seq (Re.Class (Re.one_of "@"))
         (Re.Seq (Re.plus (Re.Class EmailChars.domain_char))
            (Re.Seq (Re.Class (Re.one_of "."))
               (Re.at_least_two (Re.Class Py.is_alpha))))).
Proof. reflexivity. Qed.

(** The strings the email pattern accepts. *)
Lemma email_pattern_spec s :
  Re.fullmatch email_pattern s = true
  <-> exists local domain tld,
        s = EmailChars.address local domain tld
        /\ local <> "" /\ PyStr.all_chars EmailChars.local_char local = true
        /\ domain <> "" /\ PyStr.all_chars EmailChars.domain_char domain = true
        /\ 2 <= String.length tld /\ PyStr.all_chars Py.is_alpha tld = true.
Proof.
  rewrite ReFacts.fullmatch_spec, email_pattern_eq. unfold EmailChars.address.
  split.
  - intros (l & r1 & -> & [Hl1 Hl2]%ReFacts.matches_plus_class & H)%ReFacts.matches_seq.
    apply ReFacts.matches_seq in H as (a & r2 & -> & ->%ReFacts.matches_char & H).
    apply ReFacts.matches_seq in H
      as (d & r3 & -> & [Hd1 Hd2]%ReFacts.matches_plus_class & H).
    apply ReFacts.matches_seq in H
      as (dot & t & -> & ->%ReFacts.matches_char & [Ht1 Ht2]%ReFacts.matches_at_least_two_class).
    exists l, d, t. repeat split; auto.
  - intros (l & d & t & -> & Hl1 & Hl2 & Hd1 & Hd2 & Ht1 & Ht2).
    apply ReFacts.matches_seq. exists l, ("@" +:+ d +:+ "." +:+ t).
    split; [reflexivity |]. split; [now apply ReFacts.matches_plus_class |].
    apply ReFacts.matches_seq. exists "@", (d +:+ "." +:+ t).
    split; [reflexivity |]. split; [now apply ReFacts.matches_char |].
    apply ReFacts.matches_seq. exists d, ("." +:+ t).
    split; [reflexivity |]. split; [now apply ReFacts.matches_plus_class |].
    apply ReFacts.matches_seq. exists ".", t.
    split; [reflexivity |]. split; [now apply ReFacts.matches_char |].
    now apply ReFacts.matches_at_least_two_class.
Qed.

(** X1: [validate_email] accepts a value exactly when it is a string
    whose stripped, lower-cased text has the shape local@domain.tld: a
    non-empty local part over [a-zA-Z0-9._%+-], a non-empty domain over
    [a-zA-Z0-9.-], and a last label of at least two letters. *)
Theorem validate_email_accepts_iff (state : ValidationState) :
  u_email_valid (validate_email state) = Some true
  <-> exists s local domain tld,
        email state = PStr s
        /\ Py.lower (Py.strip s) = EmailChars.address local domain tld
        /\ local <> "" /\ PyStr.all_chars EmailChars.local_char local = true
        /\ domain <> "" /\ PyStr.all_chars EmailChars.domain_char domain = true
        /\ 2 <= String.length tld /\ PyStr.all_chars Py.is_alpha tld = true.
Proof.
  unfold validate_email. split.
  - destruct (email state) as [| | | s |]; try discriminate.
    destruct (negb (Py.truthy (PStr s))); [discriminate |].
    destruct (Re.fullmatch email_pattern (Py.lower (Py.strip s))) eqn:E;
      [| discriminate].
    intros _. apply email_pattern_spec in E as (l & d & t & H).
    exists s, l, d, t. tauto.
  - intros (s & l & d & t & -> & Hs & H).
    assert (E : Re.fullmatch email_pattern (Py.lower (Py.strip s)) = true).
    { apply email_pattern_spec. exists l, d, t. tauto. }
    destruct s as [|c s]; [vm_compute in E; discriminate E |].
    cbn [Py.truthy String.eqb negb]. rewrite E. reflexivity.
Qed.

Lemma space_not_digit c : Py.is_space c = true -> Py.is_digit c = false.
Proof.
  unfold Py.is_space, Py.is_digit. intros H.
  destruct (48 <=? nat_of_ascii c)%nat eqn:E1; [| reflexivity].
  destruct (nat_of_ascii c <=? 57)%nat eqn:E2; [| reflexivity].
  apply Nat.leb_le in E1, E2.
  apply orb_true_iff in H as [[H1 H2]%andb_true_iff | [H1 H2]%andb_true_iff];
    apply Nat.leb_le in H1, H2; lia.
Qed.

Lemma filter_digits_lstrip s :
  Py.str_filter Py.is_digit (Py.lstrip s) = Py.str_filter Py.is_digit s.
Proof.
  induction s as [|c s IH]; [reflexivity |]. cbn [Py.lstrip].
  destruct (Py.is_space c) eqn:Es; [| reflexivity].
  rewrite IH. cbn [Py.str_filter]. now rewrite (space_not_digit c Es).
Qed.

Lemma str_filter_cons p c s :
  Py.str_filter p (String c s)
  = if p c then String c (Py.str_filter p s) else Py.str_filter p s.
Proof. reflexivity. Qed.

Lemma filter_digits_rstrip s :
  Py.str_filter Py.is_digit (Py.rstrip s) = Py.str_filter Py.is_digit s.
Proof.
  induction s as [|c s IH]; [reflexivity |]. cbn [Py.rstrip].
  destruct (Py.rstrip s) as [|c2 r] eqn:Er.
  - rewrite (str_filter_cons _ c s), <- IH.
    destruct (Py.is_space c) eqn:Es.
    + rewrite (space_not_digit c Es). reflexivity.
    + rewrite str_filter_cons. reflexivity.
  - rewrite (str_filter_cons _ c (String c2 r)), (str_filter_cons _ c s), IH.
    reflexivity.
Qed.

(** X2: the phone verdict depends on the digits only: [validate_phone]
    accepts a value exactly when it is a string that contains between 10
    and 15 ASCII digits; every other character, and surrounding white
    space, is ignored. *)
Theorem validate_phone_accepts_iff (state : ValidationState) :
  u_phone_valid (validate_phone state) = Some true
  <-> exists s,
        phone state = PStr s
        /\ 10 <= String.length (Py.str_filter Py.is_digit s) <= 15.
Proof.
  unfold validate_phone. split.
  - destruct (phone state) as [| | | s |]; try discriminate.
    destruct (negb (Py.truthy (PStr s))); [discriminate |].
    unfold Py.strip. rewrite filter_digits_rstrip, filter_digits_lstrip.
    destruct (_ || _) eqn:E; [discriminate |]. intros _.
    apply orb_false_iff in E as [E1%Nat.ltb_ge E2%Nat.ltb_ge].
    exists s. split; [reflexivity | lia].
  - intros (s & -> & Hlen).
    destruct s as [|c s]; [cbn in Hlen; lia |].
    cbn [Py.truthy String.eqb negb].
    unfold Py.strip. rewrite filter_digits_rstrip, filter_digits_lstrip.
    replace (_ || _) with false; [reflexivity |].
    symmetry. apply orb_false_iff. split; apply Nat.ltb_ge; lia.
Qed.

Lemma validate_phone_accepts_iff_witness :
  exists s, phone (mkValidationState PNone PNone (PStr "+1 (555) 010-9999")
                     None None None None []) = PStr s
            /\ 10 <= String.length (Py.str_filter Py.is_digit s) <= 15.
Proof.
  apply (proj1 (validate_phone_accepts_iff _)). reflexivity.
Defined.

(** Each validator either accepts and leaves the errors alone, or rejects
    and appends one error. *)
Lemma validate_name_shape st :
  validate_name st = mkUpdate (Some true) None None None None
  \/ exists e, validate_name st
               = mkUpdate (Some false) None None None (Some (errors st ++ [e])).
Proof.
  unfold validate_name. destruct (name st) as [| | | s |]; eauto.
  destruct (negb _); eauto. destruct (_ <? _)%nat; eauto.
  destruct (_ <? _)%nat; eauto.
Qed.

Lemma validate_email_shape st :
  validate_email st = mkUpdate None (Some true) None None None
  \/ exists e, validate_email st
               = mkUpdate None (Some false) None None (Some (errors st ++ [e])).
Proof.
  unfold validate_email. destruct (email st) as [| | | s |]; eauto.
  destruct (negb _); eauto. destruct (negb _); eauto.
Qed.

Lemma validate_phone_shape st :
  validate_phone st = mkUpdate None None (Some true) None None
  \/ exists e, validate_phone st
               = mkUpdate None None (Some false) None (Some (errors st ++ [e])).
Proof.
  unfold validate_phone. destruct (phone st) as [| | | s |]; eauto.
  destruct (negb _); eauto. destruct (_ || _); eauto.
Qed.

(** X3: for every signup form all three fields are validated and every
    violation is reported: the number of errors is the number of invalid
    fields, the verdict is the conjunction of the three field verdicts,
    and it is positive exactly when the error list is empty. *)
Theorem validation_reports_every_violation (user_data : gmap string pyval) :
  let r := SignupAgent._validate_user_data user_data in
  List.length (SignupAgent.v_errors r)
  = EmailChars.bool_to_nat (SignupAgent.v_name_valid r)
    + EmailChars.bool_to_nat (SignupAgent.v_email_valid r)
    + EmailChars.bool_to_nat (SignupAgent.v_phone_valid r)
  /\ SignupAgent.v_success r
     = SignupAgent.v_name_valid r && SignupAgent.v_email_valid r
       && SignupAgent.v_phone_valid r
  /\ (SignupAgent.v_success r = true <-> SignupAgent.v_errors r = []).
Proof.
  cbv zeta. unfold SignupAgent._validate_user_data.
  set (st0 := mkValidationState _ _ _ None None None None []).
  change (validation_graph st0)
    with (let st1 := merge st0 (validate_name st0) in
          let st2 := merge st1 (validate_email st1) in
          let st3 := merge st2 (validate_phone st2) in
          Graph.Finished (merge st3 (check_validation_complete st3)) 4).
  cbv zeta.
  destruct (validate_name_shape st0) as [-> | [e1 ->]];
    set (st1 := merge st0 _);
    (destruct (validate_email_shape st1) as [-> | [e2 ->]]);
    set (st2 := merge st1 _);
    (destruct (validate_phone_shape st2) as [-> | [e3 ->]]);
    cbn; repeat split; intros; discriminate.
Qed.

End ValidationFacts.

(** ** Requests and sleeps of the external call; the signup pipeline *)

Module ApiLogFacts.
Import Api.

Section Log.
Variable http : nat -> HttpOutcome.
Variable now : Z.

Lemma after_attempt_log k st w :
  default 0 (retry_count st) < max_retries ->
  log (snd (after_attempt http now k st w))
  = log w ++ EvPost (http (posts w))
      :: (if is_failure (http (posts w))
          then [EvSleep (2 ^ default 0 (retry_count st))] else []).
Proof.
  intros Hr. unfold after_attempt.
  change (exec http now k n_call_api (st, w))
    with (merge st (call_external_api (http (posts w)) st),
          mkWorld (S (posts w)) (log w ++ [EvPost (http (posts w))])).
  set (st1 := merge st (call_external_api (http (posts w)) st)).
  assert (Hs1 : success st1 = Some (negb (is_failure (http (posts w)))))
    by (apply (ApiFacts.call_result_success _ st)).
  assert (Hr1 : retry_count st1 = retry_count st)
    by (apply ApiFacts.retry_count_after_call).
  assert (Hlt : (default 0 (retry_count st) <? max_retries)%nat = true)
    by (apply Nat.ltb_lt; exact Hr).
  cbn [exec]. unfold handle_api_retry. rewrite Hs1, Hr1, Hlt.
  destruct (is_failure (http (posts w))); cbn.
  - rewrite <- app_assoc. reflexivity.
  - rewrite app_nil_r. reflexivity.
Qed.

(** The loop again, now with its log and its number of transitions. *)
Lemma retry_loop_log b : forall fuel k st w,
  default 0 (retry_count st) + S b = max_retries ->
  2 * S b <= fuel ->
  exists st' w',
    Graph.run (exec http now) edge fuel k n_call_api (st, w)
    = Graph.Finished (st', w')
        (k + 2 * attempts_from http (posts w) (S b))
    /\ log w' = log w
                ++ ApiLog.events_from http (posts w) (default 0 (retry_count st)) (S b).
Proof.
  induction b as [|b IH]; intros fuel k st w Hr Hfuel.
  all: destruct fuel as [|[|fuel]]; [lia | lia |].
  all: rewrite ApiFacts.run_attempt, ApiFacts.router_after_attempt.
  all: pose proof (after_attempt_log k st w ltac:(lia)) as Hlog.
  all: destruct (ApiFacts.after_attempt_spec http now k st w) as (Hp & _ & _ & Hrc).
  all: cbn [attempts_from ApiLog.events_from].
  all: destruct (is_failure (http (posts w))) eqn:Efail.
  all: replace (default 0 (retry_count st) <? max_retries)%nat with true in *
         by (symmetry; apply Nat.ltb_lt; lia).
  all: cbn [andb].
  all: try (change (path_map END) with (@Graph.ToEnd Node);
            destruct (after_attempt http now k st w) as [st2 w2]; cbn [fst snd] in *;
            exists st2, w2;
            split; [f_equal; lia | exact Hlog]).
  - replace (default 0 (retry_count st) + 1 <? max_retries)%nat with false
      by (symmetry; apply Nat.ltb_ge; lia).
    change (path_map END) with (@Graph.ToEnd Node).
    destruct (after_attempt http now k st w) as [st2 w2]; cbn [fst snd] in *.
    exists st2, w2. split; [f_equal; lia | exact Hlog].
  - replace (default 0 (retry_count st) + 1 <? max_retries)%nat with true
      by (symmetry; apply Nat.ltb_lt; lia).
    change (path_map "call_api") with (Graph.ToNode n_call_api).
    destruct (after_attempt http now k st w) as [st2 w2]; cbn [fst snd] in *.
    destruct (IH fuel (S (S k)) st2 w2) as (st' & w' & Hrun & Hlog'); [lia | lia |].
    exists st', w'. split.
    + rewrite Hrun, Hp. f_equal. cbn [attempts_from]. lia.
    + rewrite Hlog', Hlog, Hp, Hrc. rewrite <- app_assoc.
      replace (default 0 (retry_count st) + 1) with (S (default 0 (retry_count st)))
        by lia.
      reflexivity.
Qed.

Lemma events_sleep_total i r : forall budget,
  ApiLog.sleep_total (ApiLog.events_from http i r budget) + 2 ^ r
  = 2 ^ (r + ApiLog.failed_posts (ApiLog.events_from http i r budget)).
Proof.
  intros budget. revert i r.
  induction budget as [|b IH]; intros i r; cbn [ApiLog.events_from].
  - cbn. now rewrite Nat.add_0_r.
  - cbn [ApiLog.sleep_total ApiLog.failed_posts].
    destruct (is_failure (http i)).
    + cbn [ApiLog.sleep_total ApiLog.failed_posts].
      specialize (IH (S i) (S r)).
      replace (r + (1 + ApiLog.failed_posts (ApiLog.events_from http (S i) (S r) b)))
        with (S r + ApiLog.failed_posts (ApiLog.events_from http (S i) (S r) b))
        by lia.
      rewrite <- IH. cbn [Nat.pow]. lia.
    + cbn. now rewrite Nat.add_0_r.
Qed.
End Log.

(** Everything a run of the API graph entered with retry_count 0 does. *)
Lemma api_graph_full (http : nat -> HttpOutcome) (now : Z) (input : APIState) :
  default 0 (retry_count input) = 0 ->
  exists st w,
    api_graph http now input
    = Graph.Finished (st, w) (1 + 2 * attempts_from http 0 3)
    /\ posts w = attempts_from http 0 3
    /\ log w = ApiLog.events_from http 0 0 3
    /\ result_fields st = call_result (http (posts w - 1)) st.
Proof.
  intros Hr. rewrite ApiFacts.api_graph_unfold.
  set (st1 := merge input (prepare_api_request now input)).
  assert (Hr1 : default 0 (retry_count st1) = 0) by exact Hr.
  destruct (retry_loop_log http now 2 24 1 st1 world0) as (st & w & Hrun & Hlog);
    [rewrite Hr1; reflexivity | lia |].
  destruct (ApiFacts.retry_loop http now 2 24 1 st1 world0)
    as (st' & w' & steps & Hrun' & Hposts & Hres);
    [rewrite Hr1; reflexivity | lia |].
  rewrite Hrun in Hrun'. injection Hrun' as <- <- _.
  rewrite Hr1 in Hlog. change (log world0 ++ ?l) with l in Hlog.
  change (posts world0) with 0 in *.
  exists st, w. repeat split; assumption.
Qed.

(** X4: a run of the API graph (entered with retry_count 0) sends its
    requests and sleeps in the order request, [sleep 1, request, [sleep
    2, request, [sleep 4]]], every sleep following a failed request, the
    one after the third failure included; altogether it sleeps 2^f - 1
    seconds for f failed requests, and it ends after 1 + 2 * requests
    transitions. *)
Theorem api_graph_log (http : nat -> HttpOutcome) (now : Z) (input : APIState) :
  default 0 (retry_count input) = 0 ->
  exists st w,
    api_graph http now input = Graph.Finished (st, w) (1 + 2 * posts w)
    /\ log w = ApiLog.events_from http 0 0 3
    /\ ApiLog.sleep_total (log w) = 2 ^ ApiLog.failed_posts (log w) - 1.
Proof.
  intros Hr.
  destruct (api_graph_full http now input Hr) as (st & w & Hrun & Hposts & Hlog & _).
  exists st, w. split; [| split].
  - rewrite Hrun, Hposts. reflexivity.
  - exact Hlog.
  - rewrite Hlog. pose proof (events_sleep_total http 0 0 3) as H.
    rewrite Nat.pow_0_r, Nat.add_0_l in H. lia.
Qed.

Lemma api_graph_log_witness :
  default 0 (retry_count (SignupAgent.api_input Examples.valid_signup)) = 0
  /\ exists st w,
       api_graph Examples.always_timeout 0 (SignupAgent.api_input Examples.valid_signup)
       = Graph.Finished (st, w) (1 + 2 * posts w)
       /\ log w = ApiLog.events_from Examples.always_timeout 0 0 3
       /\ ApiLog.sleep_total (log w) = 2 ^ ApiLog.failed_posts (log w) - 1.
Proof.
  split; [reflexivity |].
  exact (api_graph_log Examples.always_timeout 0
           (SignupAgent.api_input Examples.valid_signup) eq_refl).
Defined.

Example three_timeouts_log :
  ApiLog.events_from Examples.always_timeout 0 0 3
  = [EvPost Timeout; EvSleep 1; EvPost Timeout; EvSleep 2; EvPost Timeout; EvSleep 4].
Proof. reflexivity. Qed.

Lemma not_failure_responded o :
  is_failure o = false -> exists eid, o = Responded eid /\ Py.truthy eid = true.
Proof.
  destruct o as [eid| | | |]; try discriminate. cbn.
  intros H%negb_false_iff. eauto.
Qed.

Lemma call_result_responded eid st :
  Py.truthy eid = true -> call_result (Responded eid) st = (Some true, eid, None).
Proof. intros H. unfold call_result. cbn. rewrite H. reflexivity. Qed.

Lemma recorded_result st o :
  result_fields st = call_result o st ->
  (is_failure o = true -> success st = Some false)
  /\ (is_failure o = false ->
      exists eid, o = Responded eid /\ Py.truthy eid = true
                  /\ success st = Some true /\ entity_id st = eid).
Proof.
  intros H. split; intros Hf.
  - pose proof (ApiFacts.call_result_success o st) as Hs.
    rewrite <- H, Hf in Hs. exact Hs.
  - apply not_failure_responded in Hf as (eid & -> & Ht).
    rewrite (call_result_responded eid st Ht) in H.
    injection H as Hs He _. eauto.
Qed.

(** X5: [process_signup] contacts the external service only after the
    form passed validation; it then makes the requests of the retry loop,
    succeeds exactly when fewer than three requests failed, and on
    success returns the entity id of the last response; when all three
    requests fail the status is "api_failed". *)
Theorem process_signup_outcome (http : nat -> HttpOutcome) (now : Z)
    (user_data : gmap string pyval) (session_id : option string) (uuid : string) :
  let v := SignupAgent._validate_user_data user_data in
  let '(result, requests) :=
    SignupAgent.process_signup http now user_data session_id uuid in
  (SignupAgent.v_success v = false ->
   SignupAgent.success result = false
   /\ SignupAgent.status result = "validation_failed"
   /\ SignupAgent.errors result = SignupAgent.v_errors v
   /\ requests = [])
  /\ (SignupAgent.v_success v = true ->
      requests = ApiLog.events_from http 0 0 3
      /\ (SignupAgent.success result = true <-> ApiLog.failed_posts requests < 3)
      /\ (SignupAgent.success result = true ->
          exists eid,
            List.last (ApiLog.posts_of requests) Timeout = Responded eid
            /\ Py.truthy eid = true
            /\ SignupAgent.entity_id result = eid)
      /\ (SignupAgent.success result = false ->
          SignupAgent.status result = "api_failed"
          /\ ApiLog.failed_posts requests = 3)).
Proof.
  cbv zeta. unfold SignupAgent.process_signup.
  destruct (SignupAgent.v_success (SignupAgent._validate_user_data user_data)) eqn:Ev;
    cbn [negb].
  - unfold SignupAgent._generate_entity_id.
    destruct (api_graph_full http now (SignupAgent.api_input user_data) eq_refl)
      as (st & w & -> & Hposts & Hlog & Hres).
    cbv beta iota zeta. rewrite Hlog.
    cbn [SignupAgent.a_success SignupAgent.a_entity_id SignupAgent.a_error].
    rewrite Hposts in Hres. clear Hlog Hposts.
    cbn [attempts_from ApiLog.events_from] in *.
    destruct (is_failure (http 0)) eqn:E0;
      [destruct (is_failure (http 1)) eqn:E1;
       [destruct (is_failure (http 2)) eqn:E2 |] |];
      cbn [Nat.sub] in Hres;
      destruct (recorded_result st _ Hres) as [Hfail Hok].
    + rewrite (Hfail E2). cbn. rewrite E0, E1, E2.
      split; [discriminate |]. intros _.
      split; [reflexivity |]. split; [split; [discriminate | cbn; lia] |].
      split; [discriminate |]. intros _. split; reflexivity.
    + destruct (Hok E2) as (eid & Eo & Ht & Hs & He). rewrite Hs, He. cbn.
      rewrite E0, E1, E2, Eo.
      split; [discriminate |]. intros _.
      split; [reflexivity |]. split; [split; [cbn; lia | reflexivity] |].
      split; [| discriminate]. intros _. exists eid. auto.
    + destruct (Hok E1) as (eid & Eo & Ht & Hs & He). rewrite Hs, He. cbn.
      rewrite E0, E1, Eo.
      split; [discriminate |]. intros _.
      split; [reflexivity |]. split; [split; [cbn; lia | reflexivity] |].
      split; [| discriminate]. intros _. exists eid. auto.
    + destruct (Hok E0) as (eid & Eo & Ht & Hs & He). rewrite Hs, He. cbn.
      rewrite E0, Eo.
      split; [discriminate |]. intros _.
      split; [reflexivity |]. split; [split; [cbn; lia | reflexivity] |].
      split; [| discriminate]. intros _. exists eid. auto.
  - cbv beta iota zeta. split; [| discriminate]. intros _. cbn. repeat split.
Qed.

Lemma process_signup_outcome_witness :
  SignupAgent.v_success (SignupAgent._validate_user_data Examples.valid_signup) = true
  /\ snd (SignupAgent.process_signup Examples.always_ok 0 Examples.valid_signup
            (Some "s1") "u1")
     = ApiLog.events_from Examples.always_ok 0 0 3.
Proof.
  assert (Hv : SignupAgent.v_success
                 (SignupAgent._validate_user_data Examples.valid_signup) = true)
    by (vm_compute; reflexivity).
  split; [exact Hv |].
  pose proof (process_signup_outcome Examples.always_ok 0 Examples.valid_signup
                (Some "s1") "u1") as H.
  cbv zeta in H.
  destruct (SignupAgent.process_signup Examples.always_ok 0 Examples.valid_signup
              (Some "s1") "u1") as [result requests].
  exact (proj1 (proj2 H Hv)).
Defined.

End ApiLogFacts.

(** ** The LLM call and whole runs of the graph *)

Module LlmFacts.
Import Llm.

Lemma all_fail n model : forall rem a,
  a + rem = n -> 1 <= rem ->
  (forall j, a <= j < n -> is_failed (model j) = true) ->
  fst (call_llm_from model n a rem) = Some ""
  /\ generations (snd (call_llm_from model n a rem)) = rem
  /\ backoff_total (snd (call_llm_from model n a rem)) + 2 ^ a = 2 ^ (n - 1).
Proof.
  induction rem as [|rem IH]; intros a Hn Hrem Hfail; [lia |].
  cbn [call_llm_from].
  pose proof (Hfail a ltac:(lia)) as Ha.
  destruct (model a) as [t | msg]; [discriminate |].
  destruct (a <? n - 1)%nat eqn:E.
  - apply Nat.ltb_lt in E.
    destruct (IH (S a)) as (H1 & H2 & H3); [lia | lia | intros; apply Hfail; lia |].
    destruct (call_llm_from model n (S a) rem) as [r evs].
    cbn [fst snd generations backoff_total] in *.
    split; [exact H1 |]. split; [now rewrite H2 |].
    cbn [Nat.pow] in H3. lia.
  - apply Nat.ltb_ge in E. cbn [fst snd generations backoff_total].
    split; [reflexivity |]. split; [lia |].
    replace (n - 1) with a by lia. lia.
Qed.

Lemma first_text n model i t : forall rem a,
  a + rem = n -> a <= i < n ->
  (forall j, a <= j < i -> is_failed (model j) = true) ->
  model i = Text t ->
  fst (call_llm_from model n a rem) = Some (Py.strip t)
  /\ generations (snd (call_llm_from model n a rem)) = i - a + 1
  /\ backoff_total (snd (call_llm_from model n a rem)) + 2 ^ a = 2 ^ i.
Proof.
  induction rem as [|rem IH]; intros a Hn Hi Hfail Ht; [lia |].
  cbn [call_llm_from].
  destruct (decide (a = i)) as [-> | Hne].
  - rewrite Ht. cbn [fst snd generations backoff_total].
    split; [reflexivity |]. split; lia.
  - pose proof (Hfail a ltac:(lia)) as Ha.
    destruct (model a) as [t' | msg]; [discriminate |].
    replace (a <? n - 1)%nat with true by (symmetry; apply Nat.ltb_lt; lia).
    destruct (IH (S a)) as (H1 & H2 & H3);
      [lia | lia | intros; apply Hfail; lia | exact Ht |].
    destruct (call_llm_from model n (S a) rem) as [r evs].
    cbn [fst snd generations backoff_total] in *.
    split; [exact H1 |]. split; [rewrite H2; lia |].
    cbn [Nat.pow] in H3. lia.
Qed.

(** X6: [_call_llm] with max_retries >= 1 calls the model until it
    answers: when call number i < max_retries is the first to answer, the
    result is that answer stripped, after i + 1 calls and 2^i - 1 seconds
    of back-off; when all max_retries calls fail the result is the empty
    string, after 2^(max_retries-1) - 1 seconds (no sleep follows the last
    failure).  With max_retries = 0 the model is never called and the
    result is None. *)
Theorem call_llm_retries (model : nat -> Outcome) (max_retries : nat) :
  (1 <= max_retries ->
   (forall j, j < max_retries -> is_failed (model j) = true) ->
   fst (_call_llm model max_retries) = Some ""
   /\ generations (snd (_call_llm model max_retries)) = max_retries
   /\ backoff_total (snd (_call_llm model max_retries)) = 2 ^ (max_retries - 1) - 1)
  /\ (forall i t,
        i < max_retries ->
        (forall j, j < i -> is_failed (model j) = true) ->
        model i = Text t ->
        fst (_call_llm model max_retries) = Some (Py.strip t)
        /\ generations (snd (_call_llm model max_retries)) = i + 1
        /\ backoff_total (snd (_call_llm model max_retries)) = 2 ^ i - 1)
  /\ (max_retries = 0 -> _call_llm model max_retries = (None, [])).
Proof.
  unfold _call_llm. split; [| split].
  - intros Hn Hfail.
    destruct (all_fail max_retries model max_retries 0) as (H1 & H2 & H3);
      [lia | lia | intros; apply Hfail; lia |].
    rewrite Nat.pow_0_r in H3. repeat split; [exact H1 | exact H2 | lia].
  - intros i t Hi Hfail Ht.
    destruct (first_text max_retries model i t max_retries 0) as (H1 & H2 & H3);
      [lia | lia | intros; apply Hfail; lia | exact Ht |].
    rewrite Nat.pow_0_r in H3. repeat split; [exact H1 | lia | lia].
  - intros ->. reflexivity.
Qed.

Lemma call_llm_retries_witness :
  fst (_call_llm (fun i => if (i <? 2)%nat then Failed "503" else Text " kyc ")
         LLM_MAX_RETRIES) = Some "kyc"
  /\ backoff_total
       (snd (_call_llm (fun i => if (i <? 2)%nat then Failed "503" else Text " kyc ")
               LLM_MAX_RETRIES)) = 3
  /\ fst (_call_llm (fun _ => Failed "503") LLM_MAX_RETRIES) = Some "".
Proof.
  pose proof (proj1 (proj2 (call_llm_retries
                (fun i => if (i <? 2)%nat then Failed "503" else Text " kyc ")
                LLM_MAX_RETRIES)) 2 " kyc ") as H.
  destruct H as (H1 & _ & H3).
  { unfold LLM_MAX_RETRIES. lia. }
  { intros j Hj. destruct j as [|[|j]]; [reflexivity | reflexivity | lia]. }
  { reflexivity. }
  split; [exact H1 |]. split; [exact H3 |].
  apply (proj1 (call_llm_retries (fun _ => Failed "503") LLM_MAX_RETRIES)).
  - unfold LLM_MAX_RETRIES. lia.
  - intros j _. reflexivity.
Defined.

End LlmFacts.

(** ** Whole runs of the onboarding graph *)

Module RunFacts.
Import Supervisor RunSpec.

(** X7: whatever the LLM answers, the supervisor never routes to a stage
    before the stages that precede it are complete, routes to "complete"
    only when all four are, and never answers "end": the LLM can send a
    run back to an earlier stage, it cannot make it skip one. *)
Theorem supervisor_never_skips (llm : string) (st : OnboardingState) :
  exists a,
    u_next_agent (_supervisor_agent llm st) = Some a
    /\ a <> AGENT_END
    /\ (a = AGENT_SIGNUP \/ a = AGENT_COMPANY \/ a = AGENT_KYC
        \/ a = AGENT_BANK \/ a = AGENT_COMPLETE)
    /\ (a = AGENT_COMPANY -> signup_complete st = true)
    /\ (a = AGENT_KYC -> signup_complete st = true /\ company_complete st = true)
    /\ (a = AGENT_BANK ->
        signup_complete st = true /\ company_complete st = true
        /\ kyc_complete st = true)
    /\ (a = AGENT_COMPLETE -> all_complete st = true).
Proof.
  destruct (SupervisorFacts.supervisor_routing llm st) as (a & msg & -> & H).
  exists a. split; [reflexivity |].
  destruct H as [-> | [[-> H] | [[-> H] | [[-> H] | [-> H]]]]];
    (split; [discriminate |]); (split; [tauto |]);
    repeat split; try discriminate; tauto.
Qed.

(** The LLM answers "bank" while only signup is complete. *)
Lemma supervisor_never_skips_witness :
  exists a,
    u_next_agent (_supervisor_agent "bank" (with_flags true false false false))
    = Some a
    /\ a <> AGENT_END /\ (a = AGENT_BANK -> False).
Proof.
  destruct (supervisor_never_skips "bank" (with_flags true false false false))
    as (a & H1 & H2 & _ & _ & _ & H6 & _).
  exists a. split; [exact H1 |]. split; [exact H2 |].
  intros Ha. destruct (H6 Ha) as (_ & H & _). discriminate H.
Defined.

Section Run.
Variable env : Env.

Lemma run_S fuel k n st :
  Graph.run (exec env) edge (S fuel) k n st
  = match edge n (exec env k n st) with
    | Graph.ToNode n' => Graph.run (exec env) edge fuel (S k) n' (exec env k n st)
    | Graph.ToEnd => Graph.Finished (exec env k n st) (S k)
    | Graph.NoRoute key => Graph.RouteError key (S k)
    end.
Proof. reflexivity. Qed.

Lemma complete_step fuel k st :
  Graph.run (exec env) edge (S fuel) k n_complete st
  = Graph.Finished (exec env k n_complete st) (S k).
Proof. reflexivity. Qed.

Lemma stage_step fuel k n st :
  n <> n_supervisor -> n <> n_complete -> task_complete st = false ->
  Graph.run (exec env) edge (S fuel) k n st
  = Graph.run (exec env) edge fuel (S k) n_supervisor (exec env k n st).
Proof.
  intros Hs Hc Ht. rewrite run_S. unfold edge, _router.
  destruct (CeilingFacts.stage_node_back_to_supervisor env k n st Hs Hc) as [-> ->].
  rewrite Ht. reflexivity.
Qed.

(** A supervisor transition, whatever the LLM says. *)
Lemma supervisor_step fuel k st :
  task_complete st = false ->
  exists n' a msg,
    Graph.run (exec env) edge (S fuel) k n_supervisor st
    = Graph.run (exec env) edge fuel (S k) n' (merge st (routing a msg))
    /\ n' <> n_supervisor
    /\ (n' = n_complete -> all_complete st = true).
Proof.
  intros Ht. rewrite run_S. unfold edge, _router, exec, node_fun.
  destruct (SupervisorFacts.supervisor_routing (llm env k) st) as (a & msg & -> & H).
  destruct (CeilingFacts.merge_routing st a msg) as (-> & -> & _). rewrite Ht.
  cbn [default].
  destruct H as [-> | [[-> H] | [[-> H] | [[-> H] | [-> H]]]]].
  - exists n_signup, AGENT_SIGNUP, msg. repeat split; auto; discriminate.
  - exists n_company, AGENT_COMPANY, msg. repeat split; auto; discriminate.
  - exists n_kyc, AGENT_KYC, msg. repeat split; try tauto; discriminate.
  - exists n_bank, AGENT_BANK, msg. repeat split; try tauto; discriminate.
  - exists n_complete, AGENT_COMPLETE, msg. repeat split; auto; discriminate.
Qed.

(** A run that finishes went through the completion node, which is
    entered with the four flags set. *)
Lemma finished_all_complete fuel : forall k n st r m,
  task_complete st = false ->
  (n = n_complete -> all_complete st = true) ->
  Graph.run (exec env) edge fuel k n st = Graph.Finished r m ->
  all_complete r = true /\ is_Some (onboarding_id r) /\ task_complete r = true.
Proof.
  induction fuel as [|fuel IH]; intros k n st r m Ht Hn; [discriminate |].
  destruct (decide (n = n_complete)) as [-> | Hc].
  - rewrite complete_step. intros [= <- _].
    split; [exact (Hn eq_refl) |]. split; [eexists |]; reflexivity.
  - destruct (decide (n = n_supervisor)) as [-> | Hs].
    + destruct (supervisor_step fuel k st Ht) as (n' & a & msg & -> & _ & Hall).
      apply IH; [exact Ht | exact Hall].
    + rewrite (stage_step fuel k n st Hs Hc Ht).
      destruct (CeilingFacts.stage_node_back_to_supervisor env k n st Hs Hc) as [_ Ht'].
      apply IH; [congruence | discriminate].
Qed.

Lemma invoke_run limit st :
  Graph.invoke (exec env) edge limit n_supervisor st
  = Graph.run (exec env) edge limit 0 n_supervisor st.
Proof. reflexivity. Qed.

Lemma invoke_finished limit st r m :
  task_complete st = false ->
  Graph.invoke (exec env) edge limit n_supervisor st = Graph.Finished r m ->
  all_complete r = true /\ is_Some (onboarding_id r) /\ task_complete r = true.
Proof.
  intros Ht. rewrite invoke_run. apply finished_all_complete; [exact Ht | discriminate].
Qed.

Lemma reply_well_formed_of_outcome sid (o : Graph.Outcome OnboardingState) :
  (forall r m, o = Graph.Finished r m ->
     all_complete r = true /\ is_Some (onboarding_id r) /\ task_complete r = true) ->
  reply_well_formed (reply_of_outcome sid o).
Proof.
  intros H. destruct o as [r m | r m | key m]; cbn; [| reflexivity | reflexivity].
  destruct (H r m eq_refl) as (Hall & Hid & Ht). rewrite Ht.
  unfold all_complete in Hall.
  apply andb_true_iff in Hall as [[[H1 H2]%andb_true_iff H3]%andb_true_iff H4].
  repeat split; assumption.
Qed.

Lemma reply_completed sid (o : Graph.Outcome OnboardingState) r m :
  o = Graph.Finished r m -> task_complete r = true ->
  status_of (reply_of_outcome sid o) = STATUS_COMPLETED.
Proof. intros -> Ht. cbn. rewrite Ht. reflexivity. Qed.

Lemma reply_error sid (o : Graph.Outcome OnboardingState) st' m :
  o = Graph.GraphRecursionError st' m ->
  status_of (reply_of_outcome sid o) = STATUS_ERROR.
Proof. intros ->. reflexivity. Qed.

(** A supervisor transition when the LLM names no agent. *)
Lemma supervisor_step_quiet fuel k st :
  task_complete st = false -> no_keywords (llm env k) = true ->
  exists st1,
    Graph.run (exec env) edge (S fuel) k n_supervisor st
    = Graph.run (exec env) edge fuel (S k) (next_node st) st1
    /\ task_complete st1 = false
    /\ stages_done st1 = stages_done st
    /\ next_node st1 = next_node st.
Proof.
  intros Ht Hq. rewrite run_S. unfold edge, _router, exec, node_fun.
  apply SupervisorFacts.no_keywords_spec in Hq as (H1 & H2 & H3 & H4 & H5).
  unfold _supervisor_agent. rewrite H1, H2, H3, H4, H5.
  unfold next_node.
  destruct (signup_complete st) eqn:Es, (company_complete st) eqn:Ec,
    (kyc_complete st) eqn:Ek, (bank_complete st) eqn:Eb; cbn [negb orb andb];
    (match goal with
     | |- context [merge st (routing ?a ?msg)] =>
         exists (merge st (routing a msg));
         destruct (CeilingFacts.merge_routing st a msg) as (-> & -> & _)
     end); rewrite Ht;
    (split; [reflexivity |]); (split; [first [exact Ht | reflexivity] |]);
    unfold stages_done, next_node; cbn; rewrite ?Es, ?Ec, ?Ek, ?Eb; split; reflexivity.
Qed.

(** The stage the supervisor picks gains its flag exactly when the
    attempt succeeds; the other flags stay. *)
Lemma stage_attempt k st :
  stages_done st < 4 ->
  stages_done (exec env k (next_node st) st)
  = stages_done st + Nat.b2n (attempt_ok (attempt env k)).
Proof.
  unfold stages_done, next_node, exec, node_fun.
  destruct (signup_complete st) eqn:Es, (company_complete st) eqn:Ec,
    (kyc_complete st) eqn:Ek, (bank_complete st) eqn:Eb; cbn [negb Nat.b2n];
    try lia; intros _;
    destruct (attempt env k) as [[|] d | msg]; cbn; rewrite ?Es, ?Ec, ?Ek, ?Eb;
    reflexivity.
Qed.

Lemma next_node_stage st :
  stages_done st < 4 -> next_node st <> n_supervisor /\ next_node st <> n_complete.
Proof.
  unfold stages_done, next_node.
  destruct (signup_complete st), (company_complete st), (kyc_complete st),
    (bank_complete st); cbn; intros; try lia; split; discriminate.
Qed.

Lemma next_node_complete st : stages_done st = 4 -> next_node st = n_complete.
Proof.
  unfold stages_done, next_node.
  destruct (signup_complete st), (company_complete st), (kyc_complete st),
    (bank_complete st); cbn; intros; try lia; reflexivity.
Qed.

Section Quiet.
Hypothesis quiet : forall k, no_keywords (llm env k) = true.

(** A supervisor transition and the stage attempt that follows it. *)
Lemma round fuel k st :
  task_complete st = false -> stages_done st < 4 ->
  exists st2,
    Graph.run (exec env) edge (S (S fuel)) k n_supervisor st
    = Graph.run (exec env) edge fuel (S (S k)) n_supervisor st2
    /\ task_complete st2 = false
    /\ stages_done st2
       = stages_done st + Nat.b2n (attempt_ok (attempt env (S k))).
Proof.
  intros Ht Hd.
  destruct (supervisor_step_quiet (S fuel) k st Ht (quiet k))
    as (st1 & -> & Ht1 & Hd1 & Hn1).
  rewrite <- Hn1. rewrite <- Hd1 in Hd |- *.
  destruct (next_node_stage st1 Hd) as [Hs Hc].
  rewrite (stage_step fuel (S k) (next_node st1) st1 Hs Hc Ht1).
  destruct (CeilingFacts.stage_node_back_to_supervisor env (S k) (next_node st1) st1
              Hs Hc) as [_ Ht2].
  eexists. split; [reflexivity |]. split; [congruence |].
  apply stage_attempt. exact Hd.
Qed.

(** Once the four stages are complete the run ends in two transitions. *)
Lemma closing fuel k st :
  task_complete st = false -> stages_done st = 4 ->
  exists r,
    Graph.run (exec env) edge (S (S fuel)) k n_supervisor st
    = Graph.Finished r (S (S k))
    /\ onboarding_id r = Some ("ONB_" +:+ hex8 env (S k)).
Proof.
  intros Ht Hd.
  destruct (supervisor_step_quiet (S fuel) k st Ht (quiet k))
    as (st1 & -> & Ht1 & Hd1 & Hn1).
  rewrite (next_node_complete st Hd), complete_step.
  eexists. split; reflexivity.
Qed.

(** The run ends two transitions after the attempt that completes the
    fourth stage. *)
Lemma run_until_fourth j : forall fuel k st,
  task_complete st = false ->
  stages_done st + oks env k j = 3 ->
  attempt_ok (attempt env (S (k + 2 * j))) = true ->
  2 * j + 4 <= fuel ->
  exists r,
    Graph.run (exec env) edge fuel k n_supervisor st
    = Graph.Finished r (k + 2 * j + 4)
    /\ onboarding_id r = Some ("ONB_" +:+ hex8 env (k + 2 * j + 3)).
Proof.
  induction j as [|j IH]; intros fuel k st Ht Hd Hok Hfuel.
  - cbn [oks] in Hd. replace (k + 2 * 0) with k in Hok by lia.
    destruct fuel as [|[|[|[|fuel]]]]; try lia.
    destruct (round (S (S fuel)) k st Ht) as (st2 & -> & Ht2 & Hd2); [lia |].
    rewrite Hok in Hd2. cbn [Nat.b2n] in Hd2.
    destruct (closing fuel (S (S k)) st2 Ht2) as (r & -> & Hid); [lia |].
    exists r. split; [f_equal; lia |]. rewrite Hid. do 3 f_equal. lia.
  - cbn [oks] in Hd.
    destruct fuel as [|[|fuel]]; try lia.
    destruct (round fuel k st Ht) as (st2 & -> & Ht2 & Hd2); [lia |].
    destruct (IH fuel (S (S k)) st2 Ht2) as (r & -> & Hid).
    + lia.
    + rewrite <- Hok. do 2 f_equal. lia.
    + lia.
    + exists r. split; [f_equal; lia |]. rewrite Hid. do 3 f_equal. lia.
Qed.

(** With fewer than four successes among the attempts the limit leaves
    room for, the engine gives up. *)
Lemma run_out_of_steps m : forall fuel k st,
  task_complete st = false ->
  stages_done st + oks env k m < 4 ->
  fuel <= 2 * m + 2 ->
  exists st', Graph.run (exec env) edge fuel k n_supervisor st
              = Graph.GraphRecursionError st' (k + fuel).
Proof.
  induction m as [|m IH]; intros fuel k st Ht Hd Hfuel; cbn [oks] in Hd;
    (destruct fuel as [|[|fuel]];
     [ eexists; cbn [Graph.run]; f_equal; lia
     | destruct (supervisor_step 0 k st Ht) as (n' & a & msg & -> & _ & _);
       eexists; cbn [Graph.run]; f_equal; lia
     | destruct (round fuel k st Ht) as (st2 & -> & Ht2 & Hd2); [lia |] ]).
  - destruct fuel; [| lia]. eexists. cbn [Graph.run]. f_equal. lia.
  - destruct (IH fuel (S (S k)) st2 Ht2) as (st' & ->); [lia | lia |].
    exists st'. f_equal. lia.
Qed.
End Quiet.
End Run.

(** X8: a reply of [process_onboarding] is never partial: either the run
    reached the completion node, and then the status is "completed", the
    four flags are all true and an onboarding id is present, or the reply
    is the error reply.  (Every call starts from a state with no flag
    set, so a call must take all four stages to be anything but an
    error.) *)
Theorem reply_is_complete_or_error (env : Env) (user_message : string)
    (session_id : option string) (uuid : string) :
  reply_well_formed (process_onboarding env user_message session_id uuid).
Proof.
  rewrite CeilingFacts.process_onboarding_unfold.
  apply reply_well_formed_of_outcome. intros r m.
  rewrite CeilingFacts.graph_invoke_unfold.
  apply invoke_finished. reflexivity.
Qed.

(** X9: when the LLM names no agent, a failed stage attempt is simply
    made again, and a call is decided by its stage attempts alone (they
    are the transitions 1, 3, 5, ...).  If the fourth success is attempt
    number [j] (0-based) and [2 * j + 4] transitions fit the recursion
    limit, the run finishes after exactly [2 * j + 4] transitions with
    the onboarding id drawn at the last one and the reply says
    "completed"; so a run with no failure takes ten.  If fewer than four
    of the first 24 attempts succeed the call ends in the error reply. *)
Theorem quiet_run_outcome (env : Env) (user_message : string)
    (session_id : option string) (uuid : string) :
  (forall k, no_keywords (llm env k) = true) ->
  let st0 := initial_state user_message (effective_session_id session_id uuid) in
  let reply := process_onboarding env user_message session_id uuid in
  (forall j,
     oks env 0 j = 3 -> attempt_ok (attempt env (2 * j + 1)) = true ->
     2 * j + 4 <= recursion_limit ->
     exists r,
       graph_invoke env st0 = Graph.Finished r (2 * j + 4)
       /\ onboarding_id r = Some ("ONB_" +:+ hex8 env (2 * j + 3))
       /\ status_of reply = STATUS_COMPLETED)
  /\ (oks env 0 24 < 4 ->
      (exists st', graph_invoke env st0
                   = Graph.GraphRecursionError st' recursion_limit)
      /\ status_of reply = STATUS_ERROR)
  /\ recursion_limit = 50.
Proof.
  intros Hq st0 reply. subst st0 reply.
  rewrite CeilingFacts.process_onboarding_unfold.
  rewrite !CeilingFacts.graph_invoke_unfold, !invoke_run.
  split; [| split; [| reflexivity]].
  - intros j Hoks Hok Hfuel.
    destruct (run_until_fourth env Hq j recursion_limit 0
                (initial_state user_message (effective_session_id session_id uuid)))
      as (r & Hrun & Hid); [reflexivity | exact Hoks | | exact Hfuel |].
    { replace (S (0 + 2 * j)) with (2 * j + 1) by lia. exact Hok. }
    rewrite Nat.add_0_l in Hrun, Hid.
    exists r. split; [exact Hrun |]. split; [exact Hid |].
    apply (reply_completed _ _ r (2 * j + 4) Hrun).
    eapply proj2, proj2, finished_all_complete; [| | exact Hrun];
      [reflexivity | discriminate].
  - intros Hoks.
    destruct (run_out_of_steps env Hq 24 recursion_limit 0
                (initial_state user_message (effective_session_id session_id uuid)))
      as (st' & Hrun); [reflexivity | exact Hoks | unfold recursion_limit; lia |].
    rewrite Nat.add_0_l in Hrun.
    split; [exists st'; exact Hrun |].
    exact (reply_error _ _ st' recursion_limit Hrun).
Qed.

(** A run in which no attempt fails. *)
Lemma quiet_run_outcome_witness :
  (forall k, no_keywords (llm (mkEnv (fun _ => "") (fun _ => Processed true ∅)
                                (fun _ => "0A1B2C3D") (fun _ => "now")) k) = true)
  /\ exists r,
       graph_invoke (mkEnv (fun _ => "") (fun _ => Processed true ∅)
                       (fun _ => "0A1B2C3D") (fun _ => "now"))
         (initial_state "hello" (effective_session_id (Some "s1") "u1"))
       = Graph.Finished r (2 * 3 + 4)
       /\ onboarding_id r = Some ("ONB_" +:+ "0A1B2C3D")
       /\ status_of (process_onboarding
                       (mkEnv (fun _ => "") (fun _ => Processed true ∅)
                          (fun _ => "0A1B2C3D") (fun _ => "now"))
                       "hello" (Some "s1") "u1") = STATUS_COMPLETED.
Proof.
  split; [intros k; reflexivity |].
  apply (proj1 (quiet_run_outcome
                  (mkEnv (fun _ => "") (fun _ => Processed true ∅)
                     (fun _ => "0A1B2C3D") (fun _ => "now"))
                  "hello" (Some "s1") "u1" (fun k => eq_refl)) 3).
  - reflexivity.
  - reflexivity.
  - unfold recursion_limit. lia.
Defined.

End RunFacts.

(** ** Patterns on characters *)

Module UReFacts.
Import URe.

Lemma u_matches_nil_nullable r l : matches r l -> l = [] -> nullable r = true.
Proof.
  induction 1 as [| p c Hp | r1 r2 l1 l2 H1 IH1 H2 IH2 | r1 r2 l H IH
                  | r1 r2 l H IH | r | r l1 l2 H1 IH1 H2 IH2]; intros E; cbn.
  - reflexivity.
  - discriminate.
  - apply app_eq_nil in E as [-> ->]. now rewrite IH1, IH2.
  - now rewrite IH.
  - rewrite (IH E). apply orb_true_r.
  - reflexivity.
  - reflexivity.
Qed.

Lemma u_nullable_matches r : nullable r = true -> matches r [].
Proof.
  induction r as [| | p | r1 IH1 r2 IH2 | r1 IH1 r2 IH2 | r IH]; cbn.
  - discriminate.
  - intros _. constructor.
  - discriminate.
  - intros [H1 H2]%andb_true_iff. change (@nil N) with (@nil N ++ []).
    constructor; auto.
  - intros [H | H]%orb_true_iff; [apply m_alt_l | apply m_alt_r]; auto.
  - intros _. constructor.
Qed.

Lemma u_deriv_sound c r : forall l, matches (deriv c r) l -> matches r (c :: l).
Proof.
  induction r as [| | p | r1 IH1 r2 IH2 | r1 IH1 r2 IH2 | r IH]; cbn; intros l H.
  - inversion H.
  - inversion H.
  - destruct (p c) eqn:Hp; inversion H; subst. now constructor.
  - destruct (nullable r1) eqn:Hn.
    + inversion H as [| | | ? ? ? Hl | ? ? ? Hr | |]; subst.
      * inversion Hl as [| | ? ? l1 l2 Ha Hb | | | |]; subst.
        change (c :: l1 ++ l2) with ((c :: l1) ++ l2).
        constructor; auto.
      * change (c :: l) with ([] ++ c :: l).
        constructor; [now apply u_nullable_matches | auto].
    + inversion H as [| | ? ? l1 l2 Ha Hb | | | |]; subst.
      change (c :: l1 ++ l2) with ((c :: l1) ++ l2).
      constructor; auto.
  - inversion H; subst; [apply m_alt_l | apply m_alt_r]; auto.
  - inversion H as [| | ? ? l1 l2 Ha Hb | | | |]; subst.
    change (c :: l1 ++ l2) with ((c :: l1) ++ l2).
    constructor; auto.
Qed.

Lemma u_app_eq_cons (l1 l2 : list N) c l :
  l1 ++ l2 = c :: l ->
  (l1 = [] /\ l2 = c :: l) \/ exists l1', l1 = c :: l1' /\ l = l1' ++ l2.
Proof.
  destruct l1 as [|c1 l1]; [auto |].
  cbn. intros [= -> <-]. right. eauto.
Qed.

Lemma u_deriv_complete r cl :
  matches r cl -> forall c l, cl = c :: l -> matches (deriv c r) l.
Proof.
  induction 1 as [| p c0 Hp | r1 r2 l1 l2 H1 IH1 H2 IH2 | r1 r2 l0 H IH
                  | r1 r2 l0 H IH | r | r l1 l2 H1 IH1 H2 IH2]; intros c l E; cbn.
  - discriminate.
  - injection E as -> <-. rewrite Hp. constructor.
  - apply u_app_eq_cons in E as [[-> ->] | (l1' & -> & ->)].
    + rewrite (u_matches_nil_nullable r1 [] H1 eq_refl).
      apply m_alt_r. now apply IH2.
    + destruct (nullable r1);
        [apply m_alt_l |]; constructor; auto.
  - apply m_alt_l. now apply IH.
  - apply m_alt_r. now apply IH.
  - discriminate.
  - apply u_app_eq_cons in E as [[-> ->] | (l1' & -> & ->)].
    + now apply IH2.
    + constructor; auto.
Qed.

(** The derivative matcher decides the language of the pattern. *)
Lemma u_fullmatch_spec l : forall r, fullmatch r l = true <-> matches r l.
Proof.
  induction l as [|c l IH]; intros r; cbn.
  - split; [apply u_nullable_matches | intros H; now apply (u_matches_nil_nullable r [])].
  - rewrite IH. split; [apply u_deriv_sound | intros H; now apply (u_deriv_complete r _ H)].
Qed.

Lemma u_matches_seq r1 r2 l :
  matches (Seq r1 r2) l
  <-> exists l1 l2, l = l1 ++ l2 /\ matches r1 l1 /\ matches r2 l2.
Proof.
  split.
  - intros H. inversion H; subst. eauto.
  - intros (l1 & l2 & -> & H1 & H2). now constructor.
Qed.

Lemma u_matches_class p l :
  matches (Class p) l <-> exists c, l = [c] /\ p c = true.
Proof.
  split.
  - intros H. inversion H; subst. eauto.
  - intros (c & -> & Hp). now constructor.
Qed.

Lemma u_matches_rep_class p n : forall l,
  matches (rep n (Class p)) l <-> length l = n /\ forallb p l = true.
Proof.
  induction n as [|n IH]; intros l; cbn [rep].
  - split.
    + intros H. inversion H. split; reflexivity.
    + intros [Hlen _]. destruct l; [constructor | discriminate].
  - rewrite u_matches_seq. split.
    + intros (l1 & l2 & -> & (c & -> & Hp)%u_matches_class & [Hlen Hall]%IH).
      cbn. rewrite Hp, Hall, Hlen. split; reflexivity.
    + intros [Hlen Hall]. destruct l as [|c l]; [discriminate |].
      cbn in Hlen, Hall. apply andb_true_iff in Hall as [Hp Hs].
      exists [c], l. split; [reflexivity |].
      split; [apply u_matches_class; eauto | apply IH; split; [lia | exact Hs]].
Qed.

Lemma u_matches_char x l : matches (rep 1 (Class (char x))) l <-> l = [x].
Proof.
  rewrite u_matches_rep_class. split.
  - intros [Hlen Hall]. destruct l as [|c [|c2 l]]; try discriminate.
    cbn in Hall. rewrite andb_true_r in Hall. unfold char in Hall.
    apply N.eqb_eq in Hall. now subst.
  - intros ->. split; [reflexivity |]. cbn. unfold char. now rewrite N.eqb_refl.
Qed.

Lemma u_chomp_cons c c2 l :
  chomp (c :: c2 :: l)
  = match chomp (c2 :: l) with
    | Some r => Some (c :: r)
    | None => None
    end.
Proof. reflexivity. Qed.

(** [chomp l = Some t] exactly when [l] is [t] followed by a newline. *)
Lemma u_chomp_spec l : forall t, chomp l = Some t <-> l = t ++ [newline].
Proof.
  induction l as [|c l IH]; intros t.
  - split; [discriminate | intros H; destruct t; discriminate H].
  - destruct l as [|c2 l].
    + cbn [chomp]. destruct (N.eqb c newline) eqn:E.
      * apply N.eqb_eq in E. subst c. split.
        -- intros [= <-]. reflexivity.
        -- intros H. destruct t as [|x [|y t]]; [reflexivity | |]; discriminate H.
      * apply N.eqb_neq in E. split; [discriminate |].
        intros H. destruct t as [|x [|y t]]; [| |]; try discriminate H.
        injection H as ->. congruence.
    + rewrite u_chomp_cons. split.
      * destruct (chomp (c2 :: l)) as [r|] eqn:Er; [| discriminate].
        intros [= <-]. cbn. now rewrite (proj1 (IH r) eq_refl).
      * intros H. destruct t as [|x t]; [discriminate H |].
        cbn in H. injection H as <- H. apply IH in H. rewrite H. reflexivity.
Qed.

Lemma u_match_anchored_spec r l :
  match_anchored r l = true <-> up_to_newline (matches r) l.
Proof.
  unfold match_anchored, up_to_newline.
  rewrite orb_true_iff, u_fullmatch_spec. split.
  - intros [H | H]; [now left |]. right.
    destruct (chomp l) as [t|] eqn:E; [| discriminate].
    apply u_chomp_spec in E. apply u_fullmatch_spec in H. eauto.
  - intros [H | (body & E & H)]; [now left |]. right.
    apply u_chomp_spec in E. rewrite E. now apply u_fullmatch_spec.
Qed.

Lemma u_up_to_newline_iff (P Q : list N -> Prop) l :
  (forall t, P t <-> Q t) -> up_to_newline P l <-> up_to_newline Q l.
Proof.
  intros H. unfold up_to_newline. rewrite H.
  split; (intros [HP | (b & -> & HP)]; [now left | right; exists b]);
    (split; [reflexivity | now apply H]).
Qed.

End UReFacts.

(** ** The bank details agent *)

Module AgentFacts.
Import Json ReSem.

(** Membership in a literal list. *)
Ltac in_list := cbn; repeat (first [left; reflexivity | right]).

Lemma match_anchored_spec r s :
  PyStr.match_anchored r s = true
  <-> BankAgent.up_to_newline (matches r) s.
Proof.
  unfold PyStr.match_anchored, BankAgent.up_to_newline.
  rewrite orb_true_iff, ReFacts.fullmatch_spec. split.
  - intros [H | H]; [now left |]. right.
    destruct (PyStr.chomp s) as [t|] eqn:E; [| discriminate].
    apply ReFacts.chomp_spec in E. apply ReFacts.fullmatch_spec in H. eauto.
  - intros [H | (body & -> & H)]; [now left |]. right.
    rewrite ReFacts.chomp_complete. now apply ReFacts.fullmatch_spec.
Qed.

Lemma up_to_newline_iff (P Q : string -> Prop) s :
  (forall t, P t <-> Q t) ->
  BankAgent.up_to_newline P s <-> BankAgent.up_to_newline Q s.
Proof.
  intros H. unfold BankAgent.up_to_newline. rewrite H.
  split; (intros [HP | (b & -> & HP)]; [now left | right; exists b]);
    (split; [reflexivity | now apply H]).
Qed.

Lemma get_truthy d k :
  truthy (get d k) = true ->
  exists v, d !! k = Some v /\ truthy v = true.
Proof.
  unfold get. destruct (d !! k) as [v|]; [eauto | discriminate].
Qed.

Lemma get_or_lookup dflt d k v : d !! k = Some v -> get_or dflt d k = v.
Proof. unfold get_or. intros H. rewrite H. reflexivity. Qed.

Lemma get_lookup d k v : d !! k = Some v -> get d k = v.
Proof. unfold get. intros H. rewrite H. reflexivity. Qed.

Lemma missing_fields_nil fields d :
  missing_fields fields d = [] <-> forall k, In k fields -> truthy (get d k) = true.
Proof.
  unfold missing_fields. induction fields as [|f fields IH]; cbn [flat_map].
  - split; [intros _ k [] | reflexivity].
  - destruct (truthy (get d f)) eqn:E.
    + rewrite app_nil_l, IH. split.
      * intros H k [<- | Hk]; [exact E | now apply H].
      * intros H k Hk. apply H. now right.
    + split; [discriminate |]. intros H.
      rewrite (H f) in E; [discriminate | now left].
Qed.

Lemma validation_success errors :
  success (validation_of errors) = true <-> errors = [].
Proof. destruct errors; cbn; split; congruence. Qed.

Lemma validated fields d e v :
  Ok (validation_of (missing_fields fields d ++ e)) = Ok v -> success v = true ->
  (forall k, In k fields -> truthy (get d k) = true) /\ e = [].
Proof.
  intros [= <-] Hs. apply validation_success in Hs.
  destruct (app_eq_nil (missing_fields fields d) e Hs) as [Hm He].
  split; [now apply missing_fields_nil | exact He].
Qed.

End AgentFacts.

Module BankFacts.
Import Json ReSem BankAgent.

Lemma ifsc_pattern_spec s : matches ifsc_pattern s <-> ifsc_shape s.
Proof.
  unfold ifsc_pattern, ifsc_shape. rewrite ReFacts.matches_seq. split.
  - intros (s1 & s2 & -> & H1 & H2).
    apply ReFacts.matches_rep_class in H1 as [L1 A1].
    apply ReFacts.matches_seq in H2 as (s3 & s4 & -> & H3 & H4).
    apply ReFacts.matches_char in H3 as ->.
    apply ReFacts.matches_rep_class in H4 as [L4 A4].
    exists s1, s4. repeat split; assumption.
  - intros (bank & branch & -> & L1 & A1 & L2 & A2).
    exists bank, ("0" +:+ branch). split; [reflexivity |]. split.
    + now apply ReFacts.matches_rep_class.
    + apply ReFacts.matches_seq. exists "0", branch. split; [reflexivity |].
      split; [now apply ReFacts.matches_char | now apply ReFacts.matches_rep_class].
Qed.

Section Agent.
Context {U : Unicode.Database}.

Lemma check_account_number_cases v :
  (truthy v = false /\ check_account_number v = Ok [])
  \/ (exists s, v = JStr s /\ truthy v = true
               /\ check_account_number v
                  = Ok (if negb (Unicode.isdigit s)
                        then ["Account number must contain only digits"] else []))
  \/ (truthy v = true /\ (forall s, v <> JStr s)
      /\ check_account_number v = Raised AttributeError).
Proof.
  unfold check_account_number. destruct (truthy v) eqn:E; [| now left].
  right. destruct v; try (right; repeat split; congruence).
  left. eauto.
Qed.

Lemma check_ifsc_code_cases v :
  (truthy v = false /\ check_ifsc_code v = Ok [])
  \/ (exists s, v = JStr s /\ truthy v = true
               /\ check_ifsc_code v
                  = Ok (if negb (PyStr.match_anchored ifsc_pattern s)
                        then ["Invalid IFSC code format"] else []))
  \/ (truthy v = true /\ (forall s, v <> JStr s)
      /\ check_ifsc_code v = Raised TypeError).
Proof.
  unfold check_ifsc_code. destruct (truthy v) eqn:E; [| now left].
  right. destruct v; try (right; repeat split; congruence).
  left. eauto.
Qed.

Lemma check_account_holder_cases v :
  (truthy v = false /\ check_account_holder v = Ok [])
  \/ (exists s, v = JStr s /\ truthy v = true
               /\ check_account_holder v
                  = Ok (if (Unicode.len (Unicode.strip s) <? 2)%nat
                        then ["Account holder name must be at least 2 characters"]
                        else []))
  \/ (truthy v = true /\ (forall s, v <> JStr s)
      /\ check_account_holder v = Raised AttributeError).
Proof.
  unfold check_account_holder. destruct (truthy v) eqn:E; [| now left].
  right. destruct v; try (right; repeat split; congruence).
  left. eauto.
Qed.

Lemma status_completed d sid uuid hex8 now :
  status (process_bank_details d sid uuid hex8 now) = "completed"
  <-> exists v, _validate_bank_data d = Ok v /\ success v = true.
Proof.
  unfold process_bank_details.
  destruct (_validate_bank_data d) as [v | e]; cbn.
  - destruct (success v) eqn:Es; cbn; split; try discriminate; eauto.
    intros (v' & [= <-] & H). congruence.
  - split; [discriminate | intros (v & H & _); discriminate H].
Qed.

Lemma status_error d sid uuid hex8 now :
  status (process_bank_details d sid uuid hex8 now) = "error"
  <-> exists e, _validate_bank_data d = Raised e.
Proof.
  unfold process_bank_details.
  destruct (_validate_bank_data d) as [v | e]; cbn.
  - destruct (success v); cbn; split; try discriminate; intros [e H]; discriminate H.
  - split; eauto.
Qed.

End Agent.

Lemma falsy_default d k :
  d !! k = None -> truthy (get_or (JStr "") d k) = false.
Proof. unfold get_or. intros H. rewrite H. reflexivity. Qed.

Lemma truthy_get_or d k :
  truthy (get_or (JStr "") d k) = truthy (get d k).
Proof. unfold get_or, get. now destruct (d !! k). Qed.

Lemma get_or_is_str d k s :
  get_or (JStr "") d k = JStr s -> truthy (JStr s) = true ->
  d !! k = Some (JStr s).
Proof.
  unfold get_or. destruct (d !! k) as [v|]; cbn.
  - intros ->. reflexivity.
  - intros [= <-]. discriminate.
Qed.

(** X10: [process_bank_details] completes exactly on data whose holder
    name, account number and IFSC code are strings, the name with at
    least two characters once the white space around it is stripped,
    the number not empty and made of characters that are digits (of any
    script: [str.isdigit]), the code of the form AAAA0XXXXXX (a newline
    may follow it), and whose bank name is anything truthy.  It answers
    "error", not "validation_failed", exactly when the number, the code
    or the name is a truthy value that is not a string (a JSON number
    for the account number, say).  Characters, white space and digits
    are those of the Unicode character database, whatever it is. *)
Theorem bank_details_outcome {U : Unicode.Database} (d : gmap string json)
    (sid : option string) (uuid hex8 now : string) :
  let r := process_bank_details d sid uuid hex8 now in
  (status r = "completed" <-> acceptable d)
  /\ (status r = "error" <-> ill_typed d).
Proof.
  cbn zeta. rewrite status_completed, status_error.
  unfold _validate_bank_data, acceptable, ill_typed.
  pose proof (truthy_get_or d "account_number") as T1.
  pose proof (truthy_get_or d "ifsc_code") as T2.
  pose proof (truthy_get_or d "account_holder_name") as T3.
  destruct (check_account_number_cases (get_or (JStr "") d "account_number"))
    as [[F1 ->] | [(s1 & E1 & F1 & ->) | (F1 & N1 & ->)]];
  destruct (check_ifsc_code_cases (get_or (JStr "") d "ifsc_code"))
    as [[F2 ->] | [(s2 & E2 & F2 & ->) | (F2 & N2 & ->)]];
  destruct (check_account_holder_cases (get_or (JStr "") d "account_holder_name"))
    as [[F3 ->] | [(s3 & E3 & F3 & ->) | (F3 & N3 & ->)]];
  cbn [mbind result_bind]; unfold mret, result_ret.
  all: rewrite F1 in T1; rewrite F2 in T2; rewrite F3 in T3.
  all: split; [split | split].
  (* completed -> acceptable *)
  all: try solve
         [ intros (v & Hv & Hs);
           destruct (AgentFacts.validated _ _ _ _ Hv Hs) as [Hall _];
           first
             [ rewrite (Hall "account_number") in T1 by AgentFacts.in_list; discriminate T1
             | rewrite (Hall "ifsc_code") in T2 by AgentFacts.in_list; discriminate T2
             | rewrite (Hall "account_holder_name") in T3 by AgentFacts.in_list;
               discriminate T3 ] ].
  all: try solve [intros (v & H & _); discriminate H].
  all: try solve [intros (e & H); discriminate H].
  all: try solve [intros _; eexists; reflexivity].
  (* acceptable -> completed, in the cases where a check did not pass *)
  all: try solve
         [ intros (h & n & c & Hh & Lh & Hn & Dn & Hc & Sc & Hb);
           rewrite ?(AgentFacts.get_lookup _ _ _ Hn) in T1;
           rewrite ?(AgentFacts.get_lookup _ _ _ Hc) in T2;
           rewrite ?(AgentFacts.get_lookup _ _ _ Hh) in T3;
           rewrite ?(AgentFacts.get_or_lookup _ _ _ _ Hn) in *;
           rewrite ?(AgentFacts.get_or_lookup _ _ _ _ Hc) in *;
           rewrite ?(AgentFacts.get_or_lookup _ _ _ _ Hh) in *;
           exfalso;
           first
             [ now apply (N1 n) | now apply (N2 c) | now apply (N3 h)
             | destruct n; [discriminate Dn | discriminate F1]
             | destruct h; [cbn in Lh; lia | discriminate F3]
             | destruct Sc as [Sc | (b & -> & Sc)];
               [ destruct Sc as (bk & br & -> & Lb & _);
                 destruct bk; [discriminate Lb | discriminate F2]
               | destruct b; discriminate F2 ] ] ].
  (* ill typed -> raised, in the cases where no check raised *)
  all: try solve
         [ intros (k & v & Hk & Hv & Tv & Nv);
           exfalso; cbn in Hk;
           destruct_or! Hk; try exact Hk; subst k;
           rewrite ?(AgentFacts.get_or_lookup _ _ _ _ Hv) in *;
           rewrite ?(AgentFacts.get_lookup _ _ _ Hv) in *;
           first [ congruence
                 | now apply (Nv s1) | now apply (Nv s2) | now apply (Nv s3) ] ].
  (* raised -> ill typed *)
  all: try solve
         [ intros _;
           first
             [ destruct (AgentFacts.get_truthy d "account_number") as (v & Hv & Tv);
               [ congruence |];
               exists "account_number", v;
               rewrite (AgentFacts.get_or_lookup _ _ _ _ Hv) in N1;
               split; [AgentFacts.in_list | split; [exact Hv | split; [exact Tv | exact N1]]]
             | destruct (AgentFacts.get_truthy d "ifsc_code") as (v & Hv & Tv);
               [ congruence |];
               exists "ifsc_code", v;
               rewrite (AgentFacts.get_or_lookup _ _ _ _ Hv) in N2;
               split; [AgentFacts.in_list | split; [exact Hv | split; [exact Tv | exact N2]]]
             | destruct (AgentFacts.get_truthy d "account_holder_name")
                 as (v & Hv & Tv); [ congruence |];
               exists "account_holder_name", v;
               rewrite (AgentFacts.get_or_lookup _ _ _ _ Hv) in N3;
               split; [AgentFacts.in_list | split; [exact Hv | split; [exact Tv | exact N3]]]
             ] ].
  (* the case where the three values are truthy strings *)
  - intros (v & Hv & Hs).
    destruct (AgentFacts.validated _ _ _ _ Hv Hs) as [Hall He].
    destruct (app_eq_nil _ _ He) as [H1 He']. destruct (app_eq_nil _ _ He') as [H2 H3].
    exists s3, s1, s2.
    destruct (Unicode.isdigit s1) eqn:D1; [| discriminate H1].
    destruct (PyStr.match_anchored ifsc_pattern s2) eqn:D2; [| discriminate H2].
    destruct (Unicode.len (Unicode.strip s3) <? 2)%nat eqn:D3; [discriminate H3 |].
    apply Nat.ltb_ge in D3.
    rewrite E1 in F1. rewrite E2 in F2. rewrite E3 in F3.
    split; [now apply get_or_is_str |]. split; [exact D3 |].
    split; [now apply get_or_is_str |]. split; [reflexivity |].
    split; [now apply get_or_is_str |]. split.
    + apply AgentFacts.match_anchored_spec in D2.
      exact (proj1 (AgentFacts.up_to_newline_iff _ _ _ ifsc_pattern_spec) D2).
    + apply Hall. AgentFacts.in_list.
  - intros (h & n & c & Hh & Lh & Hn & Dn & Hc & Sc & Hb).
    rewrite (AgentFacts.get_or_lookup _ _ _ _ Hn) in E1. injection E1 as <-.
    rewrite (AgentFacts.get_or_lookup _ _ _ _ Hc) in E2. injection E2 as <-.
    rewrite (AgentFacts.get_or_lookup _ _ _ _ Hh) in E3. injection E3 as <-.
    rewrite Dn.
    assert (D2 : PyStr.match_anchored ifsc_pattern c = true).
    { apply AgentFacts.match_anchored_spec.
      exact (proj2 (AgentFacts.up_to_newline_iff _ _ _ ifsc_pattern_spec) Sc). }
    rewrite D2. apply Nat.ltb_ge in Lh. rewrite Lh. cbn [negb].
    eexists. split; [reflexivity |].
    apply AgentFacts.validation_success. rewrite !app_nil_r.
    apply AgentFacts.missing_fields_nil. intros k Hk. cbn in Hk.
    destruct Hk as [<- | [<- | [<- | [<- | []]]]]; try exact Hb; congruence.
Qed.

(** An account number in Arabic-Indic digits is made of digits; a
    holder name of one character between ideographic spaces is too
    short, though its encoding has nine bytes. *)
Example bank_details_other_scripts :
  let d holder number : gmap string json :=
    {["account_holder_name" := JStr holder; "account_number" := JStr number;
      "ifsc_code" := JStr "HDFC0001234"; "bank_name" := JStr "HDFC"]} in
  status (process_bank_details (U := Unicode.excerpt) (d "Jane Doe" "٠١٢٣٤٥٦٧٨٩")
            (Some "s1") "u1" "0A1B2C3D" "t0") = "completed"
  /\ status (process_bank_details (U := Unicode.excerpt) (d "　李　" "0123456789")
               (Some "s1") "u1" "0A1B2C3D" "t0") = "validation_failed".
Proof. split; vm_compute; reflexivity. Qed.

End BankFacts.

(** ** The company details agent *)

Module CompanyFacts.
Import Json CompanyAgent.

Lemma prefix_spec needle : forall hay,
  String.prefix needle hay = true <-> exists after, hay = needle +:+ after.
Proof.
  induction needle as [|c needle IH]; intros hay.
  - split; [intros _; exists hay; reflexivity | intros _; destruct hay; reflexivity].
  - destruct hay as [|c' hay]; cbn [String.prefix].
    + split; [discriminate | intros [after H]; discriminate H].
    + destruct (Ascii.ascii_dec c c') as [<- | Hne].
      * rewrite IH. split; intros [after H]; exists after.
        -- rewrite ReFacts.app_cons. now f_equal.
        -- rewrite ReFacts.app_cons in H. now injection H.
      * split; [discriminate |]. intros [after H].
        rewrite ReFacts.app_cons in H. injection H as H _. congruence.
Qed.

Lemma str_contains_spec needle hay :
  Py.str_contains needle hay = true <-> occurs_in needle hay.
Proof.
  unfold occurs_in. induction hay as [|c hay IH]; cbn [Py.str_contains].
  - rewrite prefix_spec. split.
    + intros [after H]. exists "", after. exact H.
    + intros (before & after & H). symmetry in H.
      apply ReFacts.app_eq_nil in H as [-> H].
      apply ReFacts.app_eq_nil in H as [-> ->]. exists "". reflexivity.
  - rewrite orb_true_iff, prefix_spec, IH. split.
    + intros [[after H] | (before & after & H)].
      * exists "", after. exact H.
      * exists (String c before), after. rewrite ReFacts.app_cons. now f_equal.
    + intros (before & after & H). destruct before as [|c' before].
      * left. exists after. exact H.
      * right. rewrite ReFacts.app_cons in H. injection H as -> ->. eauto.
Qed.

Lemma lower_app s1 s2 : Py.lower (s1 +:+ s2) = Py.lower s1 +:+ Py.lower s2.
Proof.
  induction s1 as [|c s1 IH]; [reflexivity |].
  rewrite ReFacts.app_cons. cbn [Py.lower]. rewrite IH. reflexivity.
Qed.

Lemma occurs_in_extend needle word before after :
  occurs_in needle word -> occurs_in needle (before +:+ word +:+ after).
Proof.
  intros (b & a & ->). exists (before +:+ b), (a +:+ after).
  now rewrite !ReFacts.app_assoc.
Qed.

Lemma contains_any_spec keywords s :
  contains_any keywords s = true <-> exists k, In k keywords /\ occurs_in k s.
Proof.
  unfold contains_any. rewrite existsb_exists.
  split; intros (k & Hk & H); exists k; (split; [exact Hk |]);
    now apply str_contains_spec.
Qed.

Lemma detect_of_name d name :
  d !! "company_name" = Some (JStr name) ->
  _detect_company_type d
  = Ok (if contains_any ["ltd"; "limited"; "corp"; "corporation"] (Py.lower name)
        then "Corporation"
        else if contains_any ["llc"; "llp"; "partnership"] (Py.lower name)
        then "LLC/Partnership"
        else if contains_any ["pvt"; "private"] (Py.lower name)
        then "Private Limited"
        else "Business Entity").
Proof.
  intros H. unfold _detect_company_type.
  rewrite (AgentFacts.get_or_lookup _ _ _ _ H). reflexivity.
Qed.

(** X11: the company type is decided by the first keyword group that
    occurs in the lower-cased name: "Corporation" exactly when "ltd",
    "limited" or "corp" occurs, "Private Limited" exactly when "pvt" or
    "private" occurs and none of "ltd", "limited", "corp", "llc", "llp",
    "partnership" does.  So a name that contains "Private Limited", in
    any letter case, is classified "Corporation". *)
Theorem company_type_priority (d : gmap string json) (name : string) :
  d !! "company_name" = Some (JStr name) ->
  let n := Py.lower name in
  (_detect_company_type d = Ok "Corporation"
   <-> occurs_in "ltd" n \/ occurs_in "limited" n \/ occurs_in "corp" n)
  /\ (_detect_company_type d = Ok "Private Limited"
      <-> (occurs_in "pvt" n \/ occurs_in "private" n)
          /\ ~ (occurs_in "ltd" n \/ occurs_in "limited" n \/ occurs_in "corp" n
                \/ occurs_in "llc" n \/ occurs_in "llp" n
                \/ occurs_in "partnership" n))
  /\ (forall before word after,
        name = before +:+ word +:+ after ->
        Py.lower word = "private limited" ->
        _detect_company_type d = Ok "Corporation").
Proof.
  intros Hname n. rewrite (detect_of_name d name Hname). fold n.
  assert (H1 : contains_any ["ltd"; "limited"; "corp"; "corporation"] n = true
               <-> occurs_in "ltd" n \/ occurs_in "limited" n \/ occurs_in "corp" n).
  { rewrite contains_any_spec. split.
    - intros (k & Hk & H). cbn in Hk.
      destruct Hk as [<- | [<- | [<- | [<- | []]]]]; auto.
      right. right. destruct H as (b & a & ->).
      exists b, ("oration" +:+ a). reflexivity.
    - intros [H | [H | H]]; eexists; (split; [| exact H]); AgentFacts.in_list. }
  assert (H2 : contains_any ["llc"; "llp"; "partnership"] n = true
               <-> occurs_in "llc" n \/ occurs_in "llp" n
                   \/ occurs_in "partnership" n).
  { rewrite contains_any_spec. split.
    - intros (k & Hk & H). cbn in Hk.
      destruct Hk as [<- | [<- | [<- | []]]]; auto.
    - intros [H | [H | H]]; eexists; (split; [| exact H]); AgentFacts.in_list. }
  assert (H3 : contains_any ["pvt"; "private"] n = true
               <-> occurs_in "pvt" n \/ occurs_in "private" n).
  { rewrite contains_any_spec. split.
    - intros (k & Hk & H). cbn in Hk. destruct Hk as [<- | [<- | []]]; auto.
    - intros [H | H]; eexists; (split; [| exact H]); AgentFacts.in_list. }
  split; [| split].
  - rewrite <- H1.
    destruct (contains_any ["ltd"; "limited"; "corp"; "corporation"] n);
      [split; reflexivity |].
    destruct (contains_any ["llc"; "llp"; "partnership"] n);
      [split; discriminate |].
    destruct (contains_any ["pvt"; "private"] n); split; discriminate.
  - rewrite <- H3.
    destruct (contains_any ["ltd"; "limited"; "corp"; "corporation"] n) eqn:E1.
    + split; [discriminate |]. intros [_ Hn]. exfalso. apply Hn.
      destruct (proj1 H1 eq_refl) as [H | [H | H]]; auto.
    + destruct (contains_any ["llc"; "llp"; "partnership"] n) eqn:E2.
      * split; [discriminate |]. intros [_ Hn]. exfalso. apply Hn.
        destruct (proj1 H2 eq_refl) as [H | [H | H]]; auto 7.
      * destruct (contains_any ["pvt"; "private"] n) eqn:E3.
        -- split; [| reflexivity]. intros _. split; [reflexivity |].
           intros [H | [H | [H | H]]].
           ++ discriminate (proj2 H1 (or_introl H)).
           ++ discriminate (proj2 H1 (or_intror (or_introl H))).
           ++ discriminate (proj2 H1 (or_intror (or_intror H))).
           ++ discriminate (proj2 H2 H).
        -- split; [discriminate | intros [H _]; discriminate H].
  - intros before word after -> Hw.
    assert (Hc : contains_any ["ltd"; "limited"; "corp"; "corporation"] n = true).
    { apply H1. right. left. subst n.
      rewrite !lower_app, Hw. apply occurs_in_extend.
      exists "private ", "". reflexivity. }
    rewrite Hc. reflexivity.
Qed.

(** A name in capitals. *)
Lemma company_type_priority_witness :
  ({["company_name" := JStr "ACME PRIVATE LIMITED"]} : gmap string json)
    !! "company_name" = Some (JStr "ACME PRIVATE LIMITED")
  /\ _detect_company_type {["company_name" := JStr "ACME PRIVATE LIMITED"]}
     = Ok "Corporation".
Proof.
  assert (H : ({["company_name" := JStr "ACME PRIVATE LIMITED"]}
                 : gmap string json) !! "company_name"
              = Some (JStr "ACME PRIVATE LIMITED")) by (vm_compute; reflexivity).
  split; [exact H |].
  apply (proj2 (proj2 (company_type_priority _ _ H))
           "ACME " "PRIVATE LIMITED" ""); reflexivity.
Defined.

Section Agent.
Context {U : Unicode.Database}.

Lemma validate_after_type d ty :
  _validate_company_data (<["company_type" := JStr ty]> d)
  = _validate_company_data d.
Proof.
  unfold _validate_company_data, missing_fields, required_fields, get, get_or.
  cbn [flat_map]. rewrite !lookup_insert_ne by discriminate. reflexivity.
Qed.

Lemma name_cases d :
  d !! "company_name" = None
  \/ (exists s, d !! "company_name" = Some (JStr s))
  \/ name_ill_typed d.
Proof.
  unfold name_ill_typed.
  destruct (d !! "company_name") as [v|]; [| now left].
  right. destruct v; try (right; eexists; split; [reflexivity | congruence]).
  left. eauto.
Qed.

Lemma detect_raised d :
  (exists e, _detect_company_type d = Raised e) <-> name_ill_typed d.
Proof.
  unfold _detect_company_type, get_or.
  destruct (name_cases d) as [Hn | [[s Hn] | (v & Hn & Nv)]]; rewrite Hn; cbn.
  - split; [intros [e H]; discriminate H |].
    intros (v & Hv & _). congruence.
  - split; [intros [e H]; discriminate H |].
    intros (v & Hv & Nv). rewrite Hn in Hv. injection Hv as <-. now destruct (Nv s).
  - split; [intros _; exists v; rewrite Hn; auto |].
    intros _. destruct v; try (eexists; reflexivity). now destruct (Nv s).
Qed.

Lemma check_registration_number_cases v :
  (truthy v = false /\ check_registration_number v = Ok [])
  \/ (exists s, v = JStr s /\ truthy v = true
               /\ check_registration_number v
                  = Ok (if negb (Unicode.isalnum
                                   (PyStr.remove_char " " (PyStr.remove_char "-" s)))
                        then ["Invalid registration number format"] else []))
  \/ (truthy v = true /\ (forall s, v <> JStr s)
      /\ check_registration_number v = Raised AttributeError).
Proof.
  unfold check_registration_number. destruct (truthy v) eqn:E; [| now left].
  right. destruct v; try (right; repeat split; congruence).
  left. eauto.
Qed.

Lemma get_absent d k : d !! k = None -> get d k = JNull.
Proof. unfold get. intros H. rewrite H. reflexivity. Qed.

Lemma check_company_name_cases d :
  ~ name_ill_typed d ->
  (truthy (get d "company_name") = false
   /\ check_company_name (get d "company_name") = Ok [])
  \/ (exists s, d !! "company_name" = Some (JStr s)
               /\ truthy (get d "company_name") = true
               /\ check_company_name (get d "company_name")
                  = Ok (if (Unicode.len s <? 3)%nat
                        then ["Company name must be at least 3 characters"]
                        else [])).
Proof.
  intros Hn.
  destruct (name_cases d) as [H | [[s H] | H]]; [| | contradiction].
  - left. rewrite (get_absent _ _ H). split; reflexivity.
  - rewrite (AgentFacts.get_lookup _ _ _ H). unfold check_company_name.
    destruct (truthy (JStr s)) eqn:E; [| now left].
    right. exists s. split; [exact H |]. split; reflexivity.
Qed.

Lemma validate_raised d :
  ~ name_ill_typed d ->
  (exists e, _validate_company_data d = Raised e) <-> reg_ill_typed d.
Proof.
  intros Hn. unfold _validate_company_data, reg_ill_typed.
  pose proof (BankFacts.truthy_get_or d "registration_number") as T.
  destruct (check_company_name_cases d Hn) as [[_ ->] | (s & _ & _ & ->)];
    destruct (check_registration_number_cases
                (get_or (JStr "") d "registration_number"))
      as [[F ->] | [(r & E & F & ->) | (F & N & ->)]];
    cbn [mbind result_bind]; unfold mret, result_ret; rewrite F in T.
  all: split.
  all: try solve [intros [e H]; discriminate H].
  all: try solve [intros _; eexists; reflexivity].
  all: try solve
         [ intros (v & Hv & Tv & Nv);
           rewrite (AgentFacts.get_or_lookup _ _ _ _ Hv) in *;
           rewrite ?(AgentFacts.get_lookup _ _ _ Hv) in *;
           first [congruence | now destruct (Nv r)] ].
  all: intros _;
    destruct (AgentFacts.get_truthy d "registration_number") as (v & Hv & Tv);
    [congruence |];
    exists v; rewrite (AgentFacts.get_or_lookup _ _ _ _ Hv) in N; auto.
Qed.

Lemma isalnum_nonempty s :
  Unicode.isalnum (PyStr.remove_char " " (PyStr.remove_char "-" s)) = true ->
  truthy (JStr s) = true.
Proof. destruct s; [discriminate | reflexivity]. Qed.

Lemma validate_accepts d :
  ~ name_ill_typed d ->
  (exists v, _validate_company_data d = Ok v /\ success v = true) <-> acceptable d.
Proof.
  intros Hn. unfold _validate_company_data, acceptable.
  pose proof (BankFacts.truthy_get_or d "registration_number") as T.
  destruct (check_company_name_cases d Hn) as [[Fn ->] | (s & Es & Fn & ->)];
    destruct (check_registration_number_cases
                (get_or (JStr "") d "registration_number"))
      as [[F ->] | [(r & E & F & ->) | (F & N & ->)]];
    cbn [mbind result_bind]; unfold mret, result_ret; rewrite F in T.
  all: split.
  all: try solve [intros (v & H & _); discriminate H].
  all: try solve
         [ intros (v & Hv & Hs);
           destruct (AgentFacts.validated _ _ _ _ Hv Hs) as [Hall _];
           first
             [ rewrite (Hall "company_name") in Fn by AgentFacts.in_list;
               discriminate Fn
             | rewrite (Hall "registration_number") in T by AgentFacts.in_list;
               discriminate T ] ].
  all: try solve
         [ intros (name & reg & Hname & Ln & Hreg & Hal & Ha);
           rewrite ?(AgentFacts.get_lookup _ _ _ Hname) in Fn;
           rewrite ?(AgentFacts.get_lookup _ _ _ Hreg) in T;
           rewrite ?(AgentFacts.get_or_lookup _ _ _ _ Hreg) in *;
           exfalso;
           first
             [ now apply (N reg)
             | destruct name; [cbn in Ln; lia | discriminate Fn]
             | apply isalnum_nonempty in Hal; congruence ] ].
  - intros (v & Hv & Hs).
    destruct (AgentFacts.validated _ _ _ _ Hv Hs) as [Hall He].
    destruct (app_eq_nil _ _ He) as [H1 H2].
    destruct (Unicode.len s <? 3)%nat eqn:D1; [discriminate H1 |].
    apply Nat.ltb_ge in D1.
    destruct (Unicode.isalnum _) eqn:D2; [| discriminate H2].
    exists s, r. split; [exact Es |]. split; [exact D1 |].
    rewrite E in F. split; [now apply BankFacts.get_or_is_str |].
    split; [exact D2 |]. apply Hall. AgentFacts.in_list.
  - intros (name & reg & Hname & Ln & Hreg & Hal & Ha).
    rewrite Es in Hname. injection Hname as <-.
    rewrite (AgentFacts.get_or_lookup _ _ _ _ Hreg) in E. injection E as <-.
    rewrite Hal. apply Nat.ltb_ge in Ln. rewrite Ln. cbn [negb].
    eexists. split; [reflexivity |].
    apply AgentFacts.validation_success. rewrite !app_nil_r.
    apply AgentFacts.missing_fields_nil. intros k Hk. cbn in Hk.
    destruct Hk as [<- | [<- | [<- | []]]]; try exact Ha; congruence.
Qed.

End Agent.

(** X12: [process_company_details] completes exactly on data whose
    company name is a string of at least three characters, whose
    registration number is a string that is not empty and alphanumeric
    ([str.isalnum]: letters and digits of any script) once its hyphens
    and spaces are removed, and whose address is anything truthy.  It
    answers "error" exactly when the company name is present and is not
    a string (null included) or the registration number is a truthy
    value that is not a string.  The call changes the caller's dict at
    the key company_type only, and unless the name is ill typed it
    leaves the detected type there.  Characters and what is
    alphanumeric are those of the Unicode character database, whatever
    it is. *)
Theorem company_details_outcome {U : Unicode.Database} (d : gmap string json)
    (sid : option string) (uuid hex8 now : string) :
  let out := process_company_details d sid uuid hex8 now in
  (status (fst out) = "completed" <-> acceptable d)
  /\ (status (fst out) = "error" <-> ill_typed d)
  /\ (forall k, k <> "company_type" -> snd out !! k = d !! k)
  /\ (forall ty, _detect_company_type d = Ok ty ->
        snd out !! "company_type" = Some (JStr ty)).
Proof.
  cbn zeta. unfold process_company_details, ill_typed.
  destruct (_detect_company_type d) as [ty | e] eqn:Ed.
  - assert (Hn : ~ name_ill_typed d).
    { intros H. apply detect_raised in H as [e H]. congruence. }
    rewrite validate_after_type.
    pose proof (validate_accepts d Hn) as Hacc.
    pose proof (validate_raised d Hn) as Hill.
    destruct (_validate_company_data d) as [v | e] eqn:Ev;
      [destruct (success v) eqn:Es |]; cbn.
    + split; [| split; [| split]].
      * split; [intros _; apply Hacc; eauto | reflexivity].
      * split; [discriminate |]. intros [H | H]; [contradiction |].
        apply Hill in H as [e H]. discriminate H.
      * intros k Hk. now apply lookup_insert_ne.
      * intros ty' [= <-]. apply lookup_insert_eq.
    + split; [| split; [| split]].
      * split; [discriminate |]. intros H. apply Hacc in H as (v' & [= <-] & H).
        congruence.
      * split; [discriminate |]. intros [H | H]; [contradiction |].
        apply Hill in H as [e H]. discriminate H.
      * intros k Hk. now apply lookup_insert_ne.
      * intros ty' [= <-]. apply lookup_insert_eq.
    + split; [| split; [| split]].
      * split; [discriminate |]. intros H. apply Hacc in H as (v' & H & _).
        discriminate H.
      * split; [| reflexivity]. intros _. right. apply Hill. eauto.
      * intros k Hk. now apply lookup_insert_ne.
      * intros ty' [= <-]. apply lookup_insert_eq.
  - assert (Hn : name_ill_typed d) by (apply detect_raised; eauto).
    cbn. split; [| split; [| split]].
    + split; [discriminate |]. intros (name & reg & Hname & _).
      destruct Hn as (v & Hv & Nv). rewrite Hname in Hv. injection Hv as <-.
      now destruct (Nv name).
    + split; [intros _; now left | reflexivity].
    + reflexivity.
    + discriminate.
Qed.

(** A name of two characters that takes three bytes is too short, and
    a registration number with an accented letter is alphanumeric. *)
Lemma company_details_outcome_witness :
  status (fst (process_company_details (U := Unicode.excerpt)
                 {["company_name" := JStr "Café Pvt Ltd";
                   "registration_number" := JStr "É12-345";
                   "address" := JStr "1 Main Street"]} (Some "s1") "u1"
                 "0A1B2C3D" "t0")) = "completed"
  /\ acceptable (U := Unicode.excerpt)
       {["company_name" := JStr "Café Pvt Ltd";
         "registration_number" := JStr "É12-345";
         "address" := JStr "1 Main Street"]}
  /\ ~ acceptable (U := Unicode.excerpt)
         {["company_name" := JStr "Né";
           "registration_number" := JStr "É12-345";
           "address" := JStr "1 Main Street"]}.
Proof.
  assert (H : status (fst (process_company_details (U := Unicode.excerpt)
                             {["company_name" := JStr "Café Pvt Ltd";
                               "registration_number" := JStr "É12-345";
                               "address" := JStr "1 Main Street"]} (Some "s1") "u1"
                             "0A1B2C3D" "t0")) = "completed")
    by (vm_compute; reflexivity).
  split; [exact H |]. split.
  - exact (proj1 (proj1 (company_details_outcome _ (Some "s1") "u1" "0A1B2C3D" "t0")) H).
  - intros Ha.
    apply (proj2 (proj1 (company_details_outcome (U := Unicode.excerpt) _
                           (Some "s1") "u1" "0A1B2C3D" "t0"))) in Ha.
    vm_compute in Ha. discriminate Ha.
Defined.

End CompanyFacts.

(** ** The KYC agent *)

Module KycFacts.
Import Json KycAgent.

Section Agent.
Context {U : Unicode.Database}.

Lemma pan_pattern_spec l : URe.matches pan_pattern l <-> pan_shape l.
Proof.
  unfold pan_pattern, pan_shape. rewrite UReFacts.u_matches_seq. split.
  - intros (l1 & l2 & -> & H1 & H2).
    apply UReFacts.u_matches_rep_class in H1 as [L1 A1].
    apply UReFacts.u_matches_seq in H2 as (l3 & l4 & -> & H3 & H4).
    apply UReFacts.u_matches_rep_class in H3 as [L3 A3].
    apply UReFacts.u_matches_rep_class in H4 as [L4 A4].
    exists l1, l3, l4. repeat split; assumption.
  - intros (a & g & t & -> & L1 & A1 & L2 & A2 & L3 & A3).
    exists a, (g ++ t). split; [reflexivity |]. split.
    + now apply UReFacts.u_matches_rep_class.
    + apply UReFacts.u_matches_seq. exists g, t. split; [reflexivity |].
      split; now apply UReFacts.u_matches_rep_class.
Qed.

Lemma aadhar_pattern_spec l : URe.matches aadhar_pattern l <-> aadhar_shape l.
Proof. apply UReFacts.u_matches_rep_class. Qed.

Lemma gst_pattern_spec l : URe.matches gst_pattern l <-> gst_shape l.
Proof.
  unfold gst_pattern, gst_shape.
  rewrite UReFacts.u_matches_seq. split.
  - intros (l1 & r1 & -> & H1 & H).
    apply UReFacts.u_matches_rep_class in H1 as [L1 A1].
    apply UReFacts.u_matches_seq in H as (l2 & r2 & -> & H2 & H).
    apply UReFacts.u_matches_rep_class in H2 as [L2 A2].
    apply UReFacts.u_matches_seq in H as (l3 & r3 & -> & H3 & H).
    apply UReFacts.u_matches_rep_class in H3 as [L3 A3].
    apply UReFacts.u_matches_seq in H as (l4 & r4 & -> & H4 & H).
    apply UReFacts.u_matches_rep_class in H4 as [L4 A4].
    apply UReFacts.u_matches_seq in H as (l5 & r5 & -> & H5 & H).
    apply UReFacts.u_matches_rep_class in H5 as [L5 A5].
    apply UReFacts.u_matches_seq in H as (l6 & l7 & -> & H6 & H7).
    apply UReFacts.u_matches_char in H6 as ->.
    apply UReFacts.u_matches_rep_class in H7 as [L7 A7].
    exists l1, l2, l3, l4, l5, l7. repeat split; assumption.
  - intros (st & a & g & t & e & c & -> & L1 & A1 & L2 & A2 & L3 & A3 & L4 & A4
            & L5 & A5 & L7 & A7).
    exists st, (a ++ g ++ t ++ e ++ [90%N] ++ c).
    split; [reflexivity |].
    split; [now apply UReFacts.u_matches_rep_class |].
    apply UReFacts.u_matches_seq. exists a, (g ++ t ++ e ++ [90%N] ++ c).
    split; [reflexivity |]. split; [now apply UReFacts.u_matches_rep_class |].
    apply UReFacts.u_matches_seq. exists g, (t ++ e ++ [90%N] ++ c).
    split; [reflexivity |]. split; [now apply UReFacts.u_matches_rep_class |].
    apply UReFacts.u_matches_seq. exists t, (e ++ [90%N] ++ c).
    split; [reflexivity |]. split; [now apply UReFacts.u_matches_rep_class |].
    apply UReFacts.u_matches_seq. exists e, ([90%N] ++ c).
    split; [reflexivity |]. split; [now apply UReFacts.u_matches_rep_class |].
    apply UReFacts.u_matches_seq. exists [90%N], c.
    split; [reflexivity |]. split; [now apply UReFacts.u_matches_char |].
    now apply UReFacts.u_matches_rep_class.
Qed.

(** What the three sub-agents have in common. *)
Section SubAgent.
Variable pattern : URe.re.
Variable key : string.
Variable shape : list N -> Prop.
Variable process : json -> result DocResult.
Hypothesis process_eq : forall v,
  process v
  = (fields ← as_dict v;
     ok ← re_match_chars pattern (get_or (JStr "") fields key);
     mret (if (ok : bool) then Verified (get_or (JStr "") fields key) else Invalid)).
Hypothesis pattern_spec : forall l, URe.matches pattern l <-> shape l.
Hypothesis not_empty : URe.match_anchored pattern [] = false.

Lemma sub_agent_verifies v :
  (exists n, process v = Ok (Verified n)) <-> document shape key v.
Proof.
  rewrite process_eq. unfold document.
  destruct v as [| b | z | s | l | fields];
    try (split; [intros [n H]; discriminate H
                | intros (f & s' & H & _); discriminate H]).
  cbn [as_dict mbind result_bind]. unfold get_or.
  destruct (fields !! key) as [[| b | z | s | l | m]|] eqn:E; cbn;
    try (split; [intros [n H]; discriminate H
                | intros (f & s' & [= <-] & H & _); congruence]).
  - destruct (URe.match_anchored pattern (Unicode.codepoints s)) eqn:M;
      unfold mret, result_ret.
    + split; [| eauto]. intros _. exists fields, s.
      split; [reflexivity |]. split; [exact E |].
      apply UReFacts.u_match_anchored_spec in M.
      exact (proj1 (UReFacts.u_up_to_newline_iff _ _ _ pattern_spec) M).
    + split; [intros [n H]; discriminate H |].
      intros (f & s' & [= <-] & H & Hs). rewrite E in H. injection H as <-.
      apply (UReFacts.u_up_to_newline_iff _ _ _ pattern_spec) in Hs.
      apply UReFacts.u_match_anchored_spec in Hs. congruence.
  - change (Unicode.codepoints "") with (@nil N). rewrite not_empty.
    unfold mret, result_ret.
    split; [intros [n H]; discriminate H |].
    intros (f & s' & [= <-] & H & _). congruence.
Qed.

(** The call [process(kyc_data.get(name, {}))]. *)
Lemma sub_agent_on_entry (d : gmap string json) name :
  (exists n, process (get_or (JObj ∅) d name) = Ok (Verified n))
  <-> document shape key (get d name).
Proof.
  rewrite sub_agent_verifies. unfold get_or, get.
  destruct (d !! name) as [v|]; cbn; [reflexivity |].
  unfold document. split; intros (f & s & [= <-] & H & _).
  rewrite lookup_empty in H. discriminate H.
Qed.
End SubAgent.

Lemma pan_on_entry d :
  (exists n, process_pan (get_or (JObj ∅) d "pan_data") = Ok (Verified n))
  <-> document pan_shape "pan_number" (get d "pan_data").
Proof.
  apply (sub_agent_on_entry pan_pattern);
    [reflexivity | apply pan_pattern_spec | reflexivity].
Qed.

Lemma aadhar_on_entry d :
  (exists n, process_aadhar (get_or (JObj ∅) d "aadhar_data") = Ok (Verified n))
  <-> document aadhar_shape "aadhar_number" (get d "aadhar_data").
Proof.
  apply (sub_agent_on_entry aadhar_pattern);
    [reflexivity | apply aadhar_pattern_spec | reflexivity].
Qed.

Lemma gst_on_entry d :
  (exists n, process_gst (get_or (JObj ∅) d "gst_data") = Ok (Verified n))
  <-> document gst_shape "gst_number" (get d "gst_data").
Proof.
  apply (sub_agent_on_entry gst_pattern);
    [reflexivity | apply gst_pattern_spec | reflexivity].
Qed.

Lemma run_if_good required call r :
  run_if required call = Ok r ->
  (required && negb (verified r) = false <-> good required call).
Proof.
  unfold run_if, good. destruct required; cbn.
  - destruct call as [[n|]|e]; cbn; intros [= <-]; cbn.
    + split; eauto.
    + split; [discriminate |]. intros H. destruct (H eq_refl) as [n Hn].
      discriminate Hn.
  - intros _. split; [discriminate | reflexivity].
Qed.

Lemma run_if_raised required call e :
  run_if required call = Raised e -> ~ good required call.
Proof.
  unfold run_if, good. destruct required; cbn; [| discriminate].
  destruct call as [r|e']; cbn; [discriminate |].
  intros _ H. destruct (H eq_refl) as [n Hn]. discriminate Hn.
Qed.

Lemma missing_nil (b1 b2 b3 : bool) :
  Nat.eqb (length ((if b1 then ["pan"] else []) ++ (if b2 then ["aadhar"] else [])
                   ++ (if b3 then ["gst"] else []))) 0 = true
  <-> b1 = false /\ b2 = false /\ b3 = false.
Proof. destruct b1, b2, b3; cbn; intuition congruence. Qed.

Lemma completed_iff d sid uuid hex8 :
  status (process_kyc d sid uuid hex8) = "completed"
  <-> exists req,
        _detect_kyc_requirements d = Ok req
        /\ good (pan_required req) (process_pan (get_or (JObj ∅) d "pan_data"))
        /\ good (aadhar_required req)
             (process_aadhar (get_or (JObj ∅) d "aadhar_data"))
        /\ good (gst_required req) (process_gst (get_or (JObj ∅) d "gst_data")).
Proof.
  unfold process_kyc, coordinate.
  destruct (_detect_kyc_requirements d) as [req | e]; cbn [mbind result_bind].
  2: { cbn. split; [discriminate | intros (req & H & _); discriminate H]. }
  destruct (run_if (pan_required req) _) as [rp | e] eqn:Ep; cbn [mbind result_bind].
  2: { cbn. split; [discriminate |]. intros (req' & [= <-] & H & _).
       now apply run_if_raised in Ep. }
  destruct (run_if (aadhar_required req) _) as [ra | e] eqn:Ea;
    cbn [mbind result_bind].
  2: { cbn. split; [discriminate |]. intros (req' & [= <-] & _ & H & _).
       now apply run_if_raised in Ea. }
  destruct (run_if (gst_required req) _) as [rg | e] eqn:Eg; cbn [mbind result_bind].
  2: { cbn. split; [discriminate |]. intros (req' & [= <-] & _ & _ & H).
       now apply run_if_raised in Eg. }
  unfold mret, result_ret, _validate_kyc_completion. cbn [fst snd pan aadhar gst].
  apply run_if_good in Ep. apply run_if_good in Ea. apply run_if_good in Eg.
  destruct (Nat.eqb _ 0) eqn:M; cbn.
  - apply missing_nil in M as (M1 & M2 & M3).
    split; [| reflexivity]. intros _. exists req. split; [reflexivity |].
    split; [now apply Ep |]. split; [now apply Ea | now apply Eg].
  - split; [discriminate |]. intros (req' & [= <-] & H1 & H2 & H3).
    apply Ep in H1. apply Ea in H2. apply Eg in H3.
    rewrite (proj2 (missing_nil _ _ _) (conj H1 (conj H2 H3))) in M.
    discriminate M.
Qed.

Lemma detect_ok d req :
  _detect_kyc_requirements d = Ok req
  <-> exists bt,
        get_or (JStr "") d "business_type" = JStr bt
        /\ req = mkRequirements (truthy (get d "pan_data"))
                   (truthy (get d "aadhar_data"))
                   (is_company bt || truthy (get d "gst_data")).
Proof.
  unfold _detect_kyc_requirements, is_company.
  destruct (get_or (JStr "") d "business_type") as [| b | z | s | l | m]; cbn;
    try (split; [discriminate | intros (bt & H & _); discriminate H]).
  unfold mret, result_ret.
  destruct (Py.str_contains "company" (Py.lower s)
            || Py.str_contains "corp" (Py.lower s)) eqn:E.
  - split.
    + intros [= <-]. exists s. rewrite E. split; reflexivity.
    + intros (bt & [= <-] & ->). rewrite E. reflexivity.
  - split.
    + intros [= <-]. exists s. rewrite E. split; reflexivity.
    + intros (bt & [= <-] & ->). rewrite E. reflexivity.
Qed.

End Agent.

(** X13: [process_kyc] completes exactly when the business type is
    absent or a string and every required document verifies, where PAN
    and Aadhaar are required when their entry is truthy, GST when its
    entry is truthy or the business type contains "company" or "corp",
    and a document verifies when its entry is a dict whose number is a
    string of the right shape, possibly followed by a newline: for the
    PAN five capitals A to Z, four digits 0 to 9 and a capital; for the
    Aadhaar number twelve decimal digits; for the GST number two
    decimal digits, five capitals, four decimal digits, a capital, a
    capital or decimal digit, Z, a capital or decimal digit.  The
    decimal digits are those of any script ([\d] of a [str] pattern), as
    the Unicode character database has them, whatever it is. *)
Theorem kyc_completed_iff {U : Unicode.Database} (d : gmap string json)
    (sid : option string) (uuid hex8 : string) :
  status (process_kyc d sid uuid hex8) = "completed"
  <-> exists bt,
        get_or (JStr "") d "business_type" = JStr bt
        /\ (truthy (get d "pan_data") = true ->
            document pan_shape "pan_number" (get d "pan_data"))
        /\ (truthy (get d "aadhar_data") = true ->
            document aadhar_shape "aadhar_number" (get d "aadhar_data"))
        /\ (is_company bt = true \/ truthy (get d "gst_data") = true ->
            document gst_shape "gst_number" (get d "gst_data")).
Proof.
  rewrite completed_iff. unfold good. split.
  - intros (req & (bt & Hbt & ->)%detect_ok & Hp & Ha & Hg). cbn in Hp, Ha, Hg.
    exists bt. split; [exact Hbt |].
    split; [intros H; apply pan_on_entry; auto |].
    split; [intros H; apply aadhar_on_entry; auto |].
    intros H. apply gst_on_entry. apply Hg. apply orb_true_iff. exact H.
  - intros (bt & Hbt & Hp & Ha & Hg). eexists.
    split; [apply detect_ok; exists bt; split; [exact Hbt | reflexivity] |].
    cbn. split; [intros H; apply pan_on_entry; auto |].
    split; [intros H; apply aadhar_on_entry; auto |].
    intros H. apply gst_on_entry. apply Hg. apply orb_true_iff. exact H.
Qed.

(** A PAN, and an Aadhaar number written in Devanagari digits. *)
Lemma kyc_completed_iff_witness :
  status (process_kyc (U := Unicode.excerpt)
            {["pan_data" := JObj {["pan_number" := JStr "ABCDE1234F"]};
              "aadhar_data" := JObj {["aadhar_number" := JStr "१२३४५६७८९०१२"]}]}
            (Some "s1") "u1" "0A1B2C3D") = "completed"
  /\ document pan_shape "pan_number"
       (get {["pan_data" := JObj {["pan_number" := JStr "ABCDE1234F"]};
              "aadhar_data" := JObj {["aadhar_number" := JStr "१२३४५६७८९०१२"]}]}
          "pan_data")
  /\ document (aadhar_shape (U := Unicode.excerpt)) "aadhar_number"
       (get {["pan_data" := JObj {["pan_number" := JStr "ABCDE1234F"]};
              "aadhar_data" := JObj {["aadhar_number" := JStr "१२३४५६७८९०१२"]}]}
          "aadhar_data").
Proof.
  assert (H : status (process_kyc (U := Unicode.excerpt)
                        {["pan_data" := JObj {["pan_number" := JStr "ABCDE1234F"]};
                          "aadhar_data" :=
                            JObj {["aadhar_number" := JStr "१२३४५६७८९०१२"]}]}
                        (Some "s1") "u1" "0A1B2C3D") = "completed")
    by (vm_compute; reflexivity).
  split; [exact H |].
  destruct (proj1 (kyc_completed_iff _ (Some "s1") "u1" "0A1B2C3D") H)
    as (bt & _ & Hpan & Haadhar & _).
  split; [apply Hpan | apply Haadhar]; vm_compute; reflexivity.
Defined.

(** X14: a KYC request that supplies no document is accepted: when the
    entries pan_data, aadhar_data and gst_data are absent or falsy and the
    business type is absent, or a string without "company" and "corp",
    [process_kyc] returns the completed result with no requirement and no
    sub-agent result, whatever else the dict holds. *)
Theorem kyc_without_documents {U : Unicode.Database} (d : gmap string json)
    (sid : option string) (uuid hex8 : string) :
  truthy (get d "pan_data") = false ->
  truthy (get d "aadhar_data") = false ->
  truthy (get d "gst_data") = false ->
  (d !! "business_type" = None
   \/ exists bt, d !! "business_type" = Some (JStr bt) /\ is_company bt = false) ->
  process_kyc d sid uuid hex8
  = Completed (mkResults None None None) (mkRequirements false false false)
      (Supervisor.effective_session_id sid uuid) ("KYC_" +:+ hex8).
Proof.
  intros Hp Ha Hg Hbt. unfold process_kyc, coordinate.
  assert (Hd : _detect_kyc_requirements d = Ok (mkRequirements false false false)).
  { apply detect_ok. rewrite Hp, Ha, Hg.
    destruct Hbt as [H | (bt & H & Hc)].
    - exists "". unfold get_or. rewrite H. split; reflexivity.
    - exists bt. rewrite (AgentFacts.get_or_lookup _ _ _ _ H), Hc.
      split; reflexivity. }
  rewrite Hd. reflexivity.
Qed.

(** The answer of an LLM that follows the extraction prompt's format. *)
Lemma kyc_without_documents_witness :
  process_kyc (U := Unicode.excerpt)
    {["pan" := JStr "not a pan"; "aadhar" := JNull]} (Some "s1") "u1"
    "0A1B2C3D"
  = Completed (mkResults None None None) (mkRequirements false false false)
      (Supervisor.effective_session_id (Some "s1") "u1") ("KYC_" +:+ "0A1B2C3D").
Proof.
  apply (kyc_without_documents (U := Unicode.excerpt)
           {["pan" := JStr "not a pan"; "aadhar" := JNull]} (Some "s1") "u1"
           "0A1B2C3D");
    try (vm_compute; reflexivity).
  left. vm_compute. reflexivity.
Defined.

End KycFacts.

(** ** The state store: reading back, updating and deleting *)

Module StoreOpsFacts.
Import StateManager StateManagerOps.

Lemma stamp_updated_at a b s : stamp_state a b s !! "updated_at" = Some (PStr b).
Proof. unfold stamp_state. apply lookup_insert_eq. Qed.

Lemma stamp_has_version a b s : stamp_state a b s !! "state_version" <> None.
Proof.
  unfold stamp_state. rewrite lookup_insert_ne by discriminate.
  destruct (decide (s !! "state_version" = None)) as [E | E].
  - case_decide.
    + rewrite lookup_insert_ne by discriminate. rewrite lookup_insert_eq. discriminate.
    + rewrite lookup_insert_eq. discriminate.
  - case_decide; [rewrite lookup_insert_ne by discriminate |]; exact E.
Qed.

(** The keys [save_state] does not touch. *)
Lemma stamp_other a b s k :
  k <> "updated_at" -> k <> "created_at" -> k <> "state_version" ->
  stamp_state a b s !! k = s !! k.
Proof.
  intros H1 H2 H3. unfold stamp_state. rewrite lookup_insert_ne by congruence.
  repeat case_decide; rewrite ?lookup_insert_ne by congruence; reflexivity.
Qed.

Lemma stamp_keeps a b s k v :
  s !! k = Some v -> k <> "updated_at" -> stamp_state a b s !! k = Some v.
Proof.
  intros Hs Hne. unfold stamp_state. rewrite lookup_insert_ne by congruence.
  set (s1 := if decide (s !! "state_version" = None)
             then <["state_version" := PStr "1.0"]> s else s).
  assert (H1 : s1 !! k = Some v).
  { subst s1. case_decide as E; [| exact Hs].
    destruct (decide (k = "state_version")) as [-> | N]; [congruence |].
    rewrite lookup_insert_ne by congruence. exact Hs. }
  case_decide as E; [| exact H1].
  destruct (decide (k = "created_at")) as [-> | N]; [congruence |].
  rewrite lookup_insert_ne by congruence. exact H1.
Qed.

Lemma migrate_versioned s :
  s !! "state_version" <> None -> GraphState.migrate_state s = s.
Proof.
  intros H. unfold GraphState.migrate_state.
  repeat case_decide; try reflexivity. contradiction.
Qed.

Lemma stamp_truthy a b s : dict_truthy (stamp_state a b s) = true.
Proof.
  unfold dict_truthy. apply negb_true_iff, bool_decide_eq_false.
  intros E. pose proof (stamp_updated_at a b s) as H. rewrite E in H.
  rewrite lookup_empty in H. discriminate H.
Qed.

Lemma cache_after_publish m f sid s w :
  cache (best_effort_publish m f sid s w) = cache w.
Proof.
  unfold best_effort_publish.
  destruct (_pubsub_enabled m); [destruct (pubsub_fault f) |]; reflexivity.
Qed.

Lemma cache_after_cache m f sid s w :
  cache (best_effort_cache m f sid s w)
  = if _cache_enabled m && negb (cache_write_fault f)
    then <[cache_key sid := s]> (cache w) else cache w.
Proof.
  unfold best_effort_cache.
  destruct (_cache_enabled m); [destruct (cache_write_fault f) |]; reflexivity.
Qed.

(** The world after a save that reached the durable store. *)
Lemma saved_world m f now sid state w :
  pool m = true -> durable_write_fails f = false ->
  let saved := save_state m f now sid state w in
  fst saved = (Return true, stamp_state now now state)
  /\ os_state_data <$> (onboarding_state (db (snd saved)) !! sid)
     = Some (stamp_state now now state)
  /\ cache (snd saved)
     = if _cache_enabled m && negb (cache_write_fault f)
       then <[cache_key sid := stamp_state now now state]> (cache w)
       else cache w.
Proof.
  intros Hp Hf. cbv zeta.
  rewrite (StoreFacts.save_state_cases m f now sid state w Hp), Hf. cbv zeta.
  cbn [fst snd]. split; [reflexivity |].
  match goal with
  | |- context [best_effort_publish m f sid ?s (best_effort_cache m f sid ?s ?w0)] =>
      destruct (StoreFacts.best_effort_cache_trace m f sid s w0) as (Hd1 & _);
      destruct (StoreFacts.best_effort_publish_trace m f sid s
                  (best_effort_cache m f sid s w0)) as (Hd2 & _)
  end.
  rewrite Hd2, Hd1, cache_after_publish, cache_after_cache. cbn.
  rewrite lookup_insert_eq. split; reflexivity.
Qed.

Lemma load_from_db_found m f now sid w row :
  durable_read_fails f = false ->
  onboarding_state (db w) !! sid = Some row ->
  fst (load_from_db m f now sid w)
  = Return (GraphState.migrate_state (os_state_data row)).
Proof.
  unfold durable_read_fails, load_from_db, bind, acquire, db_op, fetch_state.
  intros Hf Hrow.
  destruct (db_fault f) as [[|[|n]]|]; try discriminate;
    repeat (case_decide; try congruence); rewrite Hrow; reflexivity.
Qed.

Lemma load_state_cached m f now sid w cached :
  pool m = true -> _cache_enabled m = true -> cache_read_fault f = false ->
  cache w !! cache_key sid = Some cached -> dict_truthy cached = true ->
  load_state m f now sid w = (Return (GraphState.migrate_state cached), w).
Proof.
  intros Hp Hc Hr Hk Ht. unfold load_state. rewrite Hp, Hc, Hr, Hk, Ht. reflexivity.
Qed.

Lemma load_state_from_db m f now sid w :
  pool m = true ->
  (_cache_enabled m = false \/ cache_read_fault f = true
   \/ cache w !! cache_key sid = None) ->
  load_state m f now sid w = load_from_db m f now sid w.
Proof.
  intros Hp H. unfold load_state. rewrite Hp. cbn [negb].
  destruct H as [H | [H | H]]; rewrite H; rewrite ?andb_false_r; try reflexivity.
  destruct (_cache_enabled m && negb (cache_read_fault f)); reflexivity.
Qed.

(** X15: what [save_state] acknowledged is what [load_state] returns
    next: after a save that reached the durable store, and whose cache
    write did not fail when the cache is on, a load whose durable read
    works returns exactly the state as saved (with its version and time
    stamps), from the cache or, when the cache cannot be read, from the
    durable store. *)
Theorem save_then_load (m : Manager) (fs fl : Faults) (now now' sid : string)
    (state : gmap string pyval) (w : World) :
  pool m = true ->
  durable_write_fails fs = false ->
  (_cache_enabled m = true -> cache_write_fault fs = false) ->
  durable_read_fails fl = false ->
  let saved := save_state m fs now sid state w in
  fst saved = (Return true, stamp_state now now state)
  /\ fst (load_state m fl now' sid (snd saved))
     = Return (stamp_state now now state).
Proof.
  intros Hp Hw Hcw Hr.
  destruct (saved_world m fs now sid state w Hp Hw) as (Hres & Hrow & Hcache).
  cbv zeta. split; [exact Hres |].
  set (w' := snd (save_state m fs now sid state w)) in *.
  assert (Hdb : fst (load_from_db m fl now' sid w')
                = Return (stamp_state now now state)).
  { destruct (onboarding_state (db w') !! sid) as [row|] eqn:E; [| discriminate Hrow].
    injection Hrow as Hrow.
    rewrite (load_from_db_found m fl now' sid w' row Hr E), Hrow.
    now rewrite (migrate_versioned _ (stamp_has_version now now state)). }
  destruct (_cache_enabled m) eqn:Hc.
  - rewrite (Hcw eq_refl) in Hcache. cbn in Hcache.
    destruct (cache_read_fault fl) eqn:Hcr.
    + rewrite (load_state_from_db m fl now' sid w' Hp); [exact Hdb | auto].
    + rewrite (load_state_cached m fl now' sid w' (stamp_state now now state)
                 Hp Hc Hcr).
      * cbn [fst]. now rewrite (migrate_versioned _ (stamp_has_version now now state)).
      * rewrite Hcache. apply lookup_insert_eq.
      * apply stamp_truthy.
  - rewrite (load_state_from_db m fl now' sid w' Hp); [exact Hdb | auto].
Qed.

Lemma save_then_load_witness :
  fst (load_state Examples.ready_with_cache no_faults "t1" "s1"
         (snd (save_state Examples.ready_with_cache no_faults "t0" "s1"
                 Examples.kyc_state empty_world)))
  = Return (stamp_state "t0" "t0" Examples.kyc_state).
Proof.
  apply (save_then_load Examples.ready_with_cache no_faults no_faults "t0" "t1" "s1"
           Examples.kyc_state empty_world); reflexivity.
Defined.

(** X16: a save whose cache write fails is acknowledged all the same,
    and leaves the entry the cache held: the durable store has the new
    state, and [load_state], which asks the cache first, returns the old
    one for as long as the cache holds it. *)
Theorem stale_read_after_failed_cache_write (m : Manager) (fs fl : Faults)
    (now now' sid : string) (state old : gmap string pyval) (w : World) :
  pool m = true -> _cache_enabled m = true ->
  durable_write_fails fs = false -> cache_write_fault fs = true ->
  cache_read_fault fl = false ->
  cache w !! cache_key sid = Some old -> dict_truthy old = true ->
  let saved := save_state m fs now sid state w in
  fst saved = (Return true, stamp_state now now state)
  /\ os_state_data <$> (onboarding_state (db (snd saved)) !! sid)
     = Some (stamp_state now now state)
  /\ fst (load_state m fl now' sid (snd saved))
     = Return (GraphState.migrate_state old).
Proof.
  intros Hp Hc Hw Hcw Hcr Hold Ht.
  destruct (saved_world m fs now sid state w Hp Hw) as (Hres & Hrow & Hcache).
  cbv zeta. split; [exact Hres |]. split; [exact Hrow |].
  rewrite Hc, Hcw in Hcache. cbn in Hcache.
  rewrite (load_state_cached m fl now' sid _ old Hp Hc Hcr); [reflexivity | | exact Ht].
  rewrite Hcache. exact Hold.
Qed.

Lemma stale_read_after_failed_cache_write_witness :
  fst (save_state Examples.ready_with_cache StoreExamples.cache_write_fails "t1" "s1"
         StoreExamples.bank_state StoreExamples.cached_world)
  = (Return true, stamp_state "t1" "t1" StoreExamples.bank_state)
  /\ fst (load_state Examples.ready_with_cache no_faults "t2" "s1"
            (snd (save_state Examples.ready_with_cache
                    StoreExamples.cache_write_fails "t1" "s1"
                    StoreExamples.bank_state StoreExamples.cached_world)))
     = Return (GraphState.migrate_state Examples.kyc_state).
Proof.
  assert (H6 : cache StoreExamples.cached_world !! cache_key "s1"
               = Some Examples.kyc_state) by apply lookup_singleton_eq.
  assert (H7 : dict_truthy Examples.kyc_state = true) by (vm_compute; reflexivity).
  destruct (stale_read_after_failed_cache_write Examples.ready_with_cache
              StoreExamples.cache_write_fails no_faults "t1" "t2" "s1"
              StoreExamples.bank_state Examples.kyc_state
              StoreExamples.cached_world eq_refl eq_refl eq_refl eq_refl eq_refl
              H6 H7)
    as (H1 & _ & H3).
  split; [exact H1 | exact H3].
Defined.

Lemma load_state_returns m f now sid w :
  pool m = true -> exists cur, fst (load_state m f now sid w) = Return cur.
Proof.
  intros Hp.
  assert (H : exists cur, fst (load_from_db m f now sid w) = Return cur).
  { unfold load_from_db.
    destruct ((acquire (db_fault f) ;;; db_op (db_fault f) (fetch_state sid)) (db w) 0)
      as [[[[row|] d'] n']|]; eexists; reflexivity. }
  unfold load_state. rewrite Hp. cbn [negb].
  destruct (_cache_enabled m && negb (cache_read_fault f)); [| exact H].
  destruct (cache w !! cache_key sid) as [c|]; [| exact H].
  destruct (dict_truthy c); [eexists; reflexivity | exact H].
Qed.

Lemma update_state_unfold m fl fs now_load now now_save sid updates w cur :
  pool m = true -> durable_write_fails fs = false ->
  fst (load_state m fl now_load sid w) = Return cur ->
  let saved := save_state m fs now_save sid
                 (<["updated_at" := PStr now]> (updates ∪ cur))
                 (snd (load_state m fl now_load sid w)) in
  update_state m fl fs now_load now now_save sid updates w = (true, snd saved).
Proof.
  intros Hp Hw Hl. cbv zeta. unfold update_state.
  destruct (load_state m fl now_load sid w) as [r w1]. cbn [fst snd] in *. subst r.
  destruct (saved_world m fs now_save sid (<["updated_at" := PStr now]> (updates ∪ cur))
              w1 Hp Hw) as (Hres & _).
  destruct (save_state m fs now_save sid _ w1) as [[r s] w2]. cbn [fst snd] in *.
  injection Hres as -> _. reflexivity.
Qed.

(** X17: a successful [update_state] writes the loaded state with the
    updates laid over it: in the stored state every key of [updates]
    other than updated_at has the value given, every other key (the
    stamps apart) has the value [load_state] returned, and updated_at is
    the time of the save.  An [update_state] on a store that is not
    initialised returns False and changes nothing (where [load_state] and
    [save_state] raise). *)
Theorem update_state_applies_updates (m : Manager) (fl fs : Faults)
    (now_load now now_save sid : string) (updates : gmap string pyval) (w : World) :
  let out := update_state m fl fs now_load now now_save sid updates w in
  (pool m = false -> out = (false, w))
  /\ (pool m = true -> durable_write_fails fs = false ->
      exists cur stored,
        fst (load_state m fl now_load sid w) = Return cur
        /\ fst out = true
        /\ os_state_data <$> (onboarding_state (db (snd out)) !! sid) = Some stored
        /\ (forall k v, updates !! k = Some v -> k <> "updated_at" ->
              stored !! k = Some v)
        /\ (forall k, updates !! k = None -> k <> "updated_at" ->
              k <> "created_at" -> k <> "state_version" ->
              stored !! k = cur !! k)
        /\ stored !! "updated_at" = Some (PStr now_save)).
Proof.
  cbv zeta. split.
  - intros Hp. unfold update_state, load_state. rewrite Hp. reflexivity.
  - intros Hp Hw.
    destruct (load_state_returns m fl now_load sid w Hp) as [cur Hcur].
    rewrite (update_state_unfold m fl fs now_load now now_save sid updates w cur
               Hp Hw Hcur).
    destruct (saved_world m fs now_save sid
                (<["updated_at" := PStr now]> (updates ∪ cur))
                (snd (load_state m fl now_load sid w)) Hp Hw) as (_ & Hrow & _).
    exists cur. eexists. split; [exact Hcur |]. split; [reflexivity |].
    split; [exact Hrow |]. split; [| split].
    + intros k v Hk Hne. apply stamp_keeps; [| exact Hne].
      rewrite lookup_insert_ne by congruence.
      apply lookup_union_Some_l. exact Hk.
    + intros k Hk H1 H2 H3. rewrite stamp_other by assumption.
      rewrite lookup_insert_ne by congruence.
      rewrite lookup_union_r by exact Hk. reflexivity.
    + apply stamp_updated_at.
Qed.

Lemma update_state_applies_updates_witness :
  pool Examples.ready = true /\ durable_write_fails no_faults = false
  /\ exists stored,
       os_state_data <$>
         (onboarding_state
            (db (snd (update_state Examples.ready no_faults no_faults "t1" "t2" "t3"
                        "s1" {["current_step" := PStr "bank"]}
                        StoreExamples.with_user_data))) !! "s1") = Some stored
       /\ stored !! "current_step" = Some (PStr "bank").
Proof.
  split; [reflexivity |]. split; [reflexivity |].
  destruct (proj2 (update_state_applies_updates Examples.ready no_faults no_faults
                     "t1" "t2" "t3" "s1" {["current_step" := PStr "bank"]}
                     StoreExamples.with_user_data) eq_refl eq_refl)
    as (cur & stored & _ & _ & Hrow & Hupd & _).
  exists stored. split; [exact Hrow |].
  apply Hupd; [apply lookup_singleton_eq | discriminate].
Defined.

(** X18: when [load_state] cannot read the session (its cache lookup
    misses and the durable read fails) but the write works,
    [update_state] succeeds and replaces whatever was stored for the
    session by the default state with the updates laid over it: every key
    that is neither a key of the default state nor one of the updates is
    gone from the stored state. *)
Theorem update_state_after_failed_read (m : Manager) (fl fs : Faults)
    (now_load now now_save sid : string) (updates : gmap string pyval) (w : World) :
  pool m = true -> cache_hit m fl sid w = false ->
  durable_read_fails fl = true -> durable_write_fails fs = false ->
  let out := update_state m fl fs now_load now now_save sid updates w in
  fst out = true
  /\ os_state_data <$> (onboarding_state (db (snd out)) !! sid)
     = Some (stamp_state now_save now_save
               (<["updated_at" := PStr now]>
                  (updates ∪ default_state now_load sid)))
  /\ forall stored k,
       os_state_data <$> (onboarding_state (db (snd out)) !! sid) = Some stored ->
       updates !! k = None -> default_state now_load sid !! k = None ->
       stored !! k = None.
Proof.
  intros Hp Hc Hr Hw. cbv zeta.
  assert (Hl : load_state m fl now_load sid w
               = (Return (default_state now_load sid), w)).
  { rewrite (StoreFacts.load_state_cache_miss m fl now_load sid w Hp Hc).
    apply StoreFacts.load_from_db_read_fails, Hr. }
  rewrite (update_state_unfold m fl fs now_load now now_save sid updates w
             (default_state now_load sid) Hp Hw) by (rewrite Hl; reflexivity).
  destruct (saved_world m fs now_save sid
              (<["updated_at" := PStr now]> (updates ∪ default_state now_load sid))
              (snd (load_state m fl now_load sid w)) Hp Hw) as (_ & Hrow & _).
  cbn [fst snd]. split; [reflexivity |]. split; [exact Hrow |].
  intros stored k Hs Hk Hd. rewrite Hrow in Hs. injection Hs as <-.
  assert (k <> "updated_at" /\ k <> "created_at" /\ k <> "state_version")
    as (H1 & H2 & H3).
  { repeat split; intros ->; vm_compute in Hd; discriminate Hd. }
  rewrite stamp_other by assumption.
  rewrite lookup_insert_ne by congruence.
  apply lookup_union_None. split; assumption.
Qed.

Lemma update_state_after_failed_read_witness :
  cache_hit Examples.ready Examples.db_down "s1" StoreExamples.with_user_data = false
  /\ durable_read_fails Examples.db_down = true
  /\ exists stored,
       os_state_data <$>
         (onboarding_state
            (db (snd (update_state Examples.ready Examples.db_down no_faults
                        "t1" "t2" "t3" "s1" {["current_step" := PStr "bank"]}
                        StoreExamples.with_user_data))) !! "s1") = Some stored
       /\ stored !! "user_name" = None.
Proof.
  split; [reflexivity |]. split; [reflexivity |].
  destruct (update_state_after_failed_read Examples.ready Examples.db_down
              no_faults "t1" "t2" "t3" "s1" {["current_step" := PStr "bank"]}
              StoreExamples.with_user_data eq_refl eq_refl eq_refl eq_refl)
    as (_ & Hrow & Hgone).
  eexists. split; [exact Hrow |].
  apply (Hgone _ "user_name" Hrow); [apply lookup_singleton_ne; discriminate |].
  vm_compute. reflexivity.
Defined.

Lemma delete_state_cases cascade m f sid w :
  pool m = true ->
  delete_state cascade m f sid w
  = if durable_write_fails f then (Return false, w)
    else
      let d' := snd (delete_session_row cascade sid
                       (snd (delete_state_row sid (db w)))) in
      (Return true,
       if _cache_enabled m && negb (cache_write_fault f)
       then mkWorld d' (delete (cache_key sid) (cache w)) (published w) (trace w)
       else mkWorld d' (cache w) (published w) (trace w)).
Proof.
  intros Hp. unfold delete_state. rewrite Hp. cbn [negb].
  rewrite StoreFacts.transaction_two_ops. unfold durable_write_fails.
  destruct (match db_fault f with Some i => (i <? 4)%nat | None => false end);
    reflexivity.
Qed.

(** X19: a [delete_state] that reaches the durable store removes the
    session's rows and returns True whether or not the cache entry could
    be removed.  When it was removed (or the cache is off) the next
    [load_state] returns the fresh default state.  When the cache could
    not be written, [load_state] still returns the state of the deleted
    session for as long as the cache holds it.  A [delete_state] that
    fails in the durable store returns False and leaves the world, cache
    included, as it was. *)
Theorem delete_then_load (cascade : bool) (m : Manager) (f fl : Faults)
    (now sid : string) (w : World) :
  pool m = true ->
  let out := delete_state cascade m f sid w in
  (durable_write_fails f = true -> out = (Return false, w))
  /\ (durable_write_fails f = false ->
      fst out = Return true
      /\ onboarding_state (db (snd out)) !! sid = None
      /\ chat_sessions (db (snd out)) !! sid = None
      /\ (_cache_enabled m = false \/ cache_write_fault f = false ->
          cache_hit m fl sid w = false \/ _cache_enabled m = true ->
          load_state m fl now sid (snd out)
          = (Return (default_state now sid), snd out))
      /\ (forall old,
            _cache_enabled m = true -> cache_write_fault f = true ->
            cache_read_fault fl = false ->
            cache w !! cache_key sid = Some old -> dict_truthy old = true ->
            fst (load_state m fl now sid (snd out))
            = Return (GraphState.migrate_state old))).
Proof.
  intros Hp. cbv zeta. rewrite (delete_state_cases cascade m f sid w Hp).
  split; [intros ->; reflexivity |]. intros ->. cbv zeta. cbn [fst snd].
  split; [reflexivity |].
  assert (Hrow : forall c p t,
            onboarding_state
              (db (mkWorld (snd (delete_session_row cascade sid
                                   (snd (delete_state_row sid (db w))))) c p t))
              !! sid = None).
  { intros. cbn. apply lookup_delete_eq. }
  split; [destruct (_ && _); apply Hrow |].
  split; [destruct (_ && _); cbn; apply lookup_delete_eq |].
  assert (Hdb : forall w', onboarding_state (db w') !! sid = None ->
                  load_from_db m fl now sid w' = (Return (default_state now sid), w')).
  { intros w' Hnone. destruct (durable_read_fails fl) eqn:Hr.
    - now apply StoreFacts.load_from_db_read_fails.
    - now apply StoreFacts.load_from_db_missing. }
  split.
  - intros Hcleared Hmiss.
    destruct (_cache_enabled m) eqn:Hc.
    + destruct Hcleared as [H | H]; [discriminate |]. rewrite H. cbn [andb negb].
      rewrite load_state_from_db;
        [apply Hdb, Hrow | exact Hp | right; right; cbn; apply lookup_delete_eq].
    + cbn [andb]. rewrite load_state_from_db; [apply Hdb, Hrow | exact Hp | auto].
  - intros old Hc Hcw Hcr Hold Ht. rewrite Hc, Hcw. cbn [andb negb].
    rewrite (load_state_cached m fl now sid _ old Hp Hc Hcr); [reflexivity | | exact Ht].
    exact Hold.
Qed.

Lemma delete_then_load_witness :
  pool Examples.ready_with_cache = true
  /\ fst (delete_state true Examples.ready_with_cache StoreExamples.cache_write_fails
            "s1" StoreExamples.cached_world) = Return true
  /\ fst (load_state Examples.ready_with_cache no_faults "t1" "s1"
            (snd (delete_state true Examples.ready_with_cache
                    StoreExamples.cache_write_fails "s1"
                    StoreExamples.cached_world)))
     = Return (GraphState.migrate_state Examples.kyc_state).
Proof.
  split; [reflexivity |].
  destruct (proj2 (delete_then_load true Examples.ready_with_cache
                     StoreExamples.cache_write_fails no_faults "t1" "s1"
                     StoreExamples.cached_world eq_refl) eq_refl)
    as (H1 & _ & _ & _ & H5).
  split; [exact H1 |].
  apply (H5 Examples.kyc_state); first [reflexivity | vm_compute; reflexivity].
Defined.

End StoreOpsFacts.

(** ** The entity features: what a call records *)

Module FeatureOpsFacts.
Import StateManager StateManagerOps.

(** Every row of the table satisfies [I]. *)
Local Abbreviation rows I d :=
  (forall sid r, entity_features d !! sid = Some r -> I r).

Lemma rows_insert (I : EntityRow -> Prop) sid r d :
  I r -> rows I d -> rows I (snd (insert_features sid r d)).
Proof.
  intros Hr Hd sid' r'. cbn.
  destruct (decide (sid' = sid)) as [-> | Hne].
  - rewrite lookup_insert_eq. now intros [= <-].
  - rewrite lookup_insert_ne by auto. apply Hd.
Qed.

Lemma rows_update (I : EntityRow -> Prop) sid upd d :
  (forall r, I r -> I (upd r)) -> rows I d ->
  rows I (snd (update_features sid upd d)).
Proof.
  intros Hupd Hd sid' r'. cbn. rewrite lookup_alter. case_decide as Heq; [| apply Hd].
  subst sid'. destruct (entity_features d !! sid) as [r|] eqn:E; [| discriminate].
  intros [= <-]. apply Hupd, (Hd sid r E).
Qed.

(** A transaction that commits ends in a database its body leads to. *)
Lemma transaction_some {A} fault (body : Tx A) (P : Database -> Prop)
    (Q : A -> Database -> Prop) d a d' :
  triple P body Q -> P d -> transaction fault body d = (Some a, d') -> Q a d'.
Proof.
  intros Hbody HP. unfold transaction.
  destruct (bind _ _ d 0) as [[[a0 d0] n0]|] eqn:E; [| discriminate].
  intros [= -> ->]. revert E. unfold bind at 1, acquire, db_op.
  case_decide; [discriminate |]. unfold bind at 1.
  destruct (body d 1) as [[[a1 d1] n1]|] eqn:Eb; [| discriminate].
  unfold bind, commit, db_op, ret. case_decide; [discriminate |].
  intros [= <- <- _]. exact (Hbody _ _ _ _ _ HP Eb).
Qed.

(** Without a fault every operation returns. *)
Lemma total_ret {A} (a : A) d n : is_Some (ret a d n).
Proof. eexists. reflexivity. Qed.

Lemma total_db_op {A} (f : Database -> A * Database) d n :
  is_Some (db_op None f d n).
Proof.
  unfold db_op. case_decide; [discriminate |]. destruct (f d). eexists. reflexivity.
Qed.

Lemma total_bind {A B} (m : Tx A) (f : A -> Tx B) :
  (forall d n, is_Some (m d n)) -> (forall a d n, is_Some (f a d n)) ->
  forall d n, is_Some (bind m f d n).
Proof.
  intros Hm Hf d n. unfold bind. destruct (Hm d n) as [[[a d'] n'] ->]. apply Hf.
Qed.

Lemma transaction_total {A} (body : Tx A) d :
  (forall d n, is_Some (body d n)) ->
  exists a d', transaction None body d = (Some a, d').
Proof.
  intros Hbody. unfold transaction.
  destruct (total_bind (acquire None)
              (fun _ => bind body (fun a => bind (commit None) (fun _ => ret a)))
              (fun d n => total_db_op _ d n)
              (fun _ => total_bind body _ Hbody
                          (fun a => total_bind (commit None) _
                                      (fun d n => total_db_op _ d n)
                                      (fun _ => total_ret a))) d 0)
    as [[[a d'] n'] ->].
  eauto.
Qed.

Lemma flag_after_mark ft data now r :
  flag_of ft (mark_completed ft data now r) = true
  /\ stamp_of ft (mark_completed ft data now r) = Some now.
Proof. destruct ft; split; reflexivity. Qed.

Lemma flag_after_set ft e u p o now r :
  flag_of ft (set_fields e u p o now r) = flag_of ft r
  /\ stamp_of ft (set_fields e u p o now r) = stamp_of ft r.
Proof. destruct ft; split; reflexivity. Qed.

Lemma flag_after_onboarding ft now r :
  flag_of ft (mark_onboarding now r) = flag_of ft r
  /\ stamp_of ft (mark_onboarding now r) = stamp_of ft r.
Proof. destruct ft; split; reflexivity. Qed.

Lemma stamped_new uuid e u p o now : stamped (new_row uuid e u p o now).
Proof.
  unfold stamped. cbn.
  repeat split; try discriminate; intros [x H]; discriminate H.
Qed.

Lemma stamped_set e u p o now r : stamped r -> stamped (set_fields e u p o now r).
Proof. unfold stamped. cbn. tauto. Qed.

Lemma stamped_mark ft data now r : stamped r -> stamped (mark_completed ft data now r).
Proof.
  unfold stamped. intros (H1 & H2 & H3 & H4 & H5).
  destruct ft; cbn; repeat split; try tauto; eauto.
Qed.

Lemma stamped_onboarding now r : stamped r -> stamped (mark_onboarding now r).
Proof.
  unfold stamped. intros (H1 & H2 & H3 & H4 & H5).
  cbn; repeat split; try tauto; eauto.
Qed.

Section Body.
Variable fault : option nat.
Variables now uuid sid : string.
Variables eid email phone org feature : option string.
Variable fdata : option (gmap string pyval).

Local Abbreviation body :=
  (save_entity_feature_body fault now uuid sid eid email phone org feature fdata).

(** A property of rows that the INSERT establishes and every UPDATE
    keeps holds of every row after the body. *)
Lemma body_rows (I : EntityRow -> Prop) :
  I (new_row uuid eid email phone org now) ->
  (forall r, I r -> I (set_fields eid email phone org now r)) ->
  (forall ft data r, I r -> I (mark_completed ft data now r)) ->
  (forall r, I r -> I (mark_onboarding now r)) ->
  triple (fun d => rows I d) body (fun _ d => rows I d).
Proof.
  intros Hnew Hset Hmark Honb. unfold save_entity_feature_body.
  eapply FeatureFacts.triple_bind with (Q := fun _ d => rows I d).
  { apply FeatureFacts.triple_db_op. intros d H. exact H. }
  intros existing.
  eapply FeatureFacts.triple_bind with (Q := fun _ d => rows I d).
  { destruct existing as [r0|].
    - destruct (_ || _); [| apply (FeatureFacts.triple_ret tt (fun d => rows I d))].
      apply FeatureFacts.triple_db_op. intros d H. now apply rows_update.
    - apply FeatureFacts.triple_db_op. intros d H. now apply rows_insert. }
  intros _.
  eapply FeatureFacts.triple_bind with (Q := fun _ d => rows I d).
  { destruct (str_truthy feature);
      [| apply (FeatureFacts.triple_ret tt (fun d => rows I d))].
    destruct (feature_map _) as [ft|];
      [| apply (FeatureFacts.triple_ret tt (fun d => rows I d))].
    destruct (_ && _); apply FeatureFacts.triple_db_op; intros d H;
      apply rows_update; auto. }
  intros _.
  eapply FeatureFacts.triple_bind with (Q := fun _ d => rows I d).
  { apply FeatureFacts.triple_db_op. intros d H. exact H. }
  intros [r|]; [| apply (FeatureFacts.triple_ret tt (fun d => rows I d))].
  destruct (all_features_completed r);
    [| apply (FeatureFacts.triple_ret tt (fun d => rows I d))].
  apply FeatureFacts.triple_db_op. intros d H. apply rows_update; auto.
Qed.

(** The flags a call that names no known feature leaves in the row of
    its session: those of [base]. *)
Lemma body_keeps_flags (base : Feature -> bool) :
  feature_map (default "" feature) = None ->
  triple (fun d => forall ft,
            base ft = match entity_features d !! sid with
                      | Some r => flag_of ft r
                      | None => false
                      end)
    body
    (fun _ d => exists r, entity_features d !! sid = Some r
                          /\ forall ft, flag_of ft r = base ft).
Proof.
  intros Hunknown. unfold save_entity_feature_body.
  set (Q := fun d => exists r, entity_features d !! sid = Some r
                               /\ forall ft, flag_of ft r = base ft).
  eapply FeatureFacts.triple_bind with
    (Q := fun existing d =>
            (forall ft, base ft = match entity_features d !! sid with
                                  | Some r => flag_of ft r
                                  | None => false
                                  end)
            /\ existing = entity_features d !! sid).
  { apply FeatureFacts.triple_db_op. intros d H. cbn. split; [exact H | reflexivity]. }
  intros existing.
  eapply FeatureFacts.triple_bind with (Q := fun _ d => Q d).
  { destruct existing as [r0|].
    - destruct (_ || _).
      + apply FeatureFacts.triple_db_op. intros d [H Hex]. unfold Q. cbn.
        rewrite lookup_alter. case_decide; [| congruence].
        rewrite <- Hex in H |- *. cbn. eexists. split; [reflexivity |].
        intros ft. rewrite (proj1 (flag_after_set ft _ _ _ _ _ _)). now rewrite H.
      + eapply FeatureFacts.triple_weaken; [| | apply FeatureFacts.triple_ret]; cbn;
          [intros d H; exact H |].
        intros _ d [H Hex]. unfold Q. rewrite <- Hex in H.
        exists r0. split; [now symmetry |].
        intros ft. now rewrite H.
    - apply FeatureFacts.triple_db_op. intros d [H Hex]. unfold Q. cbn.
      rewrite lookup_insert_eq. eexists. split; [reflexivity |].
      intros ft. rewrite H, <- Hex. now destruct ft. }
  intros _.
  eapply FeatureFacts.triple_bind with (Q := fun _ d => Q d).
  { destruct (str_truthy feature); [| apply (FeatureFacts.triple_ret tt Q)].
    rewrite Hunknown. apply (FeatureFacts.triple_ret tt Q). }
  intros _.
  eapply FeatureFacts.triple_bind with (Q := fun _ d => Q d).
  { apply FeatureFacts.triple_db_op. intros d H. exact H. }
  intros [r|]; [| apply (FeatureFacts.triple_ret tt Q)].
  destruct (all_features_completed r); [| apply (FeatureFacts.triple_ret tt Q)].
  apply FeatureFacts.triple_db_op. intros d (r' & Hr' & Hflags). unfold Q. cbn.
  rewrite lookup_alter. case_decide; [| congruence]. rewrite Hr'. cbn.
  eexists. split; [reflexivity |].
  intros ft. rewrite (proj1 (flag_after_onboarding ft _ _)). apply Hflags.
Qed.

(** The row a call that names the feature [ft] leaves for its session. *)
Lemma body_records ft :
  str_truthy feature = true -> feature_map (default "" feature) = Some ft ->
  triple (fun _ => True) body
    (fun _ d => exists r, entity_features d !! sid = Some r
                          /\ flag_of ft r = true /\ stamp_of ft r = Some now).
Proof.
  intros Htruthy Hknown. unfold save_entity_feature_body.
  set (Q := fun d => exists r, entity_features d !! sid = Some r
                               /\ flag_of ft r = true /\ stamp_of ft r = Some now).
  eapply FeatureFacts.triple_bind with
    (Q := fun existing d => existing = entity_features d !! sid).
  { apply FeatureFacts.triple_db_op. intros d _. reflexivity. }
  intros existing.
  eapply FeatureFacts.triple_bind with
    (Q := fun _ d => is_Some (entity_features d !! sid)).
  { destruct existing as [r0|].
    - destruct (_ || _).
      + apply FeatureFacts.triple_db_op. intros d Hex. cbn.
        rewrite lookup_alter. case_decide; [| congruence].
        rewrite <- Hex. cbn. eauto.
      + eapply FeatureFacts.triple_weaken; [| | apply FeatureFacts.triple_ret]; cbn;
          [intros d H; exact H |].
        intros _ d Hex. rewrite <- Hex. eauto.
    - apply FeatureFacts.triple_db_op. intros d _. cbn.
      rewrite lookup_insert_eq. eauto. }
  intros _.
  eapply FeatureFacts.triple_bind with (Q := fun _ d => Q d).
  { rewrite Htruthy, Hknown.
    destruct (_ && _); apply FeatureFacts.triple_db_op; intros d [r Hr];
      unfold Q; cbn; rewrite lookup_alter; (case_decide; [| congruence]); rewrite Hr; cbn;
      (eexists; split; [reflexivity | apply flag_after_mark]). }
  intros _.
  eapply FeatureFacts.triple_bind with (Q := fun _ d => Q d).
  { apply FeatureFacts.triple_db_op. intros d H. exact H. }
  intros [r|]; [| apply (FeatureFacts.triple_ret tt Q)].
  destruct (all_features_completed r); [| apply (FeatureFacts.triple_ret tt Q)].
  apply FeatureFacts.triple_db_op. intros d (r' & Hr' & Hflag & Hstamp).
  unfold Q. cbn. rewrite lookup_alter. case_decide; [| congruence]. rewrite Hr'. cbn.
  eexists. split; [reflexivity |].
  destruct (flag_after_onboarding ft now r') as [-> ->]. split; assumption.
Qed.
End Body.

Lemma body_total now uuid sid eid email phone org feature fdata d n :
  is_Some (save_entity_feature_body None now uuid sid eid email phone org feature
             fdata d n).
Proof.
  unfold save_entity_feature_body. revert d n.
  apply total_bind; [intros; apply total_db_op |]. intros existing.
  apply total_bind.
  { destruct existing; [destruct (_ || _) |]; intros;
      first [apply total_db_op | apply total_ret]. }
  intros _. apply total_bind.
  { destruct (str_truthy feature); [| intros; apply total_ret].
    destruct (feature_map _); [| intros; apply total_ret].
    destruct (_ && _); intros; apply total_db_op. }
  intros _. apply total_bind; [intros; apply total_db_op |].
  intros [r|]; [| intros; apply total_ret].
  destruct (all_features_completed r); intros;
    first [apply total_db_op | apply total_ret].
Qed.

Lemma save_entity_feature_returns m f now uuid sid eid email phone org feature fdata w :
  pool m = true -> db_fault f = None ->
  fst (save_entity_feature m f now uuid sid eid email phone org feature fdata w)
  = Return true.
Proof.
  intros Hp Hf. unfold save_entity_feature. rewrite Hp, Hf. cbn [negb].
  destruct (transaction_total
              (save_entity_feature_body None now uuid sid eid email phone org
                 feature fdata) (db w)) as (a & d' & ->).
  { intros. apply body_total. }
  reflexivity.
Qed.

(** The database after a call that returned True. *)
Lemma save_entity_feature_committed m f now uuid sid eid email phone org feature fdata
    w (P : Database -> Prop) (Q : unit -> Database -> Prop) :
  triple P
    (save_entity_feature_body (db_fault f) now uuid sid eid email phone org feature
       fdata) Q ->
  P (db w) ->
  fst (save_entity_feature m f now uuid sid eid email phone org feature fdata w)
  = Return true ->
  Q tt (db (snd (save_entity_feature m f now uuid sid eid email phone org feature
                   fdata w))).
Proof.
  intros Hbody HP. unfold save_entity_feature.
  destruct (negb (pool m)); [discriminate |].
  destruct (transaction _ _ (db w)) as [[[]|] d'] eqn:E; [| discriminate].
  intros _. cbn. exact (transaction_some _ _ P Q _ _ _ Hbody HP E).
Qed.

Lemma get_entity_features_found m f sid w r :
  pool m = true -> durable_read_fails f = false ->
  entity_features (db w) !! sid = Some r ->
  get_entity_features m f sid w = Return (Some (features_of_row r)).
Proof.
  intros Hp Hf Hr. unfold get_entity_features. rewrite Hp. cbn [negb].
  unfold durable_read_fails in Hf. unfold bind, acquire, db_op, fetch_features.
  destruct (db_fault f) as [[|[|n]]|]; try discriminate;
    repeat (case_decide; try congruence); rewrite Hr; reflexivity.
Qed.

Lemma reachable_rows (I : EntityRow -> Prop) :
  (forall uuid e u p o now, I (new_row uuid e u p o now)) ->
  (forall e u p o now r, I r -> I (set_fields e u p o now r)) ->
  (forall ft data now r, I r -> I (mark_completed ft data now r)) ->
  (forall now r, I r -> I (mark_onboarding now r)) ->
  forall w, reachable w -> rows I (db w).
Proof.
  intros Hnew Hset Hmark Honb.
  induction 1 as [| m f now sid state w Hw IH | m f now sid w Hw IH
                  | m f now uuid sid eid email phone org feature fdata w Hw IH].
  - intros sid r. cbn. rewrite lookup_empty. discriminate.
  - intros sid' r. rewrite FeatureFacts.save_state_keeps_features. apply IH.
  - rewrite FeatureFacts.load_state_keeps_db. exact IH.
  - rewrite FeatureFacts.save_entity_feature_db. destruct (pool m); [| exact IH].
    apply (FeatureFacts.transaction_post (db_fault f) _
             (fun d => rows I d) (fun d => rows I d));
      [apply body_rows; auto | exact IH | exact IH].
Qed.

(** X20: in every state the store can reach, a completion flag is set
    exactly when its timestamp is: for the four features and for the
    onboarding as a whole, in the row of every session, hence in the
    'completed' and 'completed_at' entries [get_entity_features]
    reports. *)
Theorem completion_stamps_invariant (w : World) (sid : string) :
  reachable w ->
  (forall r, entity_features (db w) !! sid = Some r -> stamped r)
  /\ (forall m f feats stage,
        get_entity_features m f sid w = Return (Some feats) ->
        In stage [gf_signup; gf_kyc; gf_business_details; gf_bank_details] ->
        (completed (stage feats) = true <-> is_Some (completed_at (stage feats)))).
Proof.
  intros Hw.
  pose proof (reachable_rows stamped stamped_new stamped_set stamped_mark
                stamped_onboarding w Hw) as Hrows.
  split; [intros r Hr; exact (Hrows sid r Hr) |].
  intros m f feats stage. unfold get_entity_features.
  destruct (negb (pool m)); [discriminate |].
  unfold bind, acquire, db_op, fetch_features.
  repeat (case_decide; try discriminate).
  destruct (entity_features (db w) !! sid) as [r|] eqn:Er; intros [= <-] Hin.
  - destruct (Hrows sid r Er) as (H1 & H2 & H3 & H4 & _).
    cbn in Hin. destruct_or! Hin; try contradiction; subst stage; cbn; assumption.
  - cbn in Hin. destruct_or! Hin; try contradiction; subst stage; cbn;
      (split; [discriminate | intros [x Hx]; discriminate Hx]).
Qed.

Lemma completion_stamps_invariant_witness :
  reachable Examples.four_features
  /\ forall r, entity_features (db Examples.four_features) !! "s1" = Some r ->
               stamped r.
Proof.
  split; [exact FeatureFacts.four_features_reachable |].
  exact (proj1 (completion_stamps_invariant Examples.four_features "s1"
                  FeatureFacts.four_features_reachable)).
Defined.

(** X21: a call of [save_entity_feature] that names one of the four
    features and returns True has recorded it: the row of the session
    exists, the feature's flag is set and its timestamp is the time of the
    call, and [get_entity_features] reports that row.  Without a fault
    in the durable store the call does return True. *)
Theorem feature_recorded (m : Manager) (f f' : Faults) (now uuid sid : string)
    (eid email phone org : option string) (feature : string) (ft : Feature)
    (fdata : option (gmap string pyval)) (w : World) :
  pool m = true -> feature_map feature = Some ft ->
  let out := save_entity_feature m f now uuid sid eid email phone org
               (Some feature) fdata w in
  (db_fault f = None -> fst out = Return true)
  /\ (fst out = Return true ->
      exists r,
        entity_features (db (snd out)) !! sid = Some r
        /\ flag_of ft r = true /\ stamp_of ft r = Some now
        /\ (durable_read_fails f' = false ->
            get_entity_features m f' sid (snd out)
            = Return (Some (features_of_row r)))).
Proof.
  intros Hp Hft. cbv zeta. split.
  - intros Hf. now apply save_entity_feature_returns.
  - intros Hok.
    assert (Htruthy : str_truthy (Some feature) = true).
    { destruct feature; [discriminate Hft | reflexivity]. }
    destruct (save_entity_feature_committed m f now uuid sid eid email phone org
                (Some feature) fdata w (fun _ => True) _
                (body_records (db_fault f) now uuid sid eid email phone org
                   (Some feature) fdata ft Htruthy Hft) I Hok)
      as (r & Hr & Hflag & Hstamp).
    exists r. split; [exact Hr |]. split; [exact Hflag |]. split; [exact Hstamp |].
    intros Hread. now apply get_entity_features_found.
Qed.

Lemma feature_recorded_witness :
  pool Examples.ready = true /\ feature_map "kyc" = Some f_kyc
  /\ exists r,
       entity_features
         (db (snd (save_entity_feature Examples.ready no_faults "t1" "row-1" "s1"
                     (Some "ENT123456") None None None (Some "kyc") None
                     empty_world))) !! "s1" = Some r
       /\ flag_of f_kyc r = true /\ stamp_of f_kyc r = Some "t1".
Proof.
  split; [reflexivity |]. split; [reflexivity |].
  destruct (feature_recorded Examples.ready no_faults no_faults "t1" "row-1" "s1"
              (Some "ENT123456") None None None "kyc" f_kyc None empty_world
              eq_refl eq_refl) as [Hret Hrec].
  destruct (Hrec (Hret eq_refl)) as (r & Hr & Hflag & Hstamp & _).
  exists r. split; [exact Hr |]. split; [exact Hflag | exact Hstamp].
Defined.

(** X22: a feature name that is not one of "signup", "kyc",
    "business_details", "bank_details" (the stage names "company" and
    "bank" of the onboarding graph, say) is accepted in silence: without a
    fault the call returns True, the row of the session exists
    afterwards, and its four feature flags are what they were before the
    call (false when the row is new). *)
Theorem unknown_feature_records_nothing (m : Manager) (f : Faults)
    (now uuid sid : string) (eid email phone org feature : option string)
    (fdata : option (gmap string pyval)) (w : World) :
  pool m = true -> db_fault f = None ->
  feature_map (default "" feature) = None ->
  let out := save_entity_feature m f now uuid sid eid email phone org feature
               fdata w in
  fst out = Return true
  /\ exists r,
       entity_features (db (snd out)) !! sid = Some r
       /\ forall ft,
            flag_of ft r = match entity_features (db w) !! sid with
                           | Some r0 => flag_of ft r0
                           | None => false
                           end.
Proof.
  intros Hp Hf Hunknown. cbv zeta.
  pose proof (save_entity_feature_returns m f now uuid sid eid email phone org
                feature fdata w Hp Hf) as Hok.
  split; [exact Hok |].
  exact (save_entity_feature_committed m f now uuid sid eid email phone org
           feature fdata w _ _
           (body_keeps_flags (db_fault f) now uuid sid eid email phone org feature
              fdata
              (fun ft => match entity_features (db w) !! sid with
                         | Some r0 => flag_of ft r0
                         | None => false
                         end) Hunknown)
           (fun ft => eq_refl) Hok).
Qed.

Lemma unknown_feature_records_nothing_witness :
  feature_map (default "" (Some "company")) = None
  /\ fst (save_entity_feature Examples.ready no_faults "t1" "row-1" "s1"
            (Some "ENT123456") None None None (Some "company") None empty_world)
     = Return true
  /\ exists r,
       entity_features
         (db (snd (save_entity_feature Examples.ready no_faults "t1" "row-1" "s1"
                     (Some "ENT123456") None None None (Some "company") None
                     empty_world))) !! "s1" = Some r
       /\ flag_of f_business_details r = false.
Proof.
  split; [reflexivity |].
  destruct (unknown_feature_records_nothing Examples.ready no_faults "t1" "row-1"
              "s1" (Some "ENT123456") None None None (Some "company") None
              empty_world eq_refl eq_refl eq_refl) as (Hok & r & Hr & Hflags).
  split; [exact Hok |]. exists r. split; [exact Hr |].
  exact (Hflags f_business_details).
Defined.

End FeatureOpsFacts.

(** ** State dicts and the conversational signup *)

Module GraphStateFacts.
Import GraphStateOps.

Lemma validate_state_spec state :
  validate_state state = true
  <-> is_Some (state !! "session_id") /\ is_Some (state !! "current_step").
Proof.
  unfold validate_state, required_fields. cbn [forallb].
  rewrite !andb_true_iff, !bool_decide_eq_true. tauto.
Qed.

(** X23: [merge_state] lays the updates over the base: a key of the
    updates has the updates' value, any other key the base's; merging
    the empty dict changes nothing, merging twice is merging the merged
    updates, and a merge is a valid state as soon as the base or the
    updates are one.  The states made by [create_initial_state] and the
    default state of [load_state] are valid. *)
Theorem merge_state_laws (base updates : gmap string pyval) :
  (forall k, merge_state base updates !! k
             = match updates !! k with
               | Some v => Some v
               | None => base !! k
               end)
  /\ merge_state base ∅ = base
  /\ (forall later, merge_state (merge_state base updates) later
                    = merge_state base (merge_state updates later))
  /\ (validate_state base = true \/ validate_state updates = true ->
      validate_state (merge_state base updates) = true)
  /\ (forall sid, validate_state (create_initial_state sid) = true)
  /\ (forall now sid, validate_state (StateManager.default_state now sid) = true).
Proof.
  unfold merge_state. split; [| split; [| split; [| split; [| split]]]].
  - intros k. destruct (updates !! k) as [v|] eqn:E.
    + now apply lookup_union_Some_l.
    + now apply lookup_union_r.
  - apply (left_id_L ∅ (∪)).
  - intros later. now rewrite (assoc_L (∪)).
  - rewrite !validate_state_spec.
    assert (H : forall k, is_Some (base !! k) \/ is_Some (updates !! k) ->
                          is_Some ((updates ∪ base) !! k)).
    { intros k Hk. apply lookup_union_is_Some. tauto. }
    intros [[H1 H2] | [H1 H2]]; split; apply H; auto.
  - intros sid. apply validate_state_spec. unfold create_initial_state.
    split.
    + rewrite lookup_insert_eq. eauto.
    + do 2 (rewrite lookup_insert_ne by discriminate).
      rewrite lookup_insert_eq. eauto.
  - intros now sid. apply validate_state_spec. unfold StateManager.default_state.
    split.
    + rewrite lookup_insert_ne by discriminate. rewrite lookup_insert_eq. eauto.
    + do 2 (rewrite lookup_insert_ne by discriminate).
      rewrite lookup_insert_eq. eauto.
Qed.

Lemma merge_state_laws_witness :
  validate_state Examples.kyc_state = true
  /\ validate_state (merge_state Examples.kyc_state {["status" := PStr "done"]})
     = true.
Proof.
  assert (H : validate_state Examples.kyc_state = true) by (vm_compute; reflexivity).
  split; [exact H |].
  apply (proj1 (proj2 (proj2 (proj2 (merge_state_laws Examples.kyc_state
                                       {["status" := PStr "done"]}))))).
  left. exact H.
Defined.

End GraphStateFacts.

Module ConversationFacts.
Import Conversation.

Lemma extract_name_truthy {U : Unicode.Database} message n :
  _extract_name message = Some n -> StateManager.str_truthy (Some n) = true.
Proof.
  unfold _extract_name.
  destruct (Unicode.split (Unicode.strip message)) as [|w1 [|w2 rest]];
    [discriminate | |].
  - destruct (1 <? Unicode.len w1)%nat eqn:E; [| discriminate].
    intros [= <-]. destruct w1; [discriminate E | reflexivity].
  - intros [= <-]. destruct w1; reflexivity.
Qed.

Lemma store_if_other key value d k :
  k <> key -> store_if key value d !! k = d !! k.
Proof.
  intros Hne. unfold store_if. destruct (StateManager.str_truthy value); [| reflexivity].
  now rewrite lookup_insert_ne by congruence.
Qed.

Lemma store_if_same key value d :
  store_if key value d !! key
  = if StateManager.str_truthy value then Some (PStr (default "" value))
    else d !! key.
Proof.
  unfold store_if. destruct (StateManager.str_truthy value); [| reflexivity].
  apply lookup_insert_eq.
Qed.

Section Agent.
Context {U : Unicode.Database}.
Variable http : nat -> Api.HttpOutcome.
Variable now : Z.
Variable _extract_email : string -> option string.
Variable _extract_phone : string -> option string.

Lemma extracted_name message :
  _extract_user_data _extract_email _extract_phone message !! "name"
  = PStr <$> _extract_name message.
Proof.
  unfold _extract_user_data.
  rewrite !store_if_other by discriminate. rewrite store_if_same.
  destruct (_extract_name message) as [n|] eqn:E.
  - rewrite (extract_name_truthy message n E). reflexivity.
  - cbn. apply lookup_empty.
Qed.

Lemma session_after_call message sid uuid states :
  snd (process_conversational_signup http now _extract_email _extract_phone
         message sid uuid states)
  !! Supervisor.effective_session_id sid uuid
  = Some (_extract_user_data _extract_email _extract_phone message
          ∪ default (GraphStateOps.create_initial_state
                       (Supervisor.effective_session_id sid uuid))
              (states !! Supervisor.effective_session_id sid uuid)).
Proof.
  unfold process_conversational_signup, _get_session_state.
  destruct (states !! Supervisor.effective_session_id sid uuid) as [st|]; cbn [default];
    (destruct (_has_all_required_data _);
     [destruct (SignupAgent.process_signup _ _ _ _ _) |]; cbn [snd];
     apply lookup_insert_eq).
Qed.
End Agent.

(** X24: in the conversational signup the name kept for a session
    follows the last message: whenever the message has two words, or one
    word of more than one character, the stored name becomes its first
    two words (or that word), whatever name the session held; only a
    message with no such word leaves the stored name as it was.  (So a
    message that carries only an email address or a phone number
    replaces the name already given.)  Words are separated by white
    space of any kind and their length is counted in characters, as
    the Unicode character database has them, whatever it is. *)
Theorem conversation_name_follows_last_message {U : Unicode.Database}
    (http : nat -> Api.HttpOutcome) (now : Z)
    (_extract_email _extract_phone : string -> option string)
    (message : string) (sid : option string) (uuid : string)
    (states : gmap string (gmap string pyval)) :
  let sid' := Supervisor.effective_session_id sid uuid in
  let states' :=
    snd (process_conversational_signup http now _extract_email _extract_phone
           message sid uuid states) in
  exists session_state,
    states' !! sid' = Some session_state
    /\ session_state !! "name"
       = match _extract_name message with
         | Some n => Some (PStr n)
         | None => held states sid' "name"
         end
    /\ (forall w1 w2 rest,
          Unicode.split (Unicode.strip message) = w1 :: w2 :: rest ->
          session_state !! "name" = Some (PStr (w1 +:+ " " +:+ w2)))
    /\ (forall w,
          Unicode.split (Unicode.strip message) = [w] -> 1 < Unicode.len w ->
          session_state !! "name" = Some (PStr w))
    /\ (forall w,
          Unicode.split (Unicode.strip message) = [w] -> Unicode.len w <= 1 ->
          session_state !! "name" = held states sid' "name")
    /\ (Unicode.split (Unicode.strip message) = [] ->
        session_state !! "name" = held states sid' "name").
Proof.
  cbv zeta. eexists. split; [apply session_after_call |].
  assert (Hname :
    (_extract_user_data _extract_email _extract_phone message
     ∪ default (GraphStateOps.create_initial_state
                  (Supervisor.effective_session_id sid uuid))
         (states !! Supervisor.effective_session_id sid uuid)) !! "name"
    = match _extract_name message with
      | Some n => Some (PStr n)
      | None => held states (Supervisor.effective_session_id sid uuid) "name"
      end).
  { pose proof (extracted_name _extract_email _extract_phone message) as He.
    destruct (_extract_name message) as [n|]; cbn in He.
    - now apply lookup_union_Some_l.
    - rewrite lookup_union_r by exact He. unfold held.
      destruct (states !! _); reflexivity. }
  split; [exact Hname |]. split; [| split; [| split]].
  - intros w1 w2 rest Hs. rewrite Hname. unfold _extract_name. rewrite Hs. reflexivity.
  - intros w Hs Hlen. rewrite Hname. unfold _extract_name. rewrite Hs.
    apply Nat.ltb_lt in Hlen. rewrite Hlen. reflexivity.
  - intros w Hs Hlen. rewrite Hname. unfold _extract_name. rewrite Hs.
    apply Nat.ltb_ge in Hlen. rewrite Hlen. reflexivity.
  - intros Hs. rewrite Hname. unfold _extract_name. rewrite Hs. reflexivity.
Qed.

(** A message whose two words are separated by an ideographic space. *)
Lemma conversation_name_follows_last_message_witness :
  Unicode.split (U := Unicode.excerpt)
    (Unicode.strip (U := Unicode.excerpt) "555　1234567 please")
  = ["555"; "1234567"; "please"]
  /\ exists session_state,
       snd (process_conversational_signup (U := Unicode.excerpt)
              Examples.always_ok 0
              (fun _ => None) (fun _ => None) "555　1234567 please" (Some "s1") "u1"
              {["s1" := <["name" := PStr "Jane Doe"]>
                          (GraphStateOps.create_initial_state "s1")]})
       !! Supervisor.effective_session_id (Some "s1") "u1" = Some session_state
       /\ session_state !! "name" = Some (PStr ("555" +:+ " " +:+ "1234567")).
Proof.
  assert (H : Unicode.split (U := Unicode.excerpt)
                (Unicode.strip (U := Unicode.excerpt) "555　1234567 please")
              = ["555"; "1234567"; "please"])
    by (vm_compute; reflexivity).
  split; [exact H |].
  destruct (conversation_name_follows_last_message (U := Unicode.excerpt)
              Examples.always_ok 0
              (fun _ => None) (fun _ => None) "555　1234567 please" (Some "s1") "u1"
              {["s1" := <["name" := PStr "Jane Doe"]>
                          (GraphStateOps.create_initial_state "s1")]})
    as (st & H1 & _ & H3 & _).
  exists st. split; [exact H1 |]. exact (H3 "555" "1234567" ["please"] H).
Defined.

(** A session that holds the name "Jane Doe" receives a message that
    carries an email address only. *)
Example name_replaced_by_email :
  let states := {["s1" := <["name" := PStr "Jane Doe"]>
                            (GraphStateOps.create_initial_state "s1")]} in
  let states' :=
    snd (process_conversational_signup (U := Unicode.excerpt)
           Examples.always_ok 0
           (fun _ => Some "jane@example.com") (fun _ => None)
           "jane@example.com" (Some "s1") "u1" states) in
  (states' !! "s1") ≫= (fun st => st !! "name") = Some (PStr "jane@example.com").
Proof. vm_compute. reflexivity. Qed.

(** A message of one character, whatever its encoding, is no name. *)
Example name_kept_after_one_character :
  let states := {["s1" := <["name" := PStr "Jane Doe"]>
                            (GraphStateOps.create_initial_state "s1")]} in
  let states' :=
    snd (process_conversational_signup (U := Unicode.excerpt)
           Examples.always_ok 0 (fun _ => None) (fun _ => None)
           "李" (Some "s1") "u1" states) in
  (states' !! "s1") ≫= (fun st => st !! "name") = Some (PStr "Jane Doe").
Proof. vm_compute. reflexivity. Qed.

End ConversationFacts.

(** ** The Redis client: connecting and retrying *)

Module RedisFacts.
Import RedisClient.

Section Redis.
Variable net : nat -> Net.

Lemma init_from_all_fail retries delay : forall todo attempt w,
  attempt + todo = retries ->
  (forall j, j < todo -> net (calls w + j) = NetConnectionError) ->
  init_from net todo attempt retries delay w
  = (Ret tt, mkClient false (_last_health_check w)
               (clock w + (todo - 1) * delay) (calls w + todo)).
Proof.
  induction todo as [|todo IH]; intros attempt w Hsum Hfail.
  - cbn. unfold with_connected. now rewrite !Nat.add_0_r.
  - cbn [init_from]. unfold call, with_connected. cbn [calls connected clock
      _last_health_check].
    rewrite <- (Nat.add_0_r (calls w)), (Hfail 0) by lia. rewrite Nat.add_0_r.
    rewrite IH.
    + destruct (attempt <? retries - 1)%nat eqn:E; cbn.
      * apply Nat.ltb_lt in E. f_equal. f_equal; [| lia].
        destruct todo; [lia |]. cbn. lia.
      * apply Nat.ltb_ge in E. assert (todo = 0) by lia. subst todo.
        f_equal. f_equal; lia.
    + lia.
    + intros j Hj.
      replace (calls (if (attempt <? retries - 1)%nat
                      then sleep delay
                             {| connected := true;
                                _last_health_check := _last_health_check w;
                                clock := clock w; calls := S (calls w) |}
                      else {| connected := true;
                              _last_health_check := _last_health_check w;
                              clock := clock w; calls := S (calls w) |}) + j)
        with (calls w + S j) by (destruct (attempt <? retries - 1)%nat; cbn; lia).
      apply Hfail. lia.
Qed.

(** The run of the loop up to the first ping that is not a connection
    error: the pings before it are each followed by a sleep. *)
Lemma init_from_until retries delay : forall i todo attempt w,
  attempt + todo = retries -> i < todo ->
  (forall j, j < i -> net (calls w + j) = NetConnectionError) ->
  net (calls w + i) <> NetConnectionError ->
  init_from net todo attempt retries delay w
  = match net (calls w + i) with
    | NetOk =>
        (Ret tt, mkClient true (clock w + i * delay) (clock w + i * delay)
                   (calls w + i + 1))
    | r =>
        (Exc (exn_of r), mkClient true (_last_health_check w)
                           (clock w + i * delay) (calls w + i + 1))
    end.
Proof.
  induction i as [|i IH]; intros todo attempt w Hsum Hlt Hfail Hend;
    (destruct todo as [|todo]; [lia |]).
  - cbn [init_from]. unfold call, with_connected. cbn [calls connected clock
      _last_health_check].
    rewrite Nat.add_0_r in Hend |- *.
    destruct (net (calls w)); try congruence; unfold checked_at; cbn;
      f_equal; f_equal; lia.
  - cbn [init_from]. unfold call, with_connected. cbn [calls connected clock
      _last_health_check].
    rewrite <- (Nat.add_0_r (calls w)), (Hfail 0) by lia. rewrite Nat.add_0_r.
    assert (E : (attempt <? retries - 1)%nat = true) by (apply Nat.ltb_lt; lia).
    rewrite E. rewrite (IH todo (S attempt)); cbn [sleep calls clock
      _last_health_check connected].
    + replace (S (calls w) + i) with (calls w + S i) by lia.
      destruct (net (calls w + S i)); try congruence; unfold checked_at; cbn;
        f_equal; f_equal; lia.
    + lia.
    + lia.
    + intros j Hj. replace (S (calls w) + j) with (calls w + S j) by lia.
      apply Hfail. lia.
    + replace (S (calls w) + i) with (calls w + S i) by lia. exact Hend.
Qed.
End Redis.

(** X25: [_initialize] pings until a ping does not end in a connection
    error, sleeping [delay] seconds after each failed ping but the last
    of the [retries].  If ping number [i] (0-based, [i < retries]) is the
    first that answers, the client is connected after [i + 1] pings and
    [i * delay] seconds and the health check is stamped with the current
    time.  If that ping raises another error (a timeout, say), the error
    escapes and the client object that never answered is left in place.
    If all [retries] pings fail the client is None after [retries] pings
    and [(retries - 1) * delay] seconds; with [retries = 0] it is None at
    once. *)
Theorem initialize_retries (net : nat -> Net) (retries delay : nat) (w : Client) :
  (forall i,
     i < retries ->
     (forall j, j < i -> net (calls w + j) = NetConnectionError) ->
     net (calls w + i) <> NetConnectionError ->
     _initialize net retries delay w
     = match net (calls w + i) with
       | NetOk =>
           (Ret tt, mkClient true (clock w + i * delay) (clock w + i * delay)
                      (calls w + i + 1))
       | r =>
           (Exc (exn_of r), mkClient true (_last_health_check w)
                              (clock w + i * delay) (calls w + i + 1))
       end)
  /\ ((forall j, j < retries -> net (calls w + j) = NetConnectionError) ->
      _initialize net retries delay w
      = (Ret tt, mkClient false (_last_health_check w)
                   (clock w + (retries - 1) * delay) (calls w + retries))).
Proof.
  unfold _initialize. split.
  - intros i Hi Hfail Hend. now apply init_from_until.
  - intros Hfail. now apply init_from_all_fail.
Qed.

Lemma initialize_retries_witness :
  _initialize unreachable 3 2 fresh = (Ret tt, mkClient false 0 4 3).
Proof.
  apply (proj2 (initialize_retries unreachable 3 2 fresh)).
  intros j _. reflexivity.
Defined.

Lemma reconnect_unreachable net w :
  (forall i, net i = NetConnectionError) ->
  reconnect net w
  = (Ret false, mkClient false (_last_health_check w) (clock w + 4) (calls w + 3)).
Proof.
  intros Hdown. unfold reconnect.
  rewrite (proj2 (initialize_retries net 3 2 w)) by (intros; apply Hdown).
  reflexivity.
Qed.

(** X26: while the server cannot be reached (every network call ends in
    a connection error) an operation run through [_execute_with_retry]
    returns None, leaves the client None, and costs four seconds of sleep
    and three pings on top of the one call that failed, if the client
    was connected; the next operation pays the same again, since a client
    that is None is reconnected at every use. *)
Theorem unreachable_server_cost (net : nat -> Net) (A : Type) (reply : A)
    (w : Client) :
  (forall i, net i = NetConnectionError) ->
  exists w',
    _execute_with_retry net (command net reply) w = (Ret None, w')
    /\ connected w' = false
    /\ clock w' = clock w + 4
    /\ calls w' = calls w + (if connected w then 4 else 3).
Proof.
  intros Hdown. destruct w as [c l t n].
  unfold _execute_with_retry, command, client.
  cbn [connected clock _last_health_check calls].
  destruct c; cbn [negb].
  - destruct (_health_check_interval <? t - l)%nat.
    + unfold call. cbn [connected clock _last_health_check calls].
      rewrite Hdown. rewrite (reconnect_unreachable net _ Hdown). cbn.
      eexists. split; [reflexivity |]. cbn. repeat split; lia.
    + unfold call. cbn [connected clock _last_health_check calls].
      rewrite Hdown. cbn [exn_of with_connected connected negb clock
        _last_health_check calls].
      rewrite (reconnect_unreachable net _ Hdown). cbn.
      eexists. split; [reflexivity |]. cbn. repeat split; lia.
  - rewrite (reconnect_unreachable net _ Hdown). cbn.
    eexists. split; [reflexivity |]. cbn. repeat split; lia.
Qed.

Lemma unreachable_server_cost_witness :
  exists w',
    _execute_with_retry unreachable (command unreachable true) fresh = (Ret None, w')
    /\ connected w' = false /\ clock w' = clock fresh + 4
    /\ calls w' = calls fresh + (if connected fresh then 4 else 3).
Proof.
  apply (unreachable_server_cost unreachable bool true fresh).
  intros i. reflexivity.
Defined.

(** X27: an operation is tried at most twice.  On a connected client
    whose health check is not due, a command that ends in a connection
    error or a timeout is followed by one ping; if the ping answers, the
    command is sent once more and its answer, or None if it fails again
    in any way, is the result, after three network calls and no sleep.
    If the reconnecting ping itself times out, that exception escapes
    [_execute_with_retry]. *)
Theorem retry_once (net : nat -> Net) (A : Type) (reply : A) (w : Client) :
  connected w = true ->
  clock w - _last_health_check w <= _health_check_interval ->
  net (calls w) = NetConnectionError \/ net (calls w) = NetTimeoutError ->
  (net (S (calls w)) = NetOk ->
   _execute_with_retry net (command net reply) w
   = (Ret (match net (S (S (calls w))) with
           | NetOk => Some reply
           | _ => None
           end),
      mkClient true (clock w) (clock w) (calls w + 3)))
  /\ (net (S (calls w)) = NetTimeoutError ->
      _execute_with_retry net (command net reply) w
      = (Exc TimeoutError,
         mkClient true (_last_health_check w) (clock w) (calls w + 2))).
Proof.
  destruct w as [c l t n]. cbn [connected clock _last_health_check calls].
  intros -> Hdue Hfirst.
  assert (Hnot : (_health_check_interval <? t - l)%nat = false)
    by (apply Nat.ltb_ge; exact Hdue).
  assert (Hop : command net reply (mkClient true l t n)
                = (Exc (exn_of (net n)), mkClient true l t (S n))).
  { unfold command, client. cbn [connected clock _last_health_check calls negb].
    rewrite Hnot. unfold call. cbn [connected clock _last_health_check calls].
    destruct Hfirst as [-> | ->]; reflexivity. }
  split.
  - intros Hping.
    assert (Hre : client net (with_connected false (mkClient true l t (S n)))
                  = (Ret true, mkClient true t t (S (S n)))).
    { unfold client, with_connected. cbn [connected negb].
      unfold reconnect, _initialize. cbn [init_from]. unfold call, with_connected.
      cbn [calls connected clock _last_health_check]. rewrite Hping. reflexivity. }
    assert (Hagain : command net reply (mkClient true t t (S (S n)))
                     = (match net (S (S n)) with
                        | NetOk => Ret reply
                        | r => Exc (exn_of r)
                        end,
                        mkClient true t t (n + 3))).
    { unfold command, client. cbn [connected negb clock _last_health_check calls].
      rewrite Nat.sub_diag. cbn [Nat.ltb Nat.leb _health_check_interval].
      unfold call. cbn [calls connected clock _last_health_check].
      replace (S (S (S n))) with (n + 3) by lia.
      destruct (net (S (S n))); reflexivity. }
    unfold _execute_with_retry. rewrite Hop.
    destruct Hfirst as [-> | ->]; cbn [exn_of]; rewrite Hre, Hagain;
      destruct (net (S (S n))); reflexivity.
  - intros Hping.
    assert (Hre : client net (with_connected false (mkClient true l t (S n)))
                  = (Exc TimeoutError, mkClient true l t (n + 2))).
    { unfold client, with_connected. cbn [connected negb].
      unfold reconnect, _initialize. cbn [init_from]. unfold call, with_connected.
      cbn [calls connected clock _last_health_check]. rewrite Hping. cbn.
      do 2 f_equal. lia. }
    unfold _execute_with_retry. rewrite Hop.
    destruct Hfirst as [-> | ->]; cbn [exn_of]; rewrite Hre; reflexivity.
Qed.

Lemma retry_once_witness :
  _execute_with_retry drops_first (command drops_first "value") fresh
  = (Ret (Some "value"), mkClient true 0 0 3).
Proof.
  apply (proj1 (retry_once drops_first string "value" fresh eq_refl
                  (Nat.le_0_l _) (or_introl eq_refl)) eq_refl).
Defined.

End RedisFacts.
